(** * zillow-scraper: page controller, listing worker and orchestrator

    A shallow embedding of the three scraper modules

      - [backend/src/scraper/pageController.ts]
      - [backend/src/scraper/listingWorker.ts]
      - [backend/src/scraper/orchestrator.ts]

    A JavaScript string is modelled by the [string] of the bytes of
    its UTF-8 encoding.  The literals and the regular expressions of
    the source name ASCII characters, which are one byte each and
    occur inside no longer character, so that searching, cutting and
    comparing act on the bytes as they act on the characters; white
    space, the length of a string and its code units are told from
    the bytes; the change of case is a service of the runtime.
    JavaScript numbers are modelled as IEEE-754 binary64 [float]s,
    parsed JSON as the inductive type [json], the extracted record (a
    JavaScript object used as a dictionary) as [gmap string json], and
    the browser, the session provider and the scheduling of concurrent
    workers as explicit scripts that the functions consume. *)

From Stdlib Require Import ZArith Ascii String DecimalString DecimalNat Lia.
From Stdlib Require Import Uint63 Floats.PrimFloat Floats.SpecFloat Floats.FloatOps.
From stdpp Require Import base option list gmap strings.

Local Open Scope string_scope.
Local Open Scope list_scope.

(** ** Characters and strings *)

Module Str.

Definition is_digit (c : ascii) : bool :=
  let n := nat_of_ascii c in (48 <=? n)%nat && (n <=? 57)%nat.

(** [s.startsWith(p)], with the remainder of [s] after [p]. *)
Fixpoint strip_prefix (p s : string) : option string :=
  match p with
  | EmptyString => Some s
  | String a p' =>
      match s with
      | EmptyString => None
      | String b s' => if Ascii.eqb a b then strip_prefix p' s' else None
      end
  end.

(** Anchored match of a regular expression [C+<lit>] at the start of
    [s], where [C] is a character class: the greedy run first tries to
    extend, and gives back characters until [lit] follows.  On success
    returns the run matched by [C+] and what remains of [s] after the
    whole match. *)
Fixpoint match_plus_lit (cls : ascii -> bool) (lit s : string) : option (string * string) :=
  match s with
  | EmptyString => None
  | String c s' =>
      if cls c then
        match match_plus_lit cls lit s' with
        | Some (run, rest) => Some (String c run, rest)
        | None =>
            match strip_prefix lit s' with
            | Some rest => Some (String c EmptyString, rest)
            | None => None
            end
        end
      else None
  end.

(** Leftmost match of [\d+<lit>] anywhere in [s] (an unanchored,
    non-global regular expression): the text before the match, the
    digits, and the text after the match. *)
Fixpoint search_digits_lit (lit s : string) : option (string * string * string) :=
  match match_plus_lit is_digit lit s with
  | Some (ds, rest) => Some (EmptyString, ds, rest)
  | None =>
      match s with
      | EmptyString => None
      | String c s' =>
          match search_digits_lit lit s' with
          | Some (pre, ds, rest) => Some (String c pre, ds, rest)
          | None => None
          end
      end
  end.

(** [s.replace(/\d+<lit>/, "")]: the first match is removed. *)
Definition remove_first_digits_lit (lit s : string) : string :=
  match search_digits_lit lit s with
  | Some (pre, _, rest) => pre +:+ rest
  | None => s
  end.

(** [s.replace(/\/$/, repl)]: a slash that ends the string is replaced. *)
Fixpoint replace_final_slash (repl s : string) : string :=
  match s with
  | EmptyString => EmptyString
  | String c s' =>
      if Ascii.eqb c "/" && String.eqb s' EmptyString then repl
      else String c (replace_final_slash repl s')
  end.

(** [s.split("?")[0]]: the text before the first question mark. *)
Fixpoint before_question (s : string) : string :=
  match s with
  | EmptyString => EmptyString
  | String c s' => if Ascii.eqb c "?" then EmptyString else String c (before_question s')
  end.

(** Decimal rendering of a non-negative integer, as [String(n)] and a
    template literal give it. *)
Definition of_nat (n : nat) : string := NilEmpty.string_of_uint (Nat.to_uint n).

(** [s.includes(needle)]. *)
Fixpoint includes (needle s : string) : bool :=
  match strip_prefix needle s with
  | Some _ => true
  | None =>
      match s with
      | EmptyString => false
      | String _ s' => includes needle s'
      end
  end.

Definition dquote : ascii := ascii_of_nat 34.
Definition squote : ascii := ascii_of_nat 39.
Definition backslash : ascii := ascii_of_nat 92.

(** The class [\s], which is also what [trim()] strips: the number of
    bytes of the white-space character that [s] starts with, 0 when
    it starts with none.  The characters are U+0009 to U+000D, U+0020,
    U+00A0, U+1680, U+2000 to U+200A, U+2028, U+2029, U+202F, U+205F,
    U+3000 and U+FEFF, each in its UTF-8 bytes. *)
Definition space_width (s : string) : nat :=
  match s with
  | EmptyString => 0
  | String a rest =>
      let x := nat_of_ascii a in
      if ((9 <=? x) && (x <=? 13) || (x =? 32))%nat then 1
      else
        match rest with
        | EmptyString => 0
        | String b rest' =>
            let y := nat_of_ascii b in
            if ((x =? 194) && (y =? 160))%nat then 2
            else
              match rest' with
              | EmptyString => 0
              | String c _ =>
                  let z := nat_of_ascii c in
                  if ((x =? 225) && (y =? 154) && (z =? 128))%nat then 3
                  else if ((x =? 226) && (y =? 128)
                           && ((128 <=? z) && (z <=? 138) || (z =? 168) || (z =? 169)
                               || (z =? 175)))%nat then 3
                  else if ((x =? 226) && (y =? 129) && (z =? 159))%nat then 3
                  else if ((x =? 227) && (y =? 128) && (z =? 128))%nat then 3
                  else if ((x =? 239) && (y =? 187) && (z =? 191))%nat then 3
                  else 0
              end
        end
  end.

(** The no-break space U+00A0. *)
Definition nbsp : string := String (ascii_of_nat 194) (String (ascii_of_nat 160) "").

Definition is_lower (c : ascii) : bool :=
  let n := nat_of_ascii c in (97 <=? n)%nat && (n <=? 122)%nat.

(** [s.replace(/[\s/]+/g, "_")]: every maximal run of white space and
    slashes becomes one underscore.  [in_run] tells whether what
    precedes belongs to such a run, and [skip] counts the bytes still
    covered by the white-space character met last. *)
Fixpoint collapse_runs (in_run : bool) (skip : nat) (s : string) : string :=
  match s with
  | EmptyString => EmptyString
  | String c s' =>
      match skip with
      | S k => collapse_runs in_run k s'
      | O =>
          let width := if Ascii.eqb c "/" then 1 else space_width s in
          match width with
          | O => String c (collapse_runs false 0 s')
          | S k =>
              if in_run then collapse_runs true k s'
              else String "_" (collapse_runs true k s')
          end
      end
  end.

(** [s.replace(/[^a-z0-9_]/g, "")]. *)
Fixpoint keep_slug_chars (s : string) : string :=
  match s with
  | EmptyString => EmptyString
  | String c s' =>
      if is_lower c || is_digit c || Ascii.eqb c "_"
      then String c (keep_slug_chars s') else keep_slug_chars s'
  end.

(** [s.trim()]: the white space at both ends is taken off.  [skip]
    counts the bytes still covered by the white-space character met
    last. *)
Fixpoint trim_start (skip : nat) (s : string) : string :=
  match s with
  | EmptyString => EmptyString
  | String _ s' =>
      match skip with
      | S k => trim_start k s'
      | O =>
          match space_width s with
          | O => s
          | S k => trim_start k s'
          end
      end
  end.

Fixpoint all_space (skip : nat) (s : string) : bool :=
  match s with
  | EmptyString => true
  | String _ s' =>
      match skip with
      | S k => all_space k s'
      | O =>
          match space_width s with
          | O => false
          | S k => all_space k s'
          end
      end
  end.

Fixpoint trim_end (s : string) : string :=
  match s with
  | EmptyString => EmptyString
  | String c s' => if all_space 0 s then EmptyString else String c (trim_end s')
  end.

Definition trim (s : string) : string := trim_end (trim_start 0 s).

(** The UTF-16 code units of a string, each as a string of its own: a
    character of one, two or three bytes is one code unit; a character
    of four bytes is two, the halves of its surrogate pair, each
    written in three bytes the way the characters next to them are.
    [skip] counts the bytes still covered by the character met
    last. *)
Definition unit_bytes (x : N) : string :=
  String (ascii_of_N (224 + x / 4096)%N)
         (String (ascii_of_N (128 + (x / 64) mod 64)%N)
                 (String (ascii_of_N (128 + x mod 64)%N) EmptyString)).

Definition units_at (s : string) : nat * list string :=
  match s with
  | EmptyString => (0, [])
  | String b0 rest =>
      let x0 := nat_of_ascii b0 in
      if (x0 <? 192)%nat then (0, [String b0 EmptyString])
      else
        match rest with
        | EmptyString => (0, [String b0 EmptyString])
        | String b1 rest1 =>
            if (x0 <? 224)%nat then (1, [String b0 (String b1 EmptyString)])
            else
              match rest1 with
              | EmptyString => (1, [String b0 (String b1 EmptyString)])
              | String b2 rest2 =>
                  if (x0 <? 240)%nat
                  then (2, [String b0 (String b1 (String b2 EmptyString))])
                  else
                    match rest2 with
                    | EmptyString => (2, [String b0 (String b1 (String b2 EmptyString))])
                    | String b3 _ =>
                        let cp := ((N_of_ascii b0 mod 8) * 262144
                                   + (N_of_ascii b1 mod 64) * 4096
                                   + (N_of_ascii b2 mod 64) * 64
                                   + N_of_ascii b3 mod 64)%N in
                        let v := (cp - 65536)%N in
                        (3, [unit_bytes (55296 + v / 1024)%N;
                             unit_bytes (56320 + v mod 1024)%N])
                    end
              end
        end
  end.

Fixpoint utf16_units (skip : nat) (s : string) : list string :=
  match s with
  | EmptyString => []
  | String _ s' =>
      match skip with
      | S k => utf16_units k s'
      | O => let '(k, units) := units_at s in units ++ utf16_units k s'
      end
  end.

(** [s.length]: the number of UTF-16 code units of the string, one for
    a character of one, two or three bytes and two for a character of
    four bytes. *)
Fixpoint utf16_length (s : string) : nat :=
  match s with
  | EmptyString => 0
  | String c s' =>
      let x := nat_of_ascii c in
      (if (x <? 128)%nat then 1
       else if (x <? 192)%nat then 0
       else if (x <? 240)%nat then 1
       else 2) + utf16_length s'
  end.

(** [parts.join(sep)] on strings. *)
Fixpoint join (sep : string) (parts : list string) : string :=
  match parts with
  | [] => EmptyString
  | [x] => x
  | x :: rest => x +:+ sep +:+ join sep rest
  end.

End Str.

(** ** JavaScript values

    What [JSON.parse] produces.  An object is the list of its own
    properties in order, with distinct keys; a property that is absent
    reads as [undefined], which is [None] here. *)

#[local] Unset Elimination Schemes.
Inductive json : Type :=
| JNull
| JBool (b : bool)
| JNum (x : float)
| JStr (s : string)
| JArr (items : list json)
| JObj (fields : list (string * json)).
#[local] Set Elimination Schemes.

(** The services of the JavaScript runtime that the scraper calls and
    that are not written in the repository. *)
Class JsRuntime := {
  (** [JSON.parse(text)]; [None] when it throws. *)
  JSON_parse : string -> option json;
  (** [JSON.stringify(value)]. *)
  JSON_stringify : json -> string;
  (** [String(x)] for a number [x]. *)
  number_to_string : float -> string;
  (** [Number(s)] for a string [s]. *)
  string_to_number : string -> float;
  (** [x.toLocaleString()] for a number [x], in the locale of the process. *)
  toLocaleString : float -> string;
  (** [s.toLowerCase()] for a string [s]. *)
  toLowerCase : string -> string;
}.

Module Js.

Fixpoint assoc (k : string) (fields : list (string * json)) : option json :=
  match fields with
  | [] => None
  | (k', v) :: rest => if String.eqb k k' then Some v else assoc k rest
  end.

(** [v.k] (or [v[k]]) for a value [v] that is not nullish and a key
    that no prototype defines: [undefined] unless [v] is an object
    that has the property. *)
Definition get (v : json) (k : string) : option json :=
  match v with
  | JObj fields => assoc k fields
  | _ => None
  end.

(** [o?.k], where [o] may be [undefined]. *)
Definition oget (o : option json) (k : string) : option json :=
  match o with
  | Some v => get v k
  | None => None
  end.

(** [x != null]: neither [undefined] nor [null]. *)
Definition present (o : option json) : bool :=
  match o with
  | None | Some JNull => false
  | Some _ => true
  end.

Definition number_truthy (x : float) : bool :=
  negb (PrimFloat.is_nan x) && negb (PrimFloat.is_zero x).

(** [Boolean(v)]. *)
Definition truthy (v : json) : bool :=
  match v with
  | JNull => false
  | JBool b => b
  | JNum x => number_truthy x
  | JStr s => negb (String.eqb s "")
  | JArr _ | JObj _ => true
  end.

Definition otruthy (o : option json) : bool :=
  match o with
  | Some v => truthy v
  | None => false
  end.

(** [o || null]. *)
Definition or_null (o : option json) : json :=
  match o with
  | Some v => if truthy v then v else JNull
  | None => JNull
  end.

(** [typeof v === "object"] for a truthy [v]. *)
Definition is_object (v : json) : bool :=
  match v with
  | JArr _ | JObj _ => true
  | _ => false
  end.

(** [v === s] for a string literal [s]. *)
Definition is_str (s : string) (v : json) : bool :=
  match v with
  | JStr t => String.eqb t s
  | _ => false
  end.

(** The characters of a string as [Object.values] gives them: its
    UTF-16 code units, each a string of its own. *)
Definition chars (s : string) : list json := JStr <$> Str.utf16_units 0 s.

(** [Object.values(v)] for a truthy [v]. *)
Definition values (v : json) : list json :=
  match v with
  | JObj fields => map snd fields
  | JArr items => items
  | JStr s => chars s
  | _ => []
  end.

Section WithRuntime.
Context `{JsRuntime}.

(** [String(v)], which is also what a template literal does.  An
    array is joined with commas, [null] elements reading as empty. *)
Fixpoint toString (v : json) : string :=
  match v with
  | JNull => "null"
  | JBool true => "true"
  | JBool false => "false"
  | JNum x => number_to_string x
  | JStr s => s
  | JArr items =>
      Str.join "," (map (fun x => match x with JNull => "" | _ => toString x end) items)
  | JObj _ => "[object Object]"
  end.

(** [String(o)] where [o] may be [undefined]. *)
Definition otoString (o : option json) : string :=
  match o with
  | Some v => toString v
  | None => "undefined"
  end.

(** [items.join(sep)]. *)
Definition join (sep : string) (items : list json) : string :=
  Str.join sep (map (fun x => match x with JNull => "" | _ => toString x end) items).

(** [Number(v)]. *)
Definition toNumber (v : json) : float :=
  match v with
  | JNull => 0%float
  | JBool true => 1%float
  | JBool false => 0%float
  | JNum x => x
  | JStr s => string_to_number s
  | JArr _ | JObj _ => string_to_number (toString v)
  end.

(** [Number(o)] where [o] may be [undefined]. *)
Definition otoNumber (o : option json) : float :=
  match o with
  | Some v => toNumber v
  | None => PrimFloat.nan
  end.

(** ["$" + Number(v).toLocaleString()]. *)
Definition money (v : json) : json :=
  JStr ("$" +:+ toLocaleString (toNumber v)).

End WithRuntime.

(** The number that an integer below 2^63 in magnitude denotes. *)
Definition float_of_Z (z : Z) : float :=
  let a := PrimFloat.of_uint63 (Uint63.of_Z (Z.abs z)) in
  if (z <? 0)%Z then PrimFloat.opp a else a.

(** [Math.round(x)]: the integer nearest to [x], a tie going up;
    a result of zero keeps the sign of [x]. *)
Definition Math_round (x : float) : float :=
  match Prim2SF x with
  | S754_finite sign m e =>
      if (0 <=? e)%Z then x
      else
        let v := if sign then Z.neg m else Z.pos m in
        let k := (- e)%Z in
        let r := ((2 * v + 2 ^ k) / 2 ^ (k + 1))%Z in
        if (r =? 0)%Z then (if sign then (-0)%float else 0%float)
        else float_of_Z r
  | _ => x
  end.

End Js.

(** ** What a run leaves behind

    The calls on the session provider, the browser and the listing
    worker, in the order they are made.  A session is named by the number the
    provider gave it. *)

Abbreviation ListingData := (gmap string json).

Inductive event : Type :=
| EvAcquire (sid : nat)                 (* createSteelSession resolved *)
| EvRelease (sid : nat)                 (* releaseSteelSession called *)
| EvGoto (sid : nat) (url : string)     (* page.goto *)
| EvReload (sid : nat)                  (* page.reload *)
| EvExtract (sid : nat)                 (* extractListingUrls *)
| EvInvoke (url : string).              (* scrapeListingPage called *)

Module Trace.

Definition is_reload (e : event) : bool :=
  match e with EvReload _ => true | _ => false end.

Definition is_extract (e : event) : bool :=
  match e with EvExtract _ => true | _ => false end.

(** How many times the page was reloaded, and how many times
    discovery ran. *)
Definition reloads (tr : list event) : nat := length (List.filter is_reload tr).
Definition discoveries (tr : list event) : nat := length (List.filter is_extract tr).

(** The URLs given to [scrapeListingPage], in the order of the calls. *)
Definition invoked (tr : list event) : list string :=
  omap (fun e => match e with EvInvoke u => Some u | _ => None end) tr.

(** How many times session [s] was acquired, and released. *)
Fixpoint acquired (s : nat) (tr : list event) : nat :=
  match tr with
  | [] => 0
  | EvAcquire s' :: tr' => (if (s =? s')%nat then 1 else 0) + acquired s tr'
  | _ :: tr' => acquired s tr'
  end.

Fixpoint released (s : nat) (tr : list event) : nat :=
  match tr with
  | [] => 0
  | EvRelease s' :: tr' => (if (s =? s')%nat then 1 else 0) + released s tr'
  | _ :: tr' => released s tr'
  end.

End Trace.

(** ** steelClient.ts *)

Module SteelClient.

(** Modelled from the spec: [steelClient.ts] is not among the sources.
    The spec gives the provider two operations.  The first, acquire,
    either fails with a provisioning error or returns a session, one
    that nobody holds; [granted] tells which, and [sid] is the number
    of the session.  The second, release, takes a session and must
    never raise. *)
Definition createSteelSession (granted : bool) (sid : nat) : option nat :=
  if granted then Some sid else None.

Definition releaseSteelSession (sid : nat) : list event := [EvRelease sid].

End SteelClient.

(** ** pageController.ts *)

Module PageController.

(** What the browser shows of a results page: the text of the
    [script#__NEXT_DATA__] element when there is one, the text of every
    [script] element, and the [href] of every anchor whose [href]
    attribute contains /homedetails/, in document order. *)
Record Document := {
  nextDataScript : option string;
  scripts : list string;
  anchors : list string;
}.

(** The character class of the first strategy: anything but a double
    quote and a question mark. *)
Definition cls_json (c : ascii) : bool :=
  negb (Ascii.eqb c Str.dquote) && negb (Ascii.eqb c "?").

(** The character class of the second strategy: anything but a double
    quote, a single quote, a backslash and a question mark. *)
Definition cls_script (c : ascii) : bool :=
  negb (Ascii.eqb c Str.dquote) && negb (Ascii.eqb c Str.squote)
  && negb (Ascii.eqb c Str.backslash) && negb (Ascii.eqb c "?").

(** Anchored match of the pattern /homedetails/ C+ _zpid/ for a
    character class C: the matched text [m[0]]. *)
Definition match_homedetails (cls : ascii -> bool) (s : string) : option string :=
  match Str.strip_prefix "/homedetails/" s with
  | Some s1 =>
      match Str.match_plus_lit cls "_zpid/" s1 with
      | Some (run, _) => Some ("/homedetails/" +:+ run +:+ "_zpid/")
      | None => None
      end
  | None => None
  end.

(** [str.matchAll] of that pattern with the global flag: the matches from left
    to right, the search resuming where the previous match ended.
    [skip] counts the characters still covered by the previous match. *)
Fixpoint matchAll_homedetails (cls : ascii -> bool) (skip : nat) (s : string) : list string :=
  match s with
  | EmptyString => []
  | String _ s' =>
      match skip with
      | S k => matchAll_homedetails cls k s'
      | O =>
          match match_homedetails cls s with
          | Some m => m :: matchAll_homedetails cls (String.length m - 1) s'
          | None => matchAll_homedetails cls 0 s'
          end
      end
  end.

(** [text.match(/(\d+)_zpid/)?.[1]]. *)
Definition zpid_of (text : string) : option string :=
  match Str.search_digits_lit "_zpid" text with
  | Some (_, ds, _) => Some ds
  | None => None
  end.

(** The body of the two [for (const m of matches)] loops. *)
Definition add_match (acc : gset string * list string) (m : string)
  : gset string * list string :=
  let url := "https://www.zillow.com" +:+ m in
  match zpid_of m with
  | Some zpid =>
      if decide (zpid ∈ acc.1) then acc
      else ({[ zpid ]} ∪ acc.1, acc.2 ++ [url])
  | None => acc
  end.

Section WithRuntime.
Context `{JsRuntime}.

Definition strategy1 (doc : Document) (acc : gset string * list string)
  : gset string * list string :=
  match nextDataScript doc with
  | Some text =>
      match JSON_parse (if String.eqb text "" then "{}" else text) with
      | Some json =>
          let str := JSON_stringify json in
          foldl add_match acc (matchAll_homedetails cls_json 0 str)
      | None => acc
      end
  | None => acc
  end.

Definition strategy2 (doc : Document) (acc : gset string * list string)
  : gset string * list string :=
  match acc.2 with
  | [] =>
      foldl (fun acc text =>
               if Str.includes "/homedetails/" text && Str.includes "_zpid" text
               then foldl add_match acc (matchAll_homedetails cls_script 0 text)
               else acc)
            acc (scripts doc)
  | _ :: _ => acc
  end.

Definition extractUrlsFromPageData (doc : Document) : list string :=
  (strategy2 doc (strategy1 doc (∅, []))).2.

(** [const key = zpid || url], the zpid being that of the URL as it
    was found. *)
Definition dedup_key (url : string) : string :=
  match zpid_of url with
  | Some zpid => zpid
  | None => url
  end.

(** The closure [addUrl] of [extractListingUrls], on the pair of its
    two captured variables [seen] and [allUrls]. *)
Definition addUrl (acc : gset string * list string) (url : string)
  : gset string * list string :=
  let key := dedup_key url in
  if decide (key ∈ acc.1) then acc
  else ({[ key ]} ∪ acc.1, acc.2 ++ [Str.before_question url]).

Definition extractListingUrls (doc : Document) : list string :=
  let jsonUrls := extractUrlsFromPageData doc in
  let acc := foldl addUrl (∅, []) jsonUrls in
  let domUrls := anchors doc in
  (foldl addUrl acc domUrls).2.

End WithRuntime.

Definition buildNextPageUrl (searchUrl : string) (nextPage : nat) : string :=
  let withoutPage := Str.remove_first_digits_lit "_p/" searchUrl in
  Str.replace_final_slash ("/" +:+ Str.of_nat nextPage +:+ "_p/") withoutPage.

(** What the browser does during one call of [goToNextPage]: whether
    [page.goto] resolves, the document that the first discovery sees
    ([None]: an evaluation throws), whether [page.title] and
    [page.reload] resolve, and the document after the reload. *)
Record NavScript := {
  nav_goto : bool;
  nav_first : option Document;
  nav_title : bool;
  nav_reload : bool;
  nav_retry : option Document;
}.

Section WithRuntime.
Context `{JsRuntime}.

(** [goToNextPage(page, targetUrl, logger)] on the page of session
    [sid]: the boolean it resolves to and the calls it made.  Any
    exception inside lands in the [catch], which returns [false]. *)
Definition goToNextPage (sid : nat) (targetUrl : string) (nav : NavScript)
  : bool * list event :=
  let t0 := [EvGoto sid targetUrl] in
  if negb (nav_goto nav) then (false, t0)
  else
    let t1 := t0 ++ [EvExtract sid] in
    match nav_first nav with
    | None => (false, t1)
    | Some doc =>
        let urls := extractListingUrls doc in
        if (0 <? length urls)%nat then (true, t1)
        else if negb (nav_title nav) then (false, t1)
        else
          let t2 := t1 ++ [EvReload sid] in
          if negb (nav_reload nav) then (false, t2)
          else
            let t3 := t2 ++ [EvExtract sid] in
            match nav_retry nav with
            | None => (false, t3)
            | Some doc' =>
                let retryUrls := extractListingUrls doc' in
                if (0 <? length retryUrls)%nat then (true, t3) else (false, t3)
            end
    end.

End WithRuntime.

End PageController.

(** ** listingWorker.ts *)

Module ListingWorker.

Section WithRuntime.
Context `{JsRuntime}.

(** The helper [findPropertyInCache]: the first value of the cache
    that, once parsed when it is a string, has a truthy [property] of
    type object.  A [JSON.parse] that throws skips the value. *)
Definition cache_entry_property (value : json) : option json :=
  let entry := match value with
               | JStr text => JSON_parse text
               | _ => Some value
               end in
  match Js.oget entry "property" with
  | Some prop => if Js.truthy prop && Js.is_object prop then Some prop else None
  | None => None
  end.

Fixpoint first_property (values : list json) : option json :=
  match values with
  | [] => None
  | value :: rest =>
      match cache_entry_property value with
      | Some prop => Some prop
      | None => first_property rest
      end
  end.

Definition findPropertyInCache (cache : json) : option json :=
  first_property (Js.values cache).

(** The helper [resolveCache]. *)
Definition resolveCache (raw : option json) : option json :=
  match raw with
  | Some (JStr text) => if String.eqb text "" then None else JSON_parse text
  | Some (JArr items) => Some (JArr items)
  | Some (JObj fields) => Some (JObj fields)
  | _ => None
  end.

(** One of the first two strategies: the cache is looked into when it
    is truthy both before and after [resolveCache]. *)
Definition property_in (gdpClientCache : option json) : option json :=
  if Js.otruthy gdpClientCache then
    match resolveCache gdpClientCache with
    | Some cache => if Js.truthy cache then findPropertyInCache cache else None
    | None => None
    end
  else None.

(** The three strategies, in order, each tried while [property] is
    still [null]. *)
Definition locate_property (nextData : json) : option json :=
  let props := Js.get nextData "props" in
  let pageProps := Js.oget props "pageProps" in
  let componentProps := Js.oget pageProps "componentProps" in
  match property_in (Js.oget componentProps "gdpClientCache") with
  | Some property => Some property
  | None =>
      match property_in (Js.oget pageProps "gdpClientCache") with
      | Some property => Some property
      | None =>
          let initialData := Js.oget pageProps "initialData" in
          let property := Js.oget initialData "property" in
          if Js.otruthy property then property else None
      end
  end.

(** [result.address]. *)
Definition address_of (property : json) : json :=
  match Js.get property "address" with
  | Some addr =>
      if Js.truthy addr then
        let parts :=
          omap (fun k => match Js.get addr k with
                         | Some v => if Js.truthy v then Some v else None
                         | None => None
                         end)
               ["streetAddress"; "city"; "state"; "zipcode"] in
        let joined := Js.join ", " parts in
        if String.eqb joined "" then JNull else JStr joined
      else JNull
  | None => JNull
  end.

(** A monetary field: dollars when the source value is present. *)
Definition money_of (o : option json) : json :=
  match o with
  | Some v => if Js.present o then Js.money v else JNull
  | None => JNull
  end.

(** [result.estimated_sales_range]. *)
Definition estimated_sales_range (property : json) : json :=
  let zestimateLow := Js.get property "zestimateLowPercent" in
  let zestimateHigh := Js.get property "zestimateHighPercent" in
  let zestimateVal := Js.get property "zestimate" in
  if Js.otruthy zestimateVal && Js.present zestimateLow && Js.present zestimateHigh
  then
    let low := Js.Math_round
      (Js.otoNumber zestimateVal * (1 - Js.otoNumber zestimateLow / 100))%float in
    let high := Js.Math_round
      (Js.otoNumber zestimateVal * (1 + Js.otoNumber zestimateHigh / 100))%float in
    JStr ("$" +:+ toLocaleString low +:+ " - $" +:+ toLocaleString high)
  else JNull.

(** [if (property.k != null) result[field] = String(property.k) + suffix]. *)
Definition set_if_present (property : json) (k field suffix : string)
    (result : ListingData) : ListingData :=
  let o := Js.get property k in
  if Js.present o then <[ field := JStr (Js.otoString o +:+ suffix) ]> result
  else result.

(** [if (property.k) result[field] = String(property.k)]. *)
Definition set_if_truthy (property : json) (k field : string)
    (result : ListingData) : ListingData :=
  let o := Js.get property k in
  if Js.otruthy o then <[ field := JStr (Js.otoString o) ]> result
  else result.

(** The sections "Basic facts" and "Heating / Cooling". *)
Definition basic_facts (property : json) (result : ListingData) : ListingData :=
  let r := set_if_present property "bedrooms" "fact_bedrooms" "" result in
  let r := set_if_present property "bathrooms" "fact_bathrooms" "" r in
  let r := set_if_present property "livingArea" "fact_living_area" " sqft" r in
  let r := set_if_present property "lotSize" "fact_lot_size" " sqft" r in
  let r :=
    let value := Js.get property "lotAreaValue" in
    let units := Js.get property "lotAreaUnits" in
    if Js.present value && Js.present units
    then <[ "fact_lot_size" := JStr (Js.otoString value +:+ " " +:+ Js.otoString units) ]> r
    else r in
  let r := set_if_present property "yearBuilt" "fact_year_built" "" r in
  let r := set_if_truthy property "homeType" "fact_type" r in
  let r := set_if_truthy property "homeStatus" "fact_status" r in
  let r := set_if_present property "parkingCapacity" "fact_parking" "" r in
  let r := set_if_truthy property "heatingSystem" "fact_heating" r in
  set_if_truthy property "coolingSystem" "fact_cooling" r.

(** The dictionary [factMappings], in the order of its entries. *)
Definition factMappings : list (string * string) :=
  [ ("atAGlanceFacts", "");
    ("bedrooms", "bedrooms");
    ("bathrooms", "bathrooms");
    ("bathroomsFull", "bathrooms_full");
    ("bathroomsHalf", "bathrooms_half");
    ("livingArea", "living_area");
    ("stories", "stories");
    ("homeType", "type");
    ("yearBuilt", "year_built");
    ("heating", "heating");
    ("cooling", "cooling");
    ("parking", "parking");
    ("parkingCapacity", "parking_capacity");
    ("garageSpaces", "garage_spaces");
    ("hasGarage", "has_garage");
    ("laundryFeatures", "laundry");
    ("appliances", "appliances");
    ("flooring", "flooring");
    ("basement", "basement");
    ("roofType", "roof");
    ("exteriorFeatures", "exterior_features");
    ("constructionMaterials", "construction");
    ("foundationDetails", "foundation");
    ("sewer", "sewer");
    ("waterSource", "water_source");
    ("architecturalStyle", "architectural_style");
    ("communityFeatures", "community_features");
    ("associationFee", "hoa_fee");
    ("associationFeeFrequency", "hoa_frequency") ].

(** [!result[field]]: the field is absent or holds a falsy value. *)
Definition vacant (result : ListingData) (field : string) : bool :=
  negb (Js.otruthy (result !! field)).

(** [if (!result[field]) result[field] = v]. *)
Definition set_if_vacant (field : string) (v : json) (result : ListingData)
  : ListingData :=
  if vacant result field then <[ field := v ]> result else result.

(** The body of the loop over [Object.entries(factMappings)]. *)
Definition reso_entry (resoFacts : json) (result : ListingData)
    (entry : string * string) : ListingData :=
  let '(jsonKey, factKey) := entry in
  if String.eqb jsonKey "atAGlanceFacts" then result
  else
    match Js.get resoFacts jsonKey with
    | Some val =>
        if Js.present (Some val) && negb (Js.is_str "" val) && negb (Js.is_str "None" val)
        then
          let strVal := match val with
                        | JArr items => Js.join ", " items
                        | _ => Js.toString val
                        end in
          set_if_vacant ("fact_" +:+ factKey) (JStr strVal) result
        else result
    | None => result
    end.

Definition reso_pass (resoFacts : json) (result : ListingData) : ListingData :=
  foldl (reso_entry resoFacts) result factMappings.

(** The key that a free-form label becomes. *)
Definition slug (label : string) : string :=
  Str.keep_slug_chars (Str.collapse_runs false 0 (toLowerCase label)).

(** The body of the loop over [atAGlanceFacts]; [None] when it throws:
    reading a property of [null], or calling [toLowerCase] on a label
    that is not a string. *)
Definition glance_entry (result : ListingData) (fact : json) : option ListingData :=
  match fact with
  | JNull => None
  | _ =>
      let factLabel := Js.get fact "factLabel" in
      let factValue := Js.get fact "factValue" in
      match factLabel, factValue with
      | Some label, Some value =>
          if Js.truthy label && Js.truthy value && negb (Js.is_str "No Data" value)
          then
            match label with
            | JStr text => Some (set_if_vacant ("fact_" +:+ slug text) value result)
            | _ => None
            end
          else Some result
      | _, _ => Some result
      end
  end.

Fixpoint glance_pass (facts : list json) (result : ListingData) : option ListingData :=
  match facts with
  | [] => Some result
  | fact :: rest =>
      match glance_entry result fact with
      | Some result' => glance_pass rest result'
      | None => None
      end
  end.

(** The section "Facts & Features from resoFacts". *)
Definition reso_facts (property : json) (result : ListingData) : option ListingData :=
  match Js.get property "resoFacts" with
  | Some resoFacts =>
      if Js.truthy resoFacts then
        let r := reso_pass resoFacts result in
        match Js.get resoFacts "atAGlanceFacts" with
        | Some (JArr facts) => glance_pass facts r
        | _ => Some r
        end
      else Some result
  | None => Some result
  end.

(** One row of a history table; [None] when the entry is [null], whose
    properties cannot be read. *)
Definition price_row (entry : json) : option json :=
  match entry with
  | JNull => None
  | _ => Some (JArr [ Js.or_null (Js.get entry "date");
                      Js.or_null (Js.get entry "event");
                      money_of (Js.get entry "price");
                      Js.or_null (Js.get entry "source") ])
  end.

Definition tax_row (entry : json) : option json :=
  match entry with
  | JNull => None
  | _ => Some (JArr [ Js.or_null (Js.get entry "time");
                      money_of (Js.get entry "taxPaid");
                      money_of (Js.get entry "value") ])
  end.

(** [Array.isArray(h) && h.length > 0 ? h.map(row) : null]; [None]
    when a row throws. *)
Definition history (row : json -> option json) (h : option json) : option json :=
  match h with
  | Some (JArr (e :: es)) => JArr <$> mapM row (e :: es)
  | _ => Some JNull
  end.

(** [extractFromNextData(nextData)] for a truthy [nextData]; [None]
    is the [null] it returns, when no property is found or when the
    body throws. *)
Definition extractFromNextData (nextData : json) : option ListingData :=
  property ← locate_property nextData;
  let result : ListingData := ∅ in
  let result := <[ "address" := address_of property ]> result in
  let result := <[ "price" := money_of (Js.get property "price") ]> result in
  let result := <[ "zestimate" := money_of (Js.get property "zestimate") ]> result in
  let result := <[ "rent_zestimate" := money_of (Js.get property "rentZestimate") ]> result in
  let result := <[ "estimated_sales_range" := estimated_sales_range property ]> result in
  let result := basic_facts property result in
  result ← reso_facts property result;
  price_history ← history price_row (Js.get property "priceHistory");
  let result := <[ "price_history" := price_history ]> result in
  tax_history ← history tax_row (Js.get property "taxHistory");
  let result := <[ "public_tax_history" := tax_history ]> result in
  Some result.

(** What the browser shows to the second tier: the text of the first
    [h1] element, the text of the element marked as the property
    address, and the fields that the selector and pattern heuristics
    derive from the rendered page (price, estimates, facts, history
    tables), none of which is named [address] or [link]. *)
Record DomSnapshot := {
  dom_h1 : option string;
  dom_bdp_address : option string;
  dom_fields : ListingData;
}.

(** The record that the extracting evaluation returns. *)
Definition dom_record (dom : DomSnapshot) : ListingData :=
  let addressEl := match dom_h1 dom with
                   | Some text => Some text
                   | None => dom_bdp_address dom
                   end in
  let address := match addressEl with
                 | Some textContent => JStr (Str.trim textContent)
                 | None => JNull
                 end in
  <[ "address" := address ]> (dom_fields dom).

(** What happens around one worker: whether [createSteelSession] and
    [page.goto] resolve, what the evaluation that reads
    [script#__NEXT_DATA__] returns ([None]: it throws), whether the
    scrolling evaluation resolves, what the extracting evaluation sees
    ([None]: it throws), and the message of the error when something
    throws. *)
Record WorkerScript := {
  ws_acquire : bool;
  ws_goto : bool;
  ws_nextData : option json;
  ws_scroll : bool;
  ws_dom : option DomSnapshot;
  ws_message : string;
}.

Inductive outcome : Type :=
| Returned (data : ListingData)
| Threw (message : string).

(** The primary strategy: the record it returns, if it returns. *)
Definition tier1 (url : string) (nextDataResult : json) : option ListingData :=
  if Js.truthy nextDataResult then
    match extractFromNextData nextDataResult with
    | Some extracted =>
        if Js.otruthy (extracted !! "address")
        then Some (<[ "link" := JStr url ]> extracted)
        else None
    | None => None
    end
  else None.

(** The body of the [try] once the session [sid] is there. *)
Definition scrape_with (sid : nat) (url : string) (ws : WorkerScript)
  : outcome * list event :=
  let t := [EvGoto sid url] in
  if negb (ws_goto ws) then (Threw (ws_message ws), t)
  else
    match ws_nextData ws with
    | None => (Threw (ws_message ws), t)
    | Some nextDataResult =>
        match tier1 url nextDataResult with
        | Some extracted => (Returned extracted, t)
        | None =>
            if negb (ws_scroll ws) then (Threw (ws_message ws), t)
            else
              match ws_dom ws with
              | None => (Threw (ws_message ws), t)
              | Some dom => (Returned (<[ "link" := JStr url ]> (dom_record dom)), t)
              end
        end
    end.

(** [scrapeListingPage(url, logger)], the provider naming the session
    [sid] if it grants one: how the promise settles, and the calls
    made.  The [finally] releases the session when there is one. *)
Definition scrapeListingPage (sid : nat) (url : string) (ws : WorkerScript)
  : outcome * list event :=
  let session := SteelClient.createSteelSession (ws_acquire ws) sid in
  let run := match session with
             | Some s => let '(out, t) := scrape_with s url ws in (out, EvAcquire s :: t)
             | None => (Threw (ws_message ws), [])
             end in
  (run.1, run.2 ++ match session with
                   | Some s => SteelClient.releaseSteelSession s
                   | None => []
                   end).

End WithRuntime.

End ListingWorker.

(** ** orchestrator.ts *)

Module Orchestrator.

Import PageController ListingWorker.

Definition MAX_LISTINGS : nat := 100.
Definition BATCH_CONCURRENCY : nat := 5.

Record ScrapeResult := {
  url : string;
  success : bool;
  data : option ListingData;
  error : option string;
}.

Definition skipped (u : string) : ScrapeResult :=
  {| url := u; success := false; data := None;
     error := Some "Skipped — limit reached" |}.

Definition skipped_mid_scrape (u : string) : ScrapeResult :=
  {| url := u; success := false; data := None;
     error := Some "Skipped — limit reached mid-scrape" |}.

Definition succeeded (u : string) (d : ListingData) : ScrapeResult :=
  {| url := u; success := true; data := Some d; error := None |}.

Definition failed (u : string) (msg : string) : ScrapeResult :=
  {| url := u; success := false; data := None; error := Some msg |}.

(** What the workers of a batch share: the counter [completed] of
    [scrapeListingsBatch], the abort signal of the job, the number the
    provider gives to the next session, and the calls made so far. *)
Record Shared := {
  completed : nat;
  aborted : bool;
  next_sid : nat;
  trace : list event;
}.

Definition emit (evs : list event) (st : Shared) : Shared :=
  {| completed := completed st; aborted := aborted st;
     next_sid := next_sid st; trace := trace st ++ evs |}.

Definition count_one (st : Shared) : Shared :=
  {| completed := S (completed st); aborted := aborted st;
     next_sid := next_sid st; trace := trace st |}.

Definition signal_abort (st : Shared) : Shared :=
  {| completed := completed st; aborted := true;
     next_sid := next_sid st; trace := trace st |}.

Definition take_sid (st : Shared) : Shared :=
  {| completed := completed st; aborted := aborted st;
     next_sid := S (next_sid st); trace := trace st |}.

(** [completed >= maxCount || abortController.signal.aborted]. *)
Definition limit_reached (maxCount : nat) (st : Shared) : bool :=
  (maxCount <=? completed st)%nat || aborted st.

(** A worker of the chunk in flight: either its promise has a value,
    or [scrapeListingPage] is suspended with the calls it has still to
    make and the way it will settle. *)
Inductive slot : Type :=
| Settled (r : ScrapeResult)
| Running (u : string) (pending : list event) (out : outcome).

(** A turn of the event loop while a chunk is awaited: worker [k]
    resumes and runs to its next suspension, or the job is cancelled
    from outside. *)
Inductive tick : Type :=
| Resume (k : nat)
| Cancel.

Section WithRuntime.
Context `{JsRuntime}.

(** The callback of [chunk.map] up to its first suspension, for the
    worker number [n] (counted from 0 over the whole batch): the check
    before dispatch, then the call of [scrapeListingPage], which asks
    the provider for a session before it suspends. *)
Definition dispatch (maxCount : nat) (scripts : nat -> WorkerScript)
    (acc : Shared * list slot) (n : nat) (u : string) : Shared * list slot :=
  let '(st, slots) := acc in
  if limit_reached maxCount st then (st, slots ++ [Settled (skipped u)])
  else
    let ws := scripts n in
    let '(out, evs) := scrapeListingPage (next_sid st) u ws in
    let st := emit [EvInvoke u] st in
    let st := if ws_acquire ws then take_sid st else st in
    (st, slots ++ [Running u evs out]).

Fixpoint dispatch_all (maxCount : nat) (scripts : nat -> WorkerScript)
    (acc : Shared * list slot) (n : nat) (chunk : list string) : Shared * list slot :=
  match chunk with
  | [] => acc
  | u :: rest =>
      dispatch_all maxCount scripts (dispatch maxCount scripts acc n u) (S n) rest
  end.

(** The callback after [await scrapeListingPage(url, logger)].  What
    [scrapeListingPage] throws is caught here, so the promise of the
    callback is always fulfilled and [Promise.allSettled] never reports
    a rejection. *)
Definition settle (maxCount : nat) (st : Shared) (u : string) (out : outcome)
  : Shared * ScrapeResult :=
  match out with
  | Returned d =>
      if limit_reached maxCount st then (st, skipped_mid_scrape u)
      else (count_one st, succeeded u d)
  | Threw msg => (st, failed u msg)
  end.

Definition turn (maxCount : nat) (acc : Shared * list slot) (t : tick)
  : Shared * list slot :=
  let '(st, slots) := acc in
  match t with
  | Cancel => (signal_abort st, slots)
  | Resume k =>
      match slots !! k with
      | Some (Running u (e :: pending) out) =>
          (emit [e] st, <[ k := Running u pending out ]> slots)
      | Some (Running u [] out) =>
          let '(st', r) := settle maxCount st u out in
          (st', <[ k := Settled r ]> slots)
      | _ => (st, slots)
      end
  end.

(** [Promise.allSettled] resolves once every worker has settled:
    whatever the schedule left running runs to its end, and the values
    come in the order of the chunk. *)
Fixpoint drain (maxCount : nat) (st : Shared) (slots : list slot)
  : Shared * list ScrapeResult :=
  match slots with
  | [] => (st, [])
  | Settled r :: rest =>
      let '(st', rs) := drain maxCount st rest in (st', r :: rs)
  | Running u pending out :: rest =>
      let '(st1, r) := settle maxCount (emit pending st) u out in
      let '(st2, rs) := drain maxCount st1 rest in (st2, r :: rs)
  end.

(** One chunk: every worker is dispatched, then the event loop turns. *)
Definition run_chunk (maxCount : nat) (scripts : nat -> WorkerScript)
    (schedule : list tick) (st : Shared) (i : nat) (chunk : list string)
  : Shared * list ScrapeResult :=
  let dispatched := dispatch_all maxCount scripts (st, []) i chunk in
  let '(st', slots) := foldl (turn maxCount) dispatched schedule in
  drain maxCount st' slots.

(** The loop [for (let i = 0; i < urls.length; i += BATCH_CONCURRENCY)];
    [rest] is [urls.slice(i)], and [fuel] bounds the iterations. *)
Fixpoint batch_loop (fuel : nat) (maxCount : nat) (scripts : nat -> WorkerScript)
    (schedules : nat -> list tick) (i : nat) (rest : list string)
    (st : Shared) (allResults : list ScrapeResult) : Shared * list ScrapeResult :=
  match fuel, rest with
  | S fuel', _ :: _ =>
      if limit_reached maxCount st then (st, allResults)
      else
        let chunk := take BATCH_CONCURRENCY rest in
        let '(st', settled) :=
          run_chunk maxCount scripts (schedules (i / BATCH_CONCURRENCY)%nat) st i chunk in
        batch_loop fuel' maxCount scripts schedules (i + BATCH_CONCURRENCY)
                   (drop BATCH_CONCURRENCY rest) st' (allResults ++ settled)
  | _, _ => (st, allResults)
  end.

(** [scrapeListingsBatch(urls, logger, abortController, currentCount,
    maxCount)], in a world [w] of which only the abort signal, the
    session numbering and the trace matter: the world afterwards and
    the results. *)
Definition scrapeListingsBatch (urls : list string) (scripts : nat -> WorkerScript)
    (schedules : nat -> list tick) (w : Shared) (currentCount maxCount : nat)
  : Shared * list ScrapeResult :=
  let st := {| completed := currentCount; aborted := aborted w;
               next_sid := next_sid w; trace := trace w |} in
  batch_loop (length urls) maxCount scripts schedules 0 urls st [].

End WithRuntime.

(** What the world does during one turn of the pagination loop:
    whether the job has been cancelled when the turn starts, the
    document that discovery sees ([None]: it throws), whether the job
    is cancelled while discovery is awaited, the workers and the event
    loop of the batch, whether the provider grants the session of the
    next page, and the navigation to it.  A cancellation that arrives
    while the sessions are exchanged or the next page is loaded is
    first read at the start of the next turn, and is told by the
    [ps_abort] of that turn. *)
Record PageScript := {
  ps_abort : bool;
  ps_listing : option Document;
  ps_abort_discovery : bool;
  ps_workers : nat -> WorkerScript;
  ps_schedules : nat -> list tick;
  ps_acquire : bool;
  ps_nav : NavScript;
}.

Record JobScript := {
  js_acquire : bool;
  js_goto : bool;
  js_pages : list PageScript;
}.

Inductive JobStatus : Type := running | completed_ | error_.

(** The variables of [orchestrate]: [globalCount], the rows given to
    [schema.addRow], and the world ([completed] is not used here). *)
Record Job := {
  globalCount : nat;
  schema : list ListingData;
  world : Shared;
}.

Definition with_world (f : Shared -> Shared) (j : Job) : Job :=
  {| globalCount := globalCount j; schema := schema j; world := f (world j) |}.

(** Modelled from the spec: [dynamicSchema.ts] is not among the
    sources.  The accumulator receives one record per call of
    [addRow]; the two statements after the call count it. *)
Definition addRow (d : ListingData) (j : Job) : Job :=
  {| globalCount := S (globalCount j); schema := schema j ++ [d]; world := world j |}.

(** The loop [for (const result of results)]. *)
Fixpoint consume (results : list ScrapeResult) (j : Job) : Job :=
  match results with
  | [] => j
  | result :: rest =>
      let j' := match success result, data result with
                | true, Some d => addRow d j
                | _, _ => j
                end in
      if (MAX_LISTINGS <=? globalCount j')%nat then j' else consume rest j'
  end.

(** The end of [orchestrate]: the status set by the [try] or by the
    [catch], then the [finally]. *)
Definition finish (st : JobStatus) (mainSession : option nat) (j : Job)
  : JobStatus * Job :=
  match mainSession with
  | Some s => (st, with_world (emit (SteelClient.releaseSteelSession s)) j)
  | None => (st, j)
  end.

Section WithRuntime.
Context `{JsRuntime}.

(** The [while] loop, [main] being the session in [mainSession].  When
    the script has no more turns the job is still [running]. *)
Fixpoint paginate (searchUrl : string) (pages : list PageScript) (pageNum : nat)
    (main : nat) (j : Job) : JobStatus * Job :=
  if (MAX_LISTINGS <=? globalCount j)%nat then finish completed_ (Some main) j
  else
    match pages with
    | [] => (running, j)
    | p :: later =>
        let j := if ps_abort p then with_world signal_abort j else j in
        if aborted (world j) then finish completed_ (Some main) j
        else
          let j := with_world (emit [EvExtract main]) j in
          let j := if ps_abort_discovery p then with_world signal_abort j else j in
          match ps_listing p with
          | None => finish error_ (Some main) j
          | Some doc =>
              let listingUrls := extractListingUrls doc in
              if (length listingUrls =? 0)%nat then finish completed_ (Some main) j
              else
                let remaining := (MAX_LISTINGS - globalCount j)%nat in
                let toScrape := take remaining listingUrls in
                let '(w, results) :=
                  scrapeListingsBatch toScrape (ps_workers p) (ps_schedules p)
                                      (world j) (globalCount j) MAX_LISTINGS in
                let j := with_world (fun _ => w) j in
                let j := consume results j in
                if (MAX_LISTINGS <=? globalCount j)%nat
                then finish completed_ (Some main) j
                else
                  let j := with_world (emit (SteelClient.releaseSteelSession main)) j in
                  let nextPageUrl := buildNextPageUrl searchUrl (pageNum + 1) in
                  match SteelClient.createSteelSession (ps_acquire p) (next_sid (world j)) with
                  | None => finish error_ None j
                  | Some main' =>
                      let j := with_world (fun w => emit [EvAcquire main'] (take_sid w)) j in
                      let '(hasNext, evs) := goToNextPage main' nextPageUrl (ps_nav p) in
                      let j := with_world (emit evs) j in
                      if negb hasNext then finish completed_ (Some main') j
                      else paginate searchUrl later (pageNum + 1) main' j
                  end
          end
    end.

(** [orchestrate(job, searchUrl)]: the status of the job and its
    variables when the promise settles, or when the script ends. *)
Definition orchestrate (searchUrl : string) (js : JobScript) : JobStatus * Job :=
  let j := {| globalCount := 0; schema := [];
              world := {| completed := 0; aborted := false;
                          next_sid := 0; trace := [] |} |} in
  match SteelClient.createSteelSession (js_acquire js) (next_sid (world j)) with
  | None => finish error_ None j
  | Some main =>
      let j := with_world (fun w => emit [EvAcquire main; EvGoto main searchUrl] (take_sid w)) j in
      if negb (js_goto js) then finish error_ (Some main) j
      else paginate searchUrl (js_pages js) 1 main j
  end.

End WithRuntime.

End Orchestrator.

(** ** listingWorker.ts: the fact lines of the second tier

    The part of the extracting evaluation of the second tier that
    reads the facts: the lines of the lists that three selectors
    match, then the lines of the list that follows a heading whose
    title names a section of facts. *)

Module DomFactLines.

Import Str.

(** [text.indexOf(":")], [None] standing for -1.  The position is
    counted in bytes; it serves to cut the text at the colon, and the
    two parts are the same texts however the position is counted. *)
Fixpoint indexOf_colon (text : string) : option nat :=
  match text with
  | EmptyString => None
  | String c s =>
      if Ascii.eqb c ":" then Some 0
      else match indexOf_colon s with
           | Some i => Some (S i)
           | None => None
           end
  end.

(** [text.slice(0, n)] and [text.slice(n)] for [n] within the text. *)
Fixpoint slice_to (n : nat) (text : string) : string :=
  match n, text with
  | S k, String c s => String c (slice_to k s)
  | _, _ => EmptyString
  end.

Fixpoint slice_from (n : nat) (text : string) : string :=
  match n, text with
  | S k, String _ s => slice_from k s
  | _, _ => text
  end.

Definition factSections : list string :=
  [ "bedrooms"; "bathrooms"; "parking"; "type"; "style"; "condition";
    "interior"; "exterior"; "heating"; "cooling"; "appliances";
    "flooring"; "property"; "lot"; "construction"; "utilities";
    "community"; "hoa"; "financial"; "other" ].

(** What the browser shows of the facts: for each of the three
    selectors the [textContent] of the [li] elements it matches, and
    for each [h4], [h5] or [h6] element its [textContent] and the
    [textContent] of the [li] elements inside its next sibling
    ([None]: it has no next sibling), all in document order. *)
Record FactLists := {
  by_selector : list (list string);
  by_heading : list (string * option (list string));
}.

Section WithRuntime.
Context `{JsRuntime}.

(** The body of the two [forEach((li) => ...)] callbacks, on the pair
    of [seenFacts] and [result]. *)
Definition fact_line (acc : gset string * ListingData) (textContent : string)
  : gset string * ListingData :=
  let '(seenFacts, result) := acc in
  let text := trim textContent in
  if includes ":" text && negb (bool_decide (text ∈ seenFacts)) then
    let seenFacts := {[ text ]} ∪ seenFacts in
    match indexOf_colon text with
    | Some colonIdx =>
        let rawKey := trim (slice_to colonIdx text) in
        let val := trim (slice_from (colonIdx + 1) text) in
        if negb (String.eqb rawKey "") && negb (String.eqb val "")
           && (utf16_length rawKey <? 60)%nat
        then (seenFacts, <[ "fact_" +:+ ListingWorker.slug rawKey := JStr val ]> result)
        else (seenFacts, result)
    | None => (seenFacts, result)
    end
  else acc.


(** The lines that the callback of the headings reads under one
    heading. *)
Definition section_lines (h : string * option (list string)) : list string :=
  let sectionTitle := trim h.1 in
  let isFactSection :=
    existsb (fun s => includes s (toLowerCase sectionTitle)) factSections in
  if isFactSection then
    match h.2 with
    | Some lines => lines
    | None => []
    end
  else [].

(** The section "Facts & Features" of the evaluation. *)
Definition dom_facts (page : FactLists) (result : ListingData)
  : gset string * ListingData :=
  let acc := foldl (fun acc lines => foldl fact_line acc lines) (∅, result)
                   (by_selector page) in
  foldl (fun acc h => foldl fact_line acc (section_lines h)) acc (by_heading page).

(** All the lines read, in the order they are read. *)
Definition lines_read (page : FactLists) : list string :=
  concat (by_selector page) ++ concat (section_lines <$> by_heading page).

End WithRuntime.

End DomFactLines.

(** ** listingWorker.ts: the price of the second tier *)

Module DomPrice.

Import Str.

(** The class of a digit or a comma. *)
Definition cls_amount (c : ascii) : bool := is_digit c || Ascii.eqb c ",".

(** Anchored match of one or more groups of a comma and three digits,
    as many as there are: the text matched and what remains. *)
Fixpoint match_groups (s : string) : option (string * string) :=
  match s with
  | String c0 (String d1 (String d2 (String d3 rest))) =>
      if Ascii.eqb c0 "," && is_digit d1 && is_digit d2 && is_digit d3 then
        match match_groups rest with
        | Some (m, r) => Some (String c0 (String d1 (String d2 (String d3 m))), r)
        | None => Some (String c0 (String d1 (String d2 (String d3 EmptyString))), rest)
        end
      else None
  | _ => None
  end.

(** Anchored match of a run of digits and commas followed by such
    groups: the greedy run first tries to extend, and gives back
    characters until the groups follow. *)
Fixpoint match_amount (s : string) : option (string * string) :=
  match s with
  | EmptyString => None
  | String c s' =>
      if cls_amount c then
        match match_amount s' with
        | Some (m, rest) => Some (String c m, rest)
        | None =>
            match match_groups s' with
            | Some (g, rest) => Some (String c g, rest)
            | None => None
            end
        end
      else None
  end.

(** [bodyText.match(/\$[\d,]+(?:,\d{3})+/)]: the text [match[0]] of the
    leftmost match. *)
Fixpoint search_price (bodyText : string) : option string :=
  match bodyText with
  | EmptyString => None
  | String c s' =>
      let here := if Ascii.eqb c "$" then match_amount s' else None in
      match here with
      | Some (m, _) => Some (String c m)
      | None => search_price s'
      end
  end.

(** [result.price], from the [textContent] of the price element when
    the page has one and from the text of the body otherwise. *)
Definition dom_price (priceEl : option string) (bodyText : string) : json :=
  match priceEl with
  | Some textContent => JStr (trim textContent)
  | None =>
      match search_price bodyText with
      | Some m => JStr m
      | None => JNull
      end
  end.

End DomPrice.

(** ** A runtime for closed examples

    A runtime in the en-US locale that covers what the examples below
    need: integers are rendered in decimal, with commas between groups
    of three digits by [toLocaleString]; [JSON.parse] knows the texts
    of a table; [JSON.stringify] writes strings without escapes;
    [toLowerCase] lowers the letters A to Z.  Other numbers and texts
    are outside its range and are given the text NaN and the number
    NaN, and other letters are left as they are. *)

Module Reference.

Definition int_of_float (x : float) : option Z :=
  match Prim2SF x with
  | S754_zero _ => Some 0%Z
  | S754_finite sign m e =>
      let v := if sign then Z.neg m else Z.pos m in
      if (0 <=? e)%Z then Some (v * 2 ^ e)%Z
      else if (Z.pos m mod 2 ^ (- e) =? 0)%Z then Some (v / 2 ^ (- e))%Z
      else None
  | _ => None
  end.

Definition is_negative_zero (x : float) : bool :=
  match Prim2SF x with
  | S754_zero true => true
  | _ => false
  end.

Definition digits (z : Z) : string := Str.of_nat (Z.to_nat (Z.abs z)).

Fixpoint group3 (ds : string) : string :=
  match ds with
  | EmptyString => EmptyString
  | String c ds' =>
      let r := String.length ds' in
      String c (if (0 <? r)%nat && (r mod 3 =? 0)%nat
                then "," +:+ group3 ds' else group3 ds')
  end.

Definition render (group : bool) (x : float) : string :=
  match int_of_float x with
  | Some z =>
      (if (z <? 0)%Z || is_negative_zero x && group then "-" else "")
      +:+ (if group then group3 (digits z) else digits z)
  | None => "NaN"
  end.

Fixpoint parse_digits (acc : Z) (s : string) : option Z :=
  match s with
  | EmptyString => Some acc
  | String c s' =>
      if Str.is_digit c
      then parse_digits (10 * acc + Z.of_nat (nat_of_ascii c - 48)) s'
      else None
  end.

Definition number_of (s : string) : float :=
  match s with
  | EmptyString => 0%float
  | _ => match parse_digits 0 s with
         | Some z => Js.float_of_Z z
         | None => PrimFloat.nan
         end
  end.

Fixpoint stringify (v : json) : string :=
  match v with
  | JNull => "null"
  | JBool true => "true"
  | JBool false => "false"
  | JNum x => render false x
  | JStr s => String Str.dquote s +:+ String Str.dquote ""
  | JArr items => "[" +:+ Str.join "," (map stringify items) +:+ "]"
  | JObj fields =>
      "{" +:+ Str.join ","
                (map (fun kv => String Str.dquote (fst kv) +:+ String Str.dquote ":"
                                +:+ stringify (snd kv)) fields)
      +:+ "}"
  end.

Definition lower_char (c : ascii) : ascii :=
  let n := nat_of_ascii c in
  if ((65 <=? n) && (n <=? 90))%nat then ascii_of_nat (n + 32) else c.

Fixpoint lower (s : string) : string :=
  match s with
  | EmptyString => EmptyString
  | String c s' => String (lower_char c) (lower s')
  end.

Definition runtime (texts : list (string * json)) : JsRuntime :=
  {| JSON_parse := fun text => Js.assoc text texts;
     JSON_stringify := stringify;
     number_to_string := render false;
     string_to_number := number_of;
     toLocaleString := render true;
     toLowerCase := lower |}.

End Reference.

(** * Vocabulary

    The predicates and measures in which the properties are stated,
    and the inputs of the closed examples. *)

Module Spec.

Import Str PageController ListingWorker Orchestrator Trace.

(** A digit followed by [_p/] somewhere in the string: a page-number
    segment. *)
Definition has_page_segment (s : string) : Prop :=
  exists pre c post, is_digit c = true /\ s = pre +:+ String c ("_p/" +:+ post).

Fixpoint all_digits (s : string) : bool :=
  match s with
  | EmptyString => true
  | String c s' => is_digit c && all_digits s'
  end.

(** The last character is a digit. *)
Fixpoint ends_with_digit (s : string) : bool :=
  match s with
  | EmptyString => false
  | String c EmptyString => is_digit c
  | String _ s' => ends_with_digit s'
  end.

Fixpoint ends_with_slash (s : string) : bool :=
  match s with
  | EmptyString => false
  | String c EmptyString => Ascii.eqb c "/"
  | String _ s' => ends_with_slash s'
  end.

(** Whether discovery finds a reference in a document. *)
Definition finds `{JsRuntime} (doc : option Document) : bool :=
  match doc with
  | Some d => (0 <? length (extractListingUrls d))%nat
  | None => false
  end.

(** The rows of the accumulator are counted by [globalCount], which
    stays within the cap. *)
Definition within_cap (j : Job) : Prop :=
  length (schema j) = globalCount j /\ globalCount j <= MAX_LISTINGS.

(** The fields that the first tier always sets. *)
Definition fixed_fields : list string :=
  [ "address"; "price"; "zestimate"; "rent_zestimate"; "estimated_sales_range";
    "price_history"; "public_tax_history" ].

(** A key outside the [fact_] name space. *)
Definition plain (key : string) : Prop := Str.strip_prefix "fact_" key = None.


(** The text of the range for a centre and two percentages. *)
Definition range_text `{JsRuntime} (centre lowPct highPct : float) : string :=
  "$" +:+ toLocaleString (Js.Math_round (centre * (1 - lowPct / 100))%float)
  +:+ " - $" +:+ toLocaleString (Js.Math_round (centre * (1 + highPct / 100))%float).

(** The source values that the dictionary pass skips. *)
Definition skipped_value (o : option json) : Prop :=
  o = None \/ o = Some JNull \/ o = Some (JStr "") \/ o = Some (JStr "None").

(** How many results are successes. *)
Definition successes (rs : list ScrapeResult) : nat :=
  length (List.filter success rs).

Definition settled_result (s : slot) : option ScrapeResult :=
  match s with
  | Settled r => Some r
  | Running _ _ _ => None
  end.

Definition slot_pending (s : slot) : list event :=
  match s with
  | Settled _ => []
  | Running _ pending _ => pending
  end.

(** The calls that the suspended workers have still to make. *)
Definition pend (slots : list slot) : list event := concat (map slot_pending slots).

(** The outcome of a worker that returned a record: accepted, or
    skipped in mid-scrape. *)
Definition result_for (u : string) (r : ScrapeResult) : Prop :=
  r = skipped_mid_scrape u \/ exists d, r = succeeded u d.

Definition slot_for (u : string) (s : slot) : Prop :=
  match s with
  | Settled r => result_for u r
  | Running u' pending (Returned _) => u' = u /\ Trace.invoked pending = []
  | Running _ _ (Threw _) => False
  end.

Definition all_success (rs : list ScrapeResult) : Prop :=
  Forall (fun r => success r = true) rs.

Definition settled (slots : list slot) : list ScrapeResult :=
  omap settled_result slots.

(** What the turns of the event loop keep true of a chunk over the
    URLs [us] that started with the counter at [c0] and the
    invocations [inv0]. *)
Record chunk_inv (maxCount : nat) (us : list string) (c0 : nat) (inv0 : list string)
    (acc : Shared * list slot) : Prop := {
  ci_slots : Forall2 slot_for us acc.2;
  ci_count : completed acc.1 = c0 + successes (settled acc.2);
  ci_cap : completed acc.1 <= maxCount;
  ci_skips : limit_reached maxCount acc.1 = false -> all_success (settled acc.2);
  ci_invoked : Trace.invoked (trace acc.1) = inv0;
}.

(** Every worker of the chunk [us], whose first worker is number [i],
    returns a record. *)
Definition all_return `{JsRuntime} (scripts : nat -> WorkerScript) (i : nat) (us : list string) : Prop :=
  forall (k : nat) (u : string) (sid : nat),
    us !! k = Some u -> exists d, (scrapeListingPage sid u (scripts (i + k))).1 = Returned d.

(** Two traces with the same acquisitions and releases. *)
Definition same_sessions (a b : list event) : Prop :=
  forall s, acquired s a = acquired s b /\ released s a = released s b.

(** A trace that neither acquires nor releases. *)
Definition quiet (evs : list event) : Prop :=
  forall s, acquired s evs = 0 /\ released s evs = 0.

(** A stretch of trace in which every session acquired is released
    once, the sessions being numbered from [n] up to [n'], [n']
    excluded. *)
Record block (n n' : nat) (evs : list event) : Prop := {
  blk_balanced : forall s, released s evs = acquired s evs;
  blk_once : forall s, acquired s evs <= 1;
  blk_fresh : forall s, 0 < acquired s evs -> n <= s < n';
}.

(** What the event loop keeps true of the sessions of a chunk that
    started with the trace [t0] and the session number [n0]. *)
Definition sess_inv (t0 : list event) (n0 : nat) (acc : Shared * list slot) : Prop :=
  exists added,
    trace acc.1 = t0 ++ added
    /\ n0 <= next_sid acc.1
    /\ block n0 (next_sid acc.1) (added ++ pend acc.2).

(** The calls of a chunk, and of a batch: a block. *)
Definition extends_by_block (st st' : Shared) : Prop :=
  exists added,
    trace st' = trace st ++ added
    /\ next_sid st <= next_sid st'
    /\ block (next_sid st) (next_sid st') added.

(** The navigation session [main] is held and every other session
    has been released. *)
Record open_at (main : nat) (w : Shared) : Prop := {
  op_once : forall s, acquired s (trace w) <= 1;
  op_fresh : forall s, 0 < acquired s (trace w) -> s < next_sid w;
  op_main : acquired main (trace w) = 1 /\ released main (trace w) = 0;
  op_rest : forall s, s <> main -> released s (trace w) = acquired s (trace w);
}.

(** No session is held. *)
Definition closed (w : Shared) : Prop := block 0 (next_sid w) (trace w).

(** How a run stands with its sessions: settled with none held, or
    still running with the navigation session held. *)
Definition sessions_ok (out : JobStatus * Job) : Prop :=
  match out.1 with
  | running => exists main, open_at main (world out.2)
  | _ => closed (world out.2)
  end.

(** The URLs of a list that are the first with their key, the keys of
    [seen] counting as met already. *)
Fixpoint first_by_key (seen : gset string) (urls : list string) : list string :=
  match urls with
  | [] => []
  | u :: rest =>
      if decide (dedup_key u ∈ seen) then first_by_key seen rest
      else u :: first_by_key ({[ dedup_key u ]} ∪ seen) rest
  end.

End Spec.

(** ** Inputs of the examples *)

Module Scenarios.

Import PageController ListingWorker Orchestrator.

(** Two anchors of one listing that differ after the question mark
    and carry no zpid. *)
Definition twin_anchors : Document :=
  {| nextDataScript := None; scripts := [];
     anchors := [ "https://www.zillow.com/homedetails/12-Oak-St/?view=map";
                  "https://www.zillow.com/homedetails/12-Oak-St/?view=list" ] |}.

(** A page without [script#__NEXT_DATA__], without [h1] and without an
    address element. *)
Definition bare_page : WorkerScript :=
  {| ws_acquire := true; ws_goto := true; ws_nextData := Some JNull;
     ws_scroll := true;
     ws_dom := Some {| dom_h1 := None; dom_bdp_address := None; dom_fields := ∅ |};
     ws_message := "" |}.


(** The payload of the scenario. *)
Definition scenario_property : json :=
  JObj [ ("zestimate", JNum 500000);
         ("zestimateLowPercent", JNum 5);
         ("zestimateHighPercent", JNum 3) ].

(** An entity whose [resoFacts] list no appliance, and whose
    at-a-glance array names one. *)
Definition no_appliances : json :=
  JObj [ ("appliances", JArr []);
         ("atAGlanceFacts",
          JArr [ JObj [ ("factLabel", JStr "Appliances");
                        ("factValue", JStr "Dishwasher") ] ]) ].

(** Seven listings, each a page that the second tier can read. *)
Definition seven_urls : list string :=
  [ "https://z/homedetails/1_zpid/"; "https://z/homedetails/2_zpid/";
    "https://z/homedetails/3_zpid/"; "https://z/homedetails/4_zpid/";
    "https://z/homedetails/5_zpid/"; "https://z/homedetails/6_zpid/";
    "https://z/homedetails/7_zpid/" ].

Definition fresh_world : Shared :=
  {| completed := 0; aborted := false; next_sid := 0; trace := [] |}.

Definition ws_acquire_fails : WorkerScript :=
  {| ws_acquire := false; ws_goto := false; ws_nextData := None;
     ws_scroll := false; ws_dom := None; ws_message := "no session available" |}.

Definition nav_unreachable : NavScript :=
  {| nav_goto := false; nav_first := None; nav_title := false;
     nav_reload := false; nav_retry := None |}.

(** A turn in which the job is found cancelled. *)
Definition cancelled_turn : PageScript :=
  {| ps_abort := true; ps_listing := None; ps_abort_discovery := false;
     ps_workers := fun _ => ws_acquire_fails;
     ps_schedules := fun _ => []; ps_acquire := false;
     ps_nav := nav_unreachable |}.

(** A job over one results page with two listings: the first worker
    returns a record, the second is refused a session, and the next
    page cannot be reached. *)
Definition two_pages : JobScript :=
  {| js_acquire := true; js_goto := true;
     js_pages :=
       [ {| ps_abort := false;
            ps_listing := Some {| nextDataScript := None; scripts := [];
                                  anchors := [ "https://z/homedetails/1_zpid/";
                                               "https://z/homedetails/2_zpid/" ] |};
            ps_abort_discovery := false;
            ps_workers := fun n => if (n =? 0)%nat then bare_page
                                   else ws_acquire_fails;
            ps_schedules := fun _ => [Resume 1; Resume 0; Resume 0];
            ps_acquire := true;
            ps_nav := nav_unreachable |} ] |}.

End Scenarios.

(** ** Further vocabulary *)

Module Terms.

Import Spec.
Import Str PageController ListingWorker Orchestrator Trace.

(** Every character of a string belongs to a class. *)
Fixpoint every (cls : ascii -> bool) (s : string) : bool :=
  match s with
  | EmptyString => true
  | String c s' => cls c && every cls s'
  end.

(** A listing URL as the embedded data give it: the site, the path
    /homedetails/, a run of characters and the ending _zpid/. *)
Definition page_data_url (u : string) : Prop :=
  exists run, run <> "" /\ u = "https://www.zillow.com/homedetails/" +:+ run +:+ "_zpid/".

(** What is true of a URL that [add_match] pushes. *)
Definition good_url (u : string) : Prop :=
  page_data_url u
  /\ (exists zpid, zpid_of u = Some zpid /\ zpid <> "" /\ all_digits zpid = true)
  /\ before_question u = u.

(** The key and the value that a line of the second tier gives: the
    trimmed texts before and after its first colon, when both are
    there and the key is shorter than 60 characters. *)
Definition fact_of_line (textContent : string) : option (string * string) :=
  let text := trim textContent in
  match DomFactLines.indexOf_colon text with
  | Some colonIdx =>
      let rawKey := trim (DomFactLines.slice_to colonIdx text) in
      let val := trim (DomFactLines.slice_from (colonIdx + 1) text) in
      if negb (String.eqb rawKey "") && negb (String.eqb val "")
         && (utf16_length rawKey <? 60)%nat
      then Some (rawKey, val) else None
  | None => None
  end.

(** A worker that returns hands over a record tagged with its URL. *)
Definition carries_link (u : string) (out : outcome) : Prop :=
  match out with
  | Returned d => d !! "link" = Some (JStr u)
  | Threw _ => True
  end.

(** The two shapes of an outcome: a success with a record tagged with
    the URL of the outcome and no message, or a failure with a message
    and no record. *)
Definition shaped (r : ScrapeResult) : Prop :=
  (success r = true /\ error r = None
   /\ exists d, data r = Some d /\ d !! "link" = Some (JStr (url r)))
  \/ (success r = false /\ data r = None /\ is_Some (error r)).

Definition reported (u : string) (r : ScrapeResult) : Prop := url r = u /\ shaped r.

Definition in_flight (u : string) (s : slot) : Prop :=
  match s with
  | Settled r => reported u r
  | Running u' pending out =>
      u' = u /\ Trace.invoked pending = [] /\ carries_link u out
  end.

(** What the turns of the event loop keep true of any chunk over the
    URLs [us] that started with the counter at [c0]. *)
Record batch_inv (maxCount : nat) (us : list string) (c0 : nat) (inv0 : list string)
    (acc : Shared * list slot) : Prop := {
  bi_slots : Forall2 in_flight us acc.2;
  bi_count : completed acc.1 = c0 + successes (settled acc.2);
  bi_cap : completed acc.1 <= maxCount;
  bi_invoked : Trace.invoked (trace acc.1) = inv0;
}.

(** The loop of [scrapeListingsBatch] after [c] of its turns: the
    shared state and the outcomes of the chunks run so far. *)
Definition after_chunks `{JsRuntime} (c : nat) (urls : list string)
    (scripts : nat -> WorkerScript) (schedules : nat -> list tick) (w : Shared)
    (currentCount maxCount : nat) : Shared * list ScrapeResult :=
  batch_loop c maxCount scripts schedules 0 urls
             {| completed := currentCount; aborted := aborted w;
                next_sid := next_sid w; trace := trace w |} [].

(** The chunk number [c] of a batch in flight: its workers have been
    dispatched and the event loop has made the turns [turns]. *)
Definition chunk_in_flight `{JsRuntime} (c : nat) (turns : list tick) (urls : list string)
    (scripts : nat -> WorkerScript) (schedules : nat -> list tick) (w : Shared)
    (currentCount maxCount : nat) : Shared * list slot :=
  let st := (after_chunks c urls scripts schedules w currentCount maxCount).1 in
  let chunk := take BATCH_CONCURRENCY (drop (c * BATCH_CONCURRENCY) urls) in
  foldl (turn maxCount)
        (dispatch_all maxCount scripts (st, []) (c * BATCH_CONCURRENCY) chunk) turns.

(** A worker for [u] that is on its way to a record, or whose record
    has been dropped. *)
Definition doomed (u : string) (s : slot) : Prop :=
  (exists pending d, s = Running u pending (Returned d))
  \/ s = Settled (skipped_mid_scrape u).

(** The records that the loop over the results would append, were
    there no cap. *)
Definition accepted (results : list ScrapeResult) : list ListingData :=
  omap (fun r => if success r then data r else None) results.

(** A row whose [link] is a URL that discovery returned on one of
    the pages. *)
Definition from_discovery `{JsRuntime} (pages : list PageScript) (row : ListingData) : Prop :=
  exists u p doc,
    p ∈ pages /\ ps_listing p = Some doc /\ u ∈ extractListingUrls doc
    /\ row !! "link" = Some (JStr u).

(** The number of sessions held after the calls of a trace, [h] being
    held before it; [None] when at some moment more than [limit]
    sessions are held, or a session is released while none is held. *)
Fixpoint held (limit h : nat) (tr : list event) : option nat :=
  match tr with
  | [] => Some h
  | EvAcquire _ :: tr' => if (S h <=? limit)%nat then held limit (S h) tr' else None
  | EvRelease _ :: tr' =>
      match h with
      | S h' => held limit h' tr'
      | O => None
      end
  | _ :: tr' => held limit h tr'
  end.

(** Calls that neither acquire nor release leave the count of
    sessions held alone. *)
Definition session_free (e : event) : bool :=
  match e with
  | EvAcquire _ | EvRelease _ => false
  | _ => true
  end.

(** The calls that a worker has still to make are the end of the
    three calls acquire, goto, release. *)
Definition worker_tail (pending : list event) : bool :=
  match pending with
  | [] | [EvRelease _] | [EvGoto _ _; EvRelease _]
  | [EvAcquire _; EvGoto _ _; EvRelease _] => true
  | _ => false
  end.

(** Whether a worker holds a session: it has a release still to make
    and its acquire behind it. *)
Definition holding (s : slot) : nat :=
  match slot_pending s with
  | [EvRelease _] | [EvGoto _ _; EvRelease _] => 1
  | _ => 0
  end.

(** What the event loop keeps true of the sessions held during a
    chunk, [b] being held by others. *)
Record held_inv (limit b : nat) (acc : Shared * list slot) : Prop := {
  hi_held : held limit 0 (trace acc.1) = Some (b + sum_list (holding <$> acc.2));
  hi_tails : Forall (fun s => worker_tail (slot_pending s) = true) acc.2;
  hi_room : b + length acc.2 <= limit;
}.

(** The characters that a normalised fact name is made of. *)
Definition slug_char (c : ascii) : bool :=
  is_lower c || is_digit c || Ascii.eqb c "_".

(** The row of the price table, and of the tax table, for an entry
    that is not [null]. *)
Definition price_cells `{JsRuntime} (entry : json) : json :=
  JArr [ Js.or_null (Js.get entry "date"); Js.or_null (Js.get entry "event");
         money_of (Js.get entry "price"); Js.or_null (Js.get entry "source") ].

Definition tax_cells `{JsRuntime} (entry : json) : json :=
  JArr [ Js.or_null (Js.get entry "time"); money_of (Js.get entry "taxPaid");
         money_of (Js.get entry "value") ].

(** A text that the pattern of the price takes in whole: a dollar
    sign, a run of digits and commas, and a comma with three digits. *)
Definition price_text (m : string) : Prop :=
  exists body d1 d2 d3,
    m = String "$" (body +:+ String "," (String d1 (String d2 (String d3 ""))))
    /\ body <> "" /\ every DomPrice.cls_amount body = true
    /\ is_digit d1 = true /\ is_digit d2 = true /\ is_digit d3 = true.

(** A value that is no array with an entry in it. *)
Definition no_rows (h : option json) : Prop :=
  forall e es, h <> Some (JArr (e :: es)).

End Terms.

(** ** Further inputs of the examples *)

Module Cases.

Import PageController ListingWorker Orchestrator Scenarios.

(** A property entity with a price, two sources for the lot size, an
    at-a-glance entry about the lot size and one sale in its price
    history, and the payload that holds it. *)
Definition lot_property : json :=
  JObj [ ("price", JNum 350000);
         ("lotSize", JNum 5000);
         ("lotAreaValue", JNum 2);
         ("lotAreaUnits", JStr "Acres");
         ("resoFacts",
          JObj [ ("atAGlanceFacts",
                  JArr [ JObj [ ("factLabel", JStr "Lot Size");
                                ("factValue", JStr "1 sqft") ] ]) ]);
         ("priceHistory",
          JArr [ JObj [ ("date", JStr "2020-01-01"); ("event", JStr "Sold");
                        ("price", JNum 300000) ] ]) ].

Definition payload_of (property : json) : json :=
  JObj [ ("props",
          JObj [ ("pageProps",
                  JObj [ ("initialData", JObj [ ("property", property) ]) ]) ]) ].


(** A job whose first navigation fails. *)
Definition unreachable_search : JobScript :=
  {| js_acquire := true; js_goto := false; js_pages := [] |}.

(** A job over one results page with five listings whose workers
    have all been granted their session before any of them goes on. *)
Definition five_at_once : JobScript :=
  {| js_acquire := true; js_goto := true;
     js_pages :=
       [ {| ps_abort := false;
            ps_listing := Some {| nextDataScript := None; scripts := [];
                                  anchors := take 5 seven_urls |};
            ps_abort_discovery := false;
            ps_workers := fun _ => bare_page;
            ps_schedules := fun _ => [Resume 0; Resume 1; Resume 2; Resume 3; Resume 4];
            ps_acquire := false;
            ps_nav := nav_unreachable |} ] |}.


End Cases.

(** * Properties *)

(** ** Strings and patterns *)

Module StrFacts.

Import Spec Scenarios.

Import Str.

#[local] Arguments String.append !_ _ / : simpl nomatch.

Lemma append_nil_r (s : string) : s +:+ "" = s.
Proof. induction s as [|c s IH]; simpl; [reflexivity | now rewrite IH]. Qed.

Lemma append_assoc (a b c : string) : (a +:+ b) +:+ c = a +:+ (b +:+ c).
Proof. induction a as [|x a IH]; simpl; [reflexivity | now rewrite IH]. Qed.

Lemma strip_prefix_app (p s : string) : strip_prefix p (p +:+ s) = Some s.
Proof.
  induction p as [|a p IH]; simpl; [reflexivity|].
  now rewrite Ascii.eqb_refl.
Qed.

Lemma strip_prefix_Some (p s r : string) :
  strip_prefix p s = Some r -> s = p +:+ r.
Proof.
  revert s. induction p as [|a p IH]; intros s; simpl.
  - now intros [= ->].
  - destruct s as [|b s]; [discriminate|].
    destruct (Ascii.eqb_spec a b) as [->|]; [|discriminate].
    intros Hs. now rewrite (IH _ Hs).
Qed.

Lemma ends_with_slash_app (u : string) : ends_with_slash (u +:+ "/") = true.
Proof.
  induction u as [|c u IH]; [reflexivity|].
  simpl. destruct (u +:+ "/") eqn:E; [|exact IH].
  destruct u; discriminate.
Qed.

Lemma match_sound (s run rest : string) :
  match_plus_lit is_digit "_p/" s = Some (run, rest) -> has_page_segment s.
Proof.
  revert run rest.
  induction s as [|c s IH]; intros run rest; cbn [match_plus_lit]; [discriminate|].
  destruct (is_digit c) eqn:Hc; [|discriminate].
  destruct (match_plus_lit is_digit "_p/" s) as [[run' rest']|] eqn:Hm.
  - intros _. destruct (IH _ _ eq_refl) as (pre & d & post & Hd & ->).
    exists (String c pre), d, post. now split.
  - destruct (strip_prefix "_p/" s) as [r|] eqn:Hp; [|discriminate].
    intros _. apply strip_prefix_Some in Hp. subst s.
    exists "", c, r. now split.
Qed.

Lemma search_sound (s pre ds rest : string) :
  search_digits_lit "_p/" s = Some (pre, ds, rest) -> has_page_segment s.
Proof.
  revert pre ds rest. induction s as [|c s IH]; intros pre ds rest.
  - discriminate.
  - cbn [search_digits_lit].
    destruct (match_plus_lit is_digit "_p/" (String c s)) as [[run r]|] eqn:Hm.
    + intros _. eapply match_sound, Hm.
    + destruct (search_digits_lit "_p/" s) as [[[pre' ds'] rest']|] eqn:Hs; [|discriminate].
      intros _. destruct (IH _ _ _ eq_refl) as (p & d & post & Hd & ->).
      exists (String c p), d, post. now split.
Qed.

Lemma match_at_digit (c : ascii) (t : string) :
  is_digit c = true ->
  match_plus_lit is_digit "_p/" (String c ("_p/" +:+ t)) = Some (String c "", t).
Proof.
  intros Hc. cbn [match_plus_lit]. rewrite Hc.
  change ("_p/" +:+ t) with (String "_" (String "p" (String "/" t))).
  reflexivity.
Qed.

Lemma search_complete (s : string) :
  has_page_segment s -> search_digits_lit "_p/" s <> None.
Proof.
  intros (pre & c & post & Hc & ->).
  induction pre as [|x pre IH].
  - change ("" +:+ String c ("_p/" +:+ post)) with (String c ("_p/" +:+ post)).
    cbn [search_digits_lit]. now rewrite (match_at_digit _ _ Hc).
  - change (String x pre +:+ String c ("_p/" +:+ post))
      with (String x (pre +:+ String c ("_p/" +:+ post))).
    cbn [search_digits_lit].
    destruct (match_plus_lit is_digit "_p/" _) as [[? ?]|]; [discriminate|].
    destruct (search_digits_lit "_p/" _) as [[[? ?] ?]|]; [discriminate|].
    now contradict IH.
Qed.

Lemma no_page_segment_iff (s : string) :
  ~ has_page_segment s <-> search_digits_lit "_p/" s = None.
Proof.
  split.
  - intros Hn. destruct (search_digits_lit "_p/" s) as [[[pre ds] rest]|] eqn:E; [|reflexivity].
    exfalso. eapply Hn, search_sound, E.
  - intros E Hs. now apply search_complete in Hs.
Qed.

(** The digits of a page segment and what follows are matched whole. *)
Lemma match_digits (d b : string) :
  d <> "" -> all_digits d = true ->
  match_plus_lit is_digit "_p/" (d +:+ "_p/" +:+ b) = Some (d, b).
Proof.
  induction d as [|c d IH]; [congruence|]. intros _ Hd.
  simpl in Hd. apply andb_prop in Hd as [Hc Hd].
  destruct d as [|c' d].
  - apply (match_at_digit _ _ Hc).
  - change (String c (String c' d) +:+ "_p/" +:+ b)
      with (String c (String c' d +:+ "_p/" +:+ b)).
    cbn [match_plus_lit]. rewrite Hc. now rewrite IH.
Qed.

Lemma strip_prefix_within (a t : string) :
  ends_with_slash a = true ->
  strip_prefix "_p/" a = None ->
  strip_prefix "_p/" (a +:+ t) = None.
Proof.
  destruct a as [|x1 [|x2 [|x3 a]]];
    cbn [strip_prefix append ends_with_slash]; intros Ha Hp.
  - discriminate.
  - apply Ascii.eqb_eq in Ha. now subst x1.
  - apply Ascii.eqb_eq in Ha. subst x2. now destruct (Ascii.eqb "_" x1).
  - destruct (Ascii.eqb "_" x1), (Ascii.eqb "p" x2), (Ascii.eqb "/" x3);
      (discriminate || reflexivity).
Qed.

(** No match of the pattern starts inside a text that ends with a
    slash and reaches beyond it. *)
Lemma match_within (a t : string) :
  ends_with_slash a = true ->
  match_plus_lit is_digit "_p/" a = None ->
  match_plus_lit is_digit "_p/" (a +:+ t) = None.
Proof.
  induction a as [|c a IH]; [discriminate|]. intros Hs Hm.
  change (String c a +:+ t) with (String c (a +:+ t)).
  cbn [match_plus_lit] in *.
  destruct (is_digit c) eqn:Hc; [|reflexivity].
  assert (Ha : ends_with_slash a = true).
  { destruct a; [|exact Hs]. simpl in Hs.
    apply Ascii.eqb_eq in Hs. subst c. discriminate. }
  destruct (match_plus_lit is_digit "_p/" a) as [[? ?]|] eqn:Hma; [discriminate|].
  rewrite (IH Ha eq_refl).
  destruct (strip_prefix "_p/" a) eqn:Hp; [discriminate|].
  now rewrite (strip_prefix_within _ t Ha Hp).
Qed.

Lemma search_after (a m ds rest : string) :
  ends_with_slash a = true ->
  search_digits_lit "_p/" a = None ->
  match_plus_lit is_digit "_p/" m = Some (ds, rest) ->
  search_digits_lit "_p/" (a +:+ m) = Some (a, ds, rest).
Proof.
  intros Hs Ha Hm. induction a as [|c a IH]; [discriminate|].
  cbn [search_digits_lit] in Ha.
  destruct (match_plus_lit is_digit "_p/" (String c a)) as [[? ?]|] eqn:Hc; [discriminate|].
  destruct (search_digits_lit "_p/" a) as [[[? ?] ?]|] eqn:Hsa; [discriminate|].
  change (String c a +:+ m) with (String c (a +:+ m)).
  cbn [search_digits_lit].
  change (String c (a +:+ m)) with (String c a +:+ m).
  rewrite (match_within _ m Hs Hc).
  destruct a as [|c' a].
  - change ("" +:+ m) with m. destruct m as [|x m]; [discriminate|].
    cbn [search_digits_lit]. now rewrite Hm.
  - now rewrite (IH Hs eq_refl).
Qed.

Lemma replace_final_slash_app (repl u : string) :
  replace_final_slash repl (u +:+ "/") = u +:+ repl.
Proof.
  induction u as [|c u IH]; [reflexivity|].
  change (String c u +:+ "/") with (String c (u +:+ "/")).
  cbn [replace_final_slash]. rewrite IH.
  destruct (u +:+ "/") eqn:E; [destruct u; discriminate|].
  now rewrite andb_false_r.
Qed.

Lemma replace_final_slash_none (repl s : string) :
  ends_with_slash s = false -> replace_final_slash repl s = s.
Proof.
  induction s as [|c s IH]; [reflexivity|]. intros Hs.
  cbn [replace_final_slash]. destruct s as [|c' s].
  - cbn in Hs. now rewrite Hs.
  - rewrite andb_false_r. f_equal. now apply IH.
Qed.

Lemma ends_with_slash_split (s : string) :
  ends_with_slash s = true -> exists u, s = u +:+ "/".
Proof.
  induction s as [|c s IH]; [discriminate|]. destruct s as [|c' s].
  - cbn. intros ->%Ascii.eqb_eq. now exists "".
  - intros Hs. destruct (IH Hs) as [u ->]. now exists (String c u).
Qed.

(** What [replace(/\/$/, "/" + tail)] makes of a string. *)
Lemma replace_final_slash_cases (tail s : string) :
  replace_final_slash ("/" +:+ tail) s = if ends_with_slash s then s +:+ tail else s.
Proof.
  destruct (ends_with_slash s) eqn:Hs; [|now apply replace_final_slash_none].
  destruct (ends_with_slash_split _ Hs) as [u ->].
  now rewrite replace_final_slash_app, append_assoc.
Qed.

Lemma no_page_segment_nil : ~ has_page_segment "".
Proof. intros (pre & c & post & _ & E). now destruct pre. Qed.

Lemma no_page_segment_tail (c : ascii) (s : string) :
  ~ has_page_segment (String c s) -> ~ has_page_segment s.
Proof.
  intros Hn (pre & d & post & Hd & ->). apply Hn.
  exists (String c pre), d, post. now split.
Qed.

Lemma ends_with_digit_tail (c : ascii) (s : string) :
  ends_with_digit (String c s) = false -> ends_with_digit s = false.
Proof. now destruct s. Qed.

Lemma match_form (s run rest : string) :
  match_plus_lit is_digit "_p/" s = Some (run, rest) ->
  run <> "" /\ all_digits run = true /\ s = run +:+ "_p/" +:+ rest.
Proof.
  revert run rest.
  induction s as [|c s IH]; intros run rest; cbn [match_plus_lit]; [discriminate|].
  destruct (is_digit c) eqn:Hc; [|discriminate].
  destruct (match_plus_lit is_digit "_p/" s) as [[run' rest']|] eqn:Hm.
  - intros [= <- <-]. destruct (IH _ _ eq_refl) as (_ & Hall & ->).
    split; [discriminate|]. split; [|reflexivity]. cbn [all_digits]. now rewrite Hc.
  - destruct (strip_prefix "_p/" s) as [r|] eqn:Hp; [|discriminate].
    intros [= <- <-]. apply strip_prefix_Some in Hp. subst s.
    split; [discriminate|]. split; [|reflexivity]. cbn [all_digits]. now rewrite Hc.
Qed.

Lemma strip_prefix_before_digit (a : string) (y : ascii) (t : string) :
  is_digit y = true ->
  strip_prefix "_p/" a = None -> strip_prefix "_p/" (a +:+ String y t) = None.
Proof.
  intros Hy.
  assert (H1 : Ascii.eqb "_" y = false)
    by (destruct (Ascii.eqb_spec "_" y) as [<-|]; [discriminate | reflexivity]).
  assert (H2 : Ascii.eqb "p" y = false)
    by (destruct (Ascii.eqb_spec "p" y) as [<-|]; [discriminate | reflexivity]).
  assert (H3 : Ascii.eqb "/" y = false)
    by (destruct (Ascii.eqb_spec "/" y) as [<-|]; [discriminate | reflexivity]).
  destruct a as [|x1 [|x2 [|x3 a]]]; cbn [strip_prefix append]; intros Hp.
  - now rewrite H1.
  - rewrite H2. now destruct (Ascii.eqb "_" x1).
  - rewrite H3. now destruct (Ascii.eqb "_" x1), (Ascii.eqb "p" x2).
  - destruct (Ascii.eqb "_" x1), (Ascii.eqb "p" x2), (Ascii.eqb "/" x3);
      (discriminate || reflexivity).
Qed.

(** No match of the pattern starts inside a text that does not end
    with a digit and reaches into a digit that follows it. *)
Lemma match_before_digit (a : string) (y : ascii) (t : string) :
  is_digit y = true ->
  forall c : ascii,
    ends_with_digit (String c a) = false ->
    match_plus_lit is_digit "_p/" (String c a) = None ->
    match_plus_lit is_digit "_p/" (String c (a +:+ String y t)) = None.
Proof.
  intros Hy. induction a as [|c' a IH]; intros c He Hm.
  - cbn in He. cbn [match_plus_lit]. now rewrite He.
  - change (String c' a +:+ String y t) with (String c' (a +:+ String y t)).
    cbn [match_plus_lit] in Hm |- *. fold (match_plus_lit is_digit "_p/") in *.
    destruct (is_digit c) eqn:Hc; [|reflexivity].
    change (if is_digit c' then _ else _)
      with (match_plus_lit is_digit "_p/" (String c' (a +:+ String y t))).
    change (if is_digit c' then _ else _)
      with (match_plus_lit is_digit "_p/" (String c' a)) in Hm.
    destruct (match_plus_lit is_digit "_p/" (String c' a)) as [[? ?]|] eqn:Hma;
      [discriminate|].
    rewrite (IH c' He Hma).
    destruct (strip_prefix "_p/" (String c' a)) eqn:Hp; [discriminate|].
    change (String c' (a +:+ String y t)) with (String c' a +:+ String y t).
    now rewrite (strip_prefix_before_digit _ y t Hy Hp).
Qed.

(** The leftmost page segment is found where it stands: after a text
    that has none and does not end with a digit. *)
Lemma search_before (pre d post : string) :
  ~ has_page_segment pre -> ends_with_digit pre = false ->
  d <> "" -> all_digits d = true ->
  search_digits_lit "_p/" (pre +:+ d +:+ "_p/" +:+ post) = Some (pre, d, post).
Proof.
  intros Hn He Hd Hall. pose proof (match_digits d post Hd Hall) as Hm.
  destruct d as [|y d]; [congruence|].
  assert (Hy : is_digit y = true) by (cbn in Hall; now apply andb_prop in Hall).
  change (String y d +:+ "_p/" +:+ post) with (String y (d +:+ "_p/" +:+ post)) in *.
  induction pre as [|c pre IH].
  - change ("" +:+ ?x) with x. cbn [search_digits_lit]. now rewrite Hm.
  - change (String c pre +:+ ?x) with (String c (pre +:+ x)).
    cbn [search_digits_lit].
    assert (Hhead : match_plus_lit is_digit "_p/" (String c pre) = None).
    { destruct (match_plus_lit is_digit "_p/" (String c pre)) as [[run r]|] eqn:E;
        [|reflexivity].
      exfalso. eapply Hn, match_sound, E. }
    rewrite (match_before_digit _ y _ Hy c He Hhead).
    now rewrite (IH (no_page_segment_tail _ _ Hn) (ends_with_digit_tail _ _ He)).
Qed.

(** What the search finds is the leftmost page segment. *)
Lemma search_form (s pre ds rest : string) :
  search_digits_lit "_p/" s = Some (pre, ds, rest) ->
  s = pre +:+ ds +:+ "_p/" +:+ rest
  /\ ~ has_page_segment pre /\ ends_with_digit pre = false
  /\ ds <> "" /\ all_digits ds = true.
Proof.
  revert pre. induction s as [|c s IH]; intros pre; [discriminate|].
  cbn [search_digits_lit].
  destruct (match_plus_lit is_digit "_p/" (String c s)) as [[run r]|] eqn:Hm.
  - intros [= <- <- <-]. destruct (match_form _ _ _ Hm) as (Hr & Hall & E).
    split; [exact E|]. split; [apply no_page_segment_nil|]. easy.
  - destruct (search_digits_lit "_p/" s) as [[[pre' ds'] rest']|] eqn:Hs; [|discriminate].
    intros [= <- <- <-]. destruct (IH _ eq_refl) as (E & Hn & He & Hd & Hall).
    split; [now rewrite E|]. split; [|split; [|easy]].
    + intros (p & x & post & Hx & Ep). destruct p as [|c0 p].
      * change ("" +:+ ?z) with z in Ep. injection Ep as -> ->.
        subst s.
        change (String "_" (String "p" (String "/" post)) +:+ ?z)
          with ("_p/" +:+ (post +:+ z)) in Hm.
        now rewrite (match_at_digit _ _ Hx) in Hm.
      * change (String c0 p +:+ ?z) with (String c0 (p +:+ z)) in Ep.
        injection Ep as _ ->. apply Hn. now exists p, x, post.
    + destruct pre' as [|c' pre']; [|exact He]. cbn [ends_with_digit].
      destruct (is_digit c) eqn:Hc; [|reflexivity].
      change ("" +:+ ?z) with z in E. subst s.
      assert (Hm' : match_plus_lit is_digit "_p/" (String c ds' +:+ "_p/" +:+ rest')
                    = Some (String c ds', rest')).
      { apply match_digits; [discriminate|]. cbn [all_digits]. now rewrite Hc. }
      change (String c ds' +:+ "_p/" +:+ rest')
        with (String c (ds' +:+ "_p/" +:+ rest')) in Hm'.
      congruence.
Qed.

End StrFacts.

(** ** The page controller *)

Module PageControllerFacts.

Import Spec Scenarios.

Import PageController StrFacts.

(** C7, as the code has it.  [buildNextPageUrl] is a function of its two
    arguments.  It maps https://x/search/1_p/ and 2 to
    https://x/search/2_p/.  It takes out the leftmost page segment, a
    run of digits followed by [_p/], and no other one; then, when what
    is left ends with a slash, the requested page number and [_p/] are
    put after that slash, and when what is left does not end with a
    slash it is returned as it is, without a page number.  So a URL
    without a page segment gets one exactly when it ends with a
    slash.  Every URL is covered: one that has a page segment splits
    into a part without one that does not end with a digit, the digits
    of the segment, and the rest. *)
Theorem buildNextPageUrl_spec :
  buildNextPageUrl "https://x/search/1_p/" 2 = "https://x/search/2_p/"
  /\ (forall (s : string) (n : nat),
        ~ has_page_segment s ->
        buildNextPageUrl s n
        = if ends_with_slash s then s +:+ Str.of_nat n +:+ "_p/" else s)
  /\ (forall (pre d post : string) (n : nat),
        ~ has_page_segment pre -> ends_with_digit pre = false ->
        d <> "" -> all_digits d = true ->
        buildNextPageUrl (pre +:+ d +:+ "_p/" +:+ post) n
        = if ends_with_slash (pre +:+ post)
          then (pre +:+ post) +:+ Str.of_nat n +:+ "_p/" else pre +:+ post)
  /\ (forall s : string,
        has_page_segment s ->
        exists pre d post,
          s = pre +:+ d +:+ "_p/" +:+ post
          /\ ~ has_page_segment pre /\ ends_with_digit pre = false
          /\ d <> "" /\ all_digits d = true).
Proof.
  split; [reflexivity|]. split; [|split].
  - intros s n Hs. unfold buildNextPageUrl, Str.remove_first_digits_lit.
    apply no_page_segment_iff in Hs. rewrite Hs. apply replace_final_slash_cases.
  - intros pre d post n Hn He Hd Hall.
    unfold buildNextPageUrl, Str.remove_first_digits_lit.
    rewrite (search_before pre d post Hn He Hd Hall). apply replace_final_slash_cases.
  - intros s Hs. apply search_complete in Hs.
    destruct (Str.search_digits_lit "_p/" s) as [[[pre d] post]|] eqn:E; [|congruence].
    exists pre, d, post. now apply search_form.
Qed.

Lemma buildNextPageUrl_spec_witness :
  buildNextPageUrl "https://x/homes/" 3 = "https://x/homes/3_p/"
  /\ buildNextPageUrl ("https://x/homes/" +:+ "17" +:+ "_p/" +:+ "") 3
     = "https://x/homes/3_p/"
  /\ buildNextPageUrl ("https://x/homes/" +:+ "17" +:+ "_p/" +:+ "city/") 3
     = "https://x/homes/city/3_p/".
Proof.
  destruct buildNextPageUrl_spec as (_ & Hnone & Hsegment & _).
  assert (Hno : ~ has_page_segment "https://x/homes/")
    by (apply no_page_segment_iff; reflexivity).
  split; [|split].
  - now rewrite (Hnone "https://x/homes/" 3 Hno).
  - rewrite (Hsegment "https://x/homes/" "17" "" 3 Hno);
      [reflexivity | reflexivity | discriminate | reflexivity].
  - rewrite (Hsegment "https://x/homes/" "17" "city/" 3 Hno);
      [reflexivity | reflexivity | discriminate | reflexivity].
Defined.

(** C7 as stated fails: a search URL with a query string does not end
    with a slash and gets no page number; when it has a page segment,
    that segment is removed and nothing is put in its place; and of
    two page segments only the first is removed. *)
Lemma buildNextPageUrl_no_page_number :
  buildNextPageUrl "https://www.zillow.com/homes/for_sale/?searchQueryState=abc" 2
  = "https://www.zillow.com/homes/for_sale/?searchQueryState=abc"
  /\ buildNextPageUrl "https://x/search/1_p/?sort=new" 2 = "https://x/search/?sort=new"
  /\ buildNextPageUrl "https://x/search/1_p/2_p/" 3 = "https://x/search/2_p/3_p/".
Proof. repeat split; reflexivity. Qed.

(** C5 at a failing input.  The two anchors have different keys (each
    is its own key, query string included), so both are kept; what is
    pushed is the URL cut at the question mark, and the list returned
    holds the same entry twice. *)
Lemma extractListingUrls_twins `{JsRuntime} :
  extractListingUrls twin_anchors
  = [ "https://www.zillow.com/homedetails/12-Oak-St/";
      "https://www.zillow.com/homedetails/12-Oak-St/" ]
  /\ dedup_key "https://www.zillow.com/homedetails/12-Oak-St/"
     = "https://www.zillow.com/homedetails/12-Oak-St/".
Proof. split; vm_compute; reflexivity. Qed.

(** Closes the goals of one path through [goToNextPage]. *)
Ltac nav_cases :=
  cbn; repeat split; intros; simplify_eq;
  repeat match goal with
         | E : extractListingUrls ?d = [], F : context [extractListingUrls ?d] |- _ =>
             rewrite E in F
         end;
  try discriminate; try lia; auto.

(** C9.  [goToNextPage] first navigates to the target URL.  If the
    first discovery finds a reference it returns [true] without a
    reload.  If the first discovery completes with no reference (and
    the page keeps answering) it reloads exactly once and runs
    discovery a second time: it returns [true] when the retry finds a
    reference and [false] when the retry finds none.  In every case,
    exceptions included, the page is reloaded at most once and
    discovery runs at most twice, and [true] is returned only when the
    first discovery or the retry found a reference. *)
Theorem goToNextPage_spec `{JsRuntime} (sid : nat) (targetUrl : string) (nav : NavScript) :
  let r := goToNextPage sid targetUrl nav in
  head r.2 = Some (EvGoto sid targetUrl)
  /\ Trace.reloads r.2 <= 1
  /\ Trace.discoveries r.2 <= 2
  /\ (r.1 = true -> finds (nav_first nav) = true \/ finds (nav_retry nav) = true)
  /\ (nav_goto nav = true -> finds (nav_first nav) = true ->
      r.1 = true /\ Trace.reloads r.2 = 0 /\ Trace.discoveries r.2 = 1)
  /\ (nav_goto nav = true -> nav_title nav = true -> nav_reload nav = true ->
      forall doc, nav_first nav = Some doc -> extractListingUrls doc = [] ->
      r.1 = finds (nav_retry nav)
      /\ Trace.reloads r.2 = 1 /\ Trace.discoveries r.2 = 2).
Proof.
  unfold goToNextPage, finds.
  destruct nav as [g first title reload retry];
    cbn [nav_goto nav_first nav_title nav_reload nav_retry].
  destruct g; cbn [negb]; [|nav_cases].
  destruct first as [doc|]; [|nav_cases].
  destruct (0 <? length (extractListingUrls doc))%nat eqn:Hfirst; [nav_cases|].
  destruct title; cbn [negb]; [|nav_cases].
  destruct reload; cbn [negb]; [|nav_cases].
  destruct retry as [doc'|]; [|nav_cases].
  destruct (0 <? length (extractListingUrls doc'))%nat eqn:Hretry; nav_cases.
Qed.

Lemma goToNextPage_spec_witness :
  let nav := {| nav_goto := true;
                nav_first := Some {| nextDataScript := None; scripts := []; anchors := [] |};
                nav_title := true; nav_reload := true;
                nav_retry := Some {| nextDataScript := None; scripts := [];
                                     anchors := ["https://www.zillow.com/homedetails/a/1_zpid/"] |} |} in
  let r := @goToNextPage (Reference.runtime []) 4 "https://x/search/2_p/" nav in
  r.1 = true /\ Trace.reloads r.2 = 1 /\ Trace.discoveries r.2 = 2.
Proof.
  intros nav r.
  pose proof (@goToNextPage_spec (Reference.runtime []) 4 "https://x/search/2_p/" nav)
    as (_ & _ & _ & _ & _ & Hretry).
  destruct (Hretry eq_refl eq_refl eq_refl _ eq_refl eq_refl) as (E & Hr & Hd).
  split; [|split]; [|exact Hr|exact Hd].
  fold r in E. rewrite E. vm_compute. reflexivity.
Defined.

End PageControllerFacts.

(** ** The orchestrator: the cap on accepted records *)

Module CapFacts.

Import Spec Scenarios.

Import PageController ListingWorker Orchestrator.

Lemma within_cap_world (f : Shared -> Shared) (j : Job) :
  within_cap j -> within_cap (with_world f j).
Proof. now intros [? ?]. Qed.

Lemma within_cap_finish (st : JobStatus) (m : option nat) (j : Job) :
  within_cap j -> within_cap (finish st m j).2.
Proof. destruct m; [apply within_cap_world | easy]. Qed.

Lemma consume_within_cap (results : list ScrapeResult) (j : Job) :
  length (schema j) = globalCount j -> globalCount j < MAX_LISTINGS ->
  within_cap (consume results j).
Proof.
  revert j. induction results as [|r rs IH]; intros j Hlen Hlt.
  - split; cbn [consume]; [exact Hlen | lia].
  - cbn [consume].
    set (j' := match success r, data r with
               | true, Some d => addRow d j
               | _, _ => j
               end).
    assert (Hj' : length (schema j') = globalCount j' /\ globalCount j' <= MAX_LISTINGS).
    { subst j'. destruct (success r), (data r); cbn; rewrite ?length_app; cbn; lia. }
    destruct (Nat.leb_spec MAX_LISTINGS (globalCount j')).
    + exact Hj'.
    + now apply IH.
Qed.

Lemma paginate_within_cap `{JsRuntime} (searchUrl : string) (pages : list PageScript)
    (pageNum main : nat) (j : Job) :
  within_cap j -> within_cap (paginate searchUrl pages pageNum main j).2.
Proof.
  revert pageNum main j.
  induction pages as [|p later IH]; intros pageNum main j Hj; cbn [paginate].
  - destruct (MAX_LISTINGS <=? globalCount j)%nat; [now apply within_cap_finish | exact Hj].
  - destruct (Nat.leb_spec MAX_LISTINGS (globalCount j)) as [|Hlt];
      [now apply within_cap_finish|].
    set (j1 := if ps_abort p then with_world signal_abort j else j).
    assert (Hj1 : within_cap j1 /\ globalCount j1 = globalCount j)
      by (subst j1; destruct (ps_abort p); [split; [now apply within_cap_world|] |]; easy).
    destruct Hj1 as [Hj1 Hc1].
    destruct (aborted (world j1)); [now apply within_cap_finish|].
    set (j1' := if ps_abort_discovery p then _ else _).
    assert (Hj1' : within_cap j1' /\ globalCount j1' = globalCount j)
      by (subst j1'; destruct (ps_abort_discovery p);
          (split; [now repeat apply within_cap_world | exact Hc1])).
    clearbody j1'. destruct Hj1' as [Hj1' Hc1'].
    destruct (ps_listing p) as [doc|];
      [|now apply within_cap_finish].
    destruct (length (extractListingUrls doc) =? 0)%nat;
      [now apply within_cap_finish|].
    destruct (scrapeListingsBatch _ _ _ _ _ _) as [w results].
    match goal with |- context [consume results ?j0] => set (j2 := j0) end.
    assert (Hj3 : within_cap (consume results j2)).
    { apply consume_within_cap; subst j2; cbn; [apply Hj1' | lia]. }
    destruct (MAX_LISTINGS <=? globalCount (consume results j2))%nat;
      [now apply within_cap_finish|].
    unfold SteelClient.createSteelSession, SteelClient.releaseSteelSession;
      destruct (ps_acquire p);
      [|now apply within_cap_finish, within_cap_world].
    destruct (goToNextPage _ _ _) as [hasNext evs].
    destruct hasNext; cbn [negb].
    + apply IH. now repeat apply within_cap_world.
    + apply within_cap_finish. now repeat apply within_cap_world.
Qed.

(** C1.  Whatever the pages list, however the workers end and in
    whatever order they are scheduled, and wherever the script of the
    run stops, the number of rows given to [schema.addRow] is the value
    of [globalCount] and does not exceed [MAX_LISTINGS]. *)
Theorem orchestrate_within_cap `{JsRuntime} (searchUrl : string) (js : JobScript) :
  let j := (orchestrate searchUrl js).2 in
  length (schema j) = globalCount j /\ globalCount j <= MAX_LISTINGS.
Proof.
  unfold orchestrate.
  unfold SteelClient.createSteelSession, SteelClient.releaseSteelSession;
    destruct (js_acquire js); [|cbn; split; [reflexivity | lia]].
  destruct (js_goto js); cbn [negb]; [|cbn; split; [reflexivity | lia]].
  apply paginate_within_cap. split; [reflexivity | cbn; lia].
Qed.

End CapFacts.

(** ** The listing worker: the fields of a record *)

Module RecordFacts.

Import Spec Scenarios.

Import ListingWorker StrFacts.

Lemma fact_key_not_plain (name key : string) : plain key -> "fact_" +:+ name <> key.
Proof.
  unfold plain. intros Hk <-. now rewrite strip_prefix_app in Hk.
Qed.

(** Closes [field <> key] for a literal [field] in the name space. *)
Ltac fact_ne :=
  let E := fresh in
  intros E;
  match goal with Hk : plain _ |- _ => unfold plain in Hk; rewrite <- E in Hk; discriminate Hk end.

Section WithRuntime.
Context `{JsRuntime}.

Lemma set_if_present_other (property : json) (k field suffix key : string)
    (result : ListingData) :
  field <> key -> set_if_present property k field suffix result !! key = result !! key.
Proof.
  intros Hne. unfold set_if_present.
  destruct (Js.present _); [now rewrite lookup_insert_ne | reflexivity].
Qed.

Lemma set_if_truthy_other (property : json) (k field key : string)
    (result : ListingData) :
  field <> key -> set_if_truthy property k field result !! key = result !! key.
Proof.
  intros Hne. unfold set_if_truthy.
  destruct (Js.otruthy _); [now rewrite lookup_insert_ne | reflexivity].
Qed.

Lemma basic_facts_plain (property : json) (result : ListingData) (key : string) :
  plain key -> basic_facts property result !! key = result !! key.
Proof.
  intros Hk. unfold basic_facts. cbv zeta.
  repeat first [ rewrite set_if_truthy_other by fact_ne
               | rewrite set_if_present_other by fact_ne ].
  destruct (_ && _); [rewrite lookup_insert_ne by fact_ne|];
    now repeat rewrite set_if_present_other by fact_ne.
Qed.

Lemma set_if_vacant_other (field key : string) (v : json) (result : ListingData) :
  field <> key -> set_if_vacant field v result !! key = result !! key.
Proof.
  intros Hne. unfold set_if_vacant.
  destruct (vacant _ _); [now rewrite lookup_insert_ne | reflexivity].
Qed.

(** A field that holds a truthy value is left alone. *)
Lemma set_if_vacant_keeps (field key : string) (v w : json) (result : ListingData) :
  result !! key = Some w -> Js.truthy w = true ->
  set_if_vacant field v result !! key = Some w.
Proof.
  intros Hw Ht. unfold set_if_vacant, vacant.
  destruct (decide (field = key)) as [->|Hne].
  - rewrite Hw. cbn. now rewrite Ht.
  - destruct (negb _); [now rewrite lookup_insert_ne | exact Hw].
Qed.

Lemma reso_entry_other (resoFacts : json) (result : ListingData)
    (jsonKey factKey key : string) :
  "fact_" +:+ factKey <> key ->
  reso_entry resoFacts result (jsonKey, factKey) !! key = result !! key.
Proof.
  intros Hne. unfold reso_entry.
  destruct (String.eqb jsonKey "atAGlanceFacts"); [reflexivity|].
  destruct (Js.get resoFacts jsonKey) as [val|]; [|reflexivity].
  destruct (_ && _); [|reflexivity].
  now apply set_if_vacant_other.
Qed.

Lemma reso_entry_keeps (resoFacts : json) (result : ListingData)
    (entry : string * string) (key : string) (w : json) :
  result !! key = Some w -> Js.truthy w = true ->
  reso_entry resoFacts result entry !! key = Some w.
Proof.
  intros Hw Ht. destruct entry as [jsonKey factKey]. unfold reso_entry.
  destruct (String.eqb jsonKey "atAGlanceFacts"); [exact Hw|].
  destruct (Js.get resoFacts jsonKey) as [val|]; [|exact Hw].
  destruct (_ && _); [|exact Hw].
  now apply set_if_vacant_keeps.
Qed.

Lemma reso_pass_keeps (resoFacts : json) (result : ListingData) (key : string) (w : json) :
  result !! key = Some w -> Js.truthy w = true ->
  reso_pass resoFacts result !! key = Some w.
Proof.
  unfold reso_pass. generalize factMappings as entries.
  intros entries. revert result.
  induction entries as [|entry entries IH]; intros result Hw Ht; [exact Hw|].
  cbn [foldl]. apply IH; [|exact Ht]. now apply reso_entry_keeps.
Qed.

(** The dictionary pass writes under the names of the dictionary only. *)
Lemma reso_entries_written (resoFacts : json) (entries : list (string * string))
    (result : ListingData) (key : string) :
  foldl (reso_entry resoFacts) result entries !! key <> result !! key ->
  exists jsonKey factKey,
    (jsonKey, factKey) ∈ entries /\ jsonKey <> "atAGlanceFacts"
    /\ key = "fact_" +:+ factKey.
Proof.
  revert result.
  induction entries as [|[jsonKey factKey] entries IH]; intros result Hch; [easy|].
  cbn [foldl] in Hch.
  destruct (decide (jsonKey = "atAGlanceFacts")) as [->|Hj].
  { destruct (IH _ Hch) as (jk & fk & Hin & ? & ?).
    exists jk, fk. split; [now right | easy]. }
  destruct (decide ("fact_" +:+ factKey = key)) as [Hk|Hk].
  { exists jsonKey, factKey. split; [now left | easy]. }
  destruct (IH (reso_entry resoFacts result (jsonKey, factKey))) as (jk & fk & Hin & ? & ?).
  { now rewrite (reso_entry_other _ _ _ _ _ Hk). }
  exists jk, fk. split; [now right | easy].
Qed.

Lemma reso_pass_plain (resoFacts : json) (result : ListingData) (key : string) :
  plain key -> reso_pass resoFacts result !! key = result !! key.
Proof.
  intros Hk. unfold reso_pass. generalize factMappings as entries.
  intros entries. revert result.
  induction entries as [|[jsonKey factKey] entries IH]; intros result; [reflexivity|].
  cbn [foldl]. rewrite IH. apply reso_entry_other. now apply fact_key_not_plain.
Qed.

Lemma glance_entry_plain (result result' : ListingData) (fact : json) (key : string) :
  plain key -> glance_entry result fact = Some result' -> result' !! key = result !! key.
Proof.
  intros Hk. unfold glance_entry.
  destruct fact; try discriminate;
    (destruct (Js.get _ "factLabel") as [label|]; [|now intros [= <-]];
     destruct (Js.get _ "factValue") as [value|]; [|now intros [= <-]];
     destruct (_ && _); [|now intros [= <-]];
     destruct label; try discriminate;
     intros [= <-]; apply set_if_vacant_other; now apply fact_key_not_plain).
Qed.

Lemma glance_entry_keeps (result result' : ListingData) (fact : json)
    (key : string) (w : json) :
  result !! key = Some w -> Js.truthy w = true ->
  glance_entry result fact = Some result' -> result' !! key = Some w.
Proof.
  intros Hw Ht. unfold glance_entry.
  destruct fact; try discriminate;
    (destruct (Js.get _ "factLabel") as [label|]; [|now intros [= <-]];
     destruct (Js.get _ "factValue") as [value|]; [|now intros [= <-]];
     destruct (_ && _); [|now intros [= <-]];
     destruct label; try discriminate;
     intros [= <-]; now apply set_if_vacant_keeps).
Qed.

Lemma glance_pass_plain (facts : list json) (result result' : ListingData) (key : string) :
  plain key -> glance_pass facts result = Some result' -> result' !! key = result !! key.
Proof.
  intros Hk. revert result.
  induction facts as [|fact facts IH]; intros result; cbn [glance_pass].
  - now intros [= <-].
  - destruct (glance_entry result fact) as [r1|] eqn:E; [|discriminate].
    intros Hp. rewrite (IH _ Hp). now apply (glance_entry_plain _ _ fact).
Qed.

Lemma glance_pass_keeps (facts : list json) (result result' : ListingData)
    (key : string) (w : json) :
  result !! key = Some w -> Js.truthy w = true ->
  glance_pass facts result = Some result' -> result' !! key = Some w.
Proof.
  intros Hw Ht. revert result Hw.
  induction facts as [|fact facts IH]; intros result Hw; cbn [glance_pass].
  - now intros [= <-].
  - destruct (glance_entry result fact) as [r1|] eqn:E; [|discriminate].
    apply IH. now apply (glance_entry_keeps result _ fact).
Qed.

Lemma reso_facts_plain (property : json) (result result' : ListingData) (key : string) :
  plain key -> reso_facts property result = Some result' -> result' !! key = result !! key.
Proof.
  intros Hk. unfold reso_facts.
  destruct (Js.get property "resoFacts") as [resoFacts|]; [|now intros [= <-]].
  destruct (Js.truthy resoFacts); [|now intros [= <-]].
  destruct (Js.get resoFacts "atAGlanceFacts") as [[| | | |facts|]|];
    try (intros [= <-]; now apply reso_pass_plain).
  intros Hg. rewrite (glance_pass_plain _ _ _ _ Hk Hg). now apply reso_pass_plain.
Qed.

(** What the first tier leaves under a key outside the [fact_] name
    space. *)
Lemma extractFromNextData_plain (nextData : json) (record : ListingData) (key : string) :
  extractFromNextData nextData = Some record -> plain key ->
  exists property price_history tax_history,
    locate_property nextData = Some property
    /\ record !! key =
       (<[ "public_tax_history" := tax_history ]>
        (<[ "price_history" := price_history ]>
         (<[ "estimated_sales_range" := estimated_sales_range property ]>
          (<[ "rent_zestimate" := money_of (Js.get property "rentZestimate") ]>
           (<[ "zestimate" := money_of (Js.get property "zestimate") ]>
            (<[ "price" := money_of (Js.get property "price") ]>
             (<[ "address" := address_of property ]> (∅ : ListingData)))))))) !! key.
Proof.
  unfold extractFromNextData. intros Hex Hk.
  destruct (locate_property nextData) as [property|]; [|discriminate].
  cbn [mbind option_bind] in Hex.
  destruct (reso_facts property _) as [r1|] eqn:Hr; [|discriminate].
  cbn [mbind option_bind] in Hex.
  destruct (history price_row _) as [ph|]; [|discriminate].
  cbn [mbind option_bind] in Hex.
  destruct (history tax_row _) as [th|]; [|discriminate].
  cbn [mbind option_bind] in Hex. injection Hex as <-.
  exists property, ph, th. split; [reflexivity|].
  pose proof (reso_facts_plain _ _ _ _ Hk Hr) as E.
  rewrite basic_facts_plain in E by exact Hk.
  destruct (decide ("public_tax_history" = key)) as [<-|N1];
    [now rewrite !lookup_insert_eq|].
  rewrite !(lookup_insert_ne _ "public_tax_history") by exact N1.
  destruct (decide ("price_history" = key)) as [<-|N2];
    [now rewrite !lookup_insert_eq|].
  rewrite !(lookup_insert_ne _ "price_history") by exact N2.
  exact E.
Qed.

End WithRuntime.

End RecordFacts.

(** ** The listing worker: the record returned *)

Module WorkerFacts.

Import Spec Scenarios.

Import ListingWorker StrFacts RecordFacts.


Lemma extracted_address `{JsRuntime} (nextData : json) (record : ListingData) :
  extractFromNextData nextData = Some record ->
  exists property,
    locate_property nextData = Some property
    /\ record !! "address" = Some (address_of property)
    /\ record !! "estimated_sales_range" = Some (estimated_sales_range property).
Proof.
  intros Hex.
  destruct (extractFromNextData_plain _ _ "address" Hex eq_refl)
    as (property & ph & th & Hp & Ha).
  destruct (extractFromNextData_plain _ _ "estimated_sales_range" Hex eq_refl)
    as (property' & ph' & th' & Hp' & Hr).
  rewrite Hp in Hp'. injection Hp' as <-.
  exists property. split; [exact Hp|]. split.
  - rewrite Ha. now rewrite !lookup_insert_ne, lookup_insert_eq by done.
  - rewrite Hr. now rewrite !lookup_insert_ne, lookup_insert_eq by done.
Qed.




End WorkerFacts.

(** ** The first tier: the estimated range and the facts *)

Module FieldFacts.

Import Spec Scenarios.

Import ListingWorker StrFacts RecordFacts WorkerFacts.

(** C6, as the code has it.  For a property entity, the range is
    computed exactly when [zestimate] is truthy (present, and not the
    number zero) and both [zestimateLowPercent] and
    [zestimateHighPercent] are present (neither absent nor [null]); it
    is then the dollar sign and the rounded low bound, a dash, the
    dollar sign and the rounded high bound, with the bounds
    [round(centre * (1 - lowPct / 100))] and
    [round(centre * (1 + highPct / 100))]; otherwise it is [null].
    This is the value of the field [estimated_sales_range] of every
    record of the first tier.  With 500000, 5 and 3, in a locale that
    writes 475000 as 475,000 and 515000 as 515,000, the field is
    $475,000 - $515,000. *)
Theorem estimated_sales_range_spec `{JsRuntime} :
  (forall property : json,
     let centre := Js.get property "zestimate" in
     let lowPct := Js.get property "zestimateLowPercent" in
     let highPct := Js.get property "zestimateHighPercent" in
     (Js.otruthy centre = true /\ Js.present lowPct = true /\ Js.present highPct = true ->
      estimated_sales_range property
      = JStr (range_text (Js.otoNumber centre) (Js.otoNumber lowPct) (Js.otoNumber highPct)))
     /\ (~ (Js.otruthy centre = true /\ Js.present lowPct = true /\ Js.present highPct = true) ->
         estimated_sales_range property = JNull))
  /\ (forall (nextData : json) (record : ListingData),
        extractFromNextData nextData = Some record ->
        exists property, locate_property nextData = Some property
          /\ record !! "estimated_sales_range" = Some (estimated_sales_range property))
  /\ (toLocaleString 475000%float = "475,000" ->
      toLocaleString 515000%float = "515,000" ->
      forall property : json,
        Js.get property "zestimate" = Some (JNum 500000) ->
        Js.get property "zestimateLowPercent" = Some (JNum 5) ->
        Js.get property "zestimateHighPercent" = Some (JNum 3) ->
        estimated_sales_range property = JStr "$475,000 - $515,000").
Proof.
  split; [|split].
  - intros property centre lowPct highPct. unfold estimated_sales_range.
    fold centre lowPct highPct.
    destruct (Js.otruthy centre), (Js.present lowPct), (Js.present highPct);
      cbn [andb]; split; try reflexivity; try (intros (? & ? & ?); discriminate);
      intros Hn; exfalso; apply Hn; now repeat split.
  - intros nextData record Hex.
    destruct (extracted_address _ _ Hex) as (property & Hp & _ & Hr).
    now exists property.
  - intros Hlow Hhigh property Hz Hl Hh. unfold estimated_sales_range.
    rewrite Hz, Hl, Hh. cbn [Js.otruthy Js.truthy Js.present Js.otoNumber Js.toNumber].
    replace (Js.number_truthy 500000) with true by (vm_compute; reflexivity).
    cbn [andb].
    replace (Js.Math_round (500000 * (1 - 5 / 100))%float) with 475000%float
      by (vm_compute; reflexivity).
    replace (Js.Math_round (500000 * (1 + 3 / 100))%float) with 515000%float
      by (vm_compute; reflexivity).
    now rewrite Hlow, Hhigh.
Qed.

Lemma estimated_sales_range_spec_witness :
  @estimated_sales_range (Reference.runtime []) scenario_property
  = JStr "$475,000 - $515,000".
Proof.
  apply (proj2 (proj2 (@estimated_sales_range_spec (Reference.runtime []))));
    vm_compute; reflexivity.
Defined.

(** C6 as stated fails: with a [zestimate] of zero all three values
    are present, the field [zestimate] is rendered, and yet the range
    is [null]. *)
Lemma estimated_sales_range_zero :
  let property := JObj [ ("zestimate", JNum 0);
                         ("zestimateLowPercent", JNum 5);
                         ("zestimateHighPercent", JNum 3) ] in
  Js.present (Js.get property "zestimate") = true
  /\ Js.present (Js.get property "zestimateLowPercent") = true
  /\ Js.present (Js.get property "zestimateHighPercent") = true
  /\ @money_of (Reference.runtime []) (Js.get property "zestimate") = JStr "$0"
  /\ @estimated_sales_range (Reference.runtime []) property = JNull.
Proof. vm_compute. repeat split. Qed.

(** C8, as the code has it.  Every field of a record of the first
    tier is one of the seven fixed fields or is named [fact_] followed
    by a name; the dictionary pass over [resoFacts] writes only under
    [fact_] followed by a name of the fixed dictionary; it skips a
    source value that is absent, [null], the empty string or the string
    None; and a field that already holds a truthy value (any string but
    the empty one) is overwritten neither by the dictionary pass nor by
    an entry of the at-a-glance array.  A field that holds the empty
    string counts as vacant. *)
Theorem fact_derivation_spec `{JsRuntime} :
  (forall (nextData : json) (record : ListingData) (key : string),
     extractFromNextData nextData = Some record -> is_Some (record !! key) ->
     key ∈ fixed_fields \/ exists name, key = "fact_" +:+ name)
  /\ (forall (resoFacts : json) (result : ListingData) (key : string),
        reso_pass resoFacts result !! key <> result !! key ->
        exists jsonKey factKey,
          (jsonKey, factKey) ∈ factMappings /\ jsonKey <> "atAGlanceFacts"
          /\ key = "fact_" +:+ factKey)
  /\ (forall (resoFacts : json) (result : ListingData) (jsonKey factKey : string),
        skipped_value (Js.get resoFacts jsonKey) ->
        reso_entry resoFacts result (jsonKey, factKey) = result)
  /\ (forall (resoFacts : json) (result : ListingData) (key : string) (v : json),
        result !! key = Some v -> Js.truthy v = true ->
        reso_pass resoFacts result !! key = Some v)
  /\ (forall (facts : list json) (result result' : ListingData) (key : string) (v : json),
        result !! key = Some v -> Js.truthy v = true ->
        glance_pass facts result = Some result' ->
        result' !! key = Some v).
Proof.
  split; [|split; [|split; [|split]]].
  - intros nextData record key Hex Hsome.
    destruct (Str.strip_prefix "fact_" key) as [name|] eqn:Hk.
    { right. exists name. now apply strip_prefix_Some. }
    left. destruct (extractFromNextData_plain _ _ key Hex Hk) as (p & ph & th & _ & E).
    rewrite E in Hsome. unfold fixed_fields.
    repeat match type of Hsome with
           | is_Some (<[ ?k := _ ]> _ !! key) =>
               destruct (decide (k = key)) as [<-|?];
               [set_solver | rewrite lookup_insert_ne in Hsome by assumption]
           end.
    rewrite lookup_empty in Hsome. now destruct Hsome.
  - intros resoFacts result key. apply reso_entries_written.
  - intros resoFacts result jsonKey factKey Hskip. unfold reso_entry.
    destruct (String.eqb jsonKey "atAGlanceFacts"); [reflexivity|].
    destruct Hskip as [-> | [-> | [-> | ->]]]; reflexivity.
  - intros. now apply reso_pass_keeps.
  - intros. now apply (glance_pass_keeps facts result).
Qed.

Lemma fact_derivation_spec_witness :
  let result : ListingData := {[ "fact_bedrooms" := JStr "3" ]} in
  @reso_pass (Reference.runtime []) (JObj [ ("bedrooms", JNum 4) ]) result !! "fact_bedrooms"
  = Some (JStr "3")
  /\ @reso_entry (Reference.runtime []) (JObj [ ("sewer", JStr "None") ]) result
                 ("sewer", "sewer") = result.
Proof.
  intros result.
  destruct (@fact_derivation_spec (Reference.runtime [])) as (_ & _ & Hskip & Hkeep & _).
  split.
  - apply Hkeep; [apply lookup_singleton_eq | reflexivity].
  - apply Hskip. right. right. right. reflexivity.
Defined.

(** C8 as stated fails: the dictionary pass sets [fact_appliances] to
    the empty string, and the at-a-glance entry then overwrites it. *)
Lemma fact_overwritten :
  let after_dictionary := @reso_pass (Reference.runtime []) no_appliances ∅ in
  after_dictionary !! "fact_appliances" = Some (JStr "")
  /\ exists result,
       @reso_facts (Reference.runtime []) (JObj [ ("resoFacts", no_appliances) ]) ∅
       = Some result
       /\ result !! "fact_appliances" = Some (JStr "Dishwasher").
Proof.
  vm_compute. split; [reflexivity|]. eexists. split; reflexivity.
Qed.

End FieldFacts.

(** ** The batch scheduler: the event loop *)

Module LoopFacts.

Import Spec Scenarios.

Import PageController ListingWorker Orchestrator.

Lemma successes_app (a b : list ScrapeResult) :
  successes (a ++ b) = successes a + successes b.
Proof. unfold successes. now rewrite List.filter_app, length_app. Qed.

(** A slot is replaced in place. *)
Lemma slot_replace (slots : list slot) (k : nat) (old new : slot) :
  slots !! k = Some old ->
  exists before after,
    slots = before ++ old :: after
    /\ <[ k := new ]> slots = before ++ new :: after
    /\ length before = k.
Proof.
  intros Hk. exists (take k slots), (drop (S k) slots).
  pose proof (lookup_lt_Some _ _ _ Hk) as Hlt.
  split; [now rewrite take_drop_middle|].
  split; [now apply insert_take_drop|].
  rewrite length_take. lia.
Qed.

Section WithRuntime.
Context `{JsRuntime}.
Variable maxCount : nat.

Lemma turn_length (acc : Shared * list slot) (t : tick) :
  length (turn maxCount acc t).2 = length acc.2.
Proof.
  destruct acc as [st slots], t as [k|]; cbn [turn snd]; [|reflexivity].
  destruct (slots !! k) as [[r|u [|e pending] out]|]; cbn [snd]; try reflexivity.
  - destruct (settle maxCount st u out). cbn [snd]. apply length_insert.
  - apply length_insert.
Qed.

(** A settled promise keeps its value. *)
Lemma turn_settled (acc : Shared * list slot) (t : tick) (k : nat) (r : ScrapeResult) :
  acc.2 !! k = Some (Settled r) -> (turn maxCount acc t).2 !! k = Some (Settled r).
Proof.
  destruct acc as [st slots], t as [k'|]; cbn [turn snd]; [|easy].
  intros Hk.
  destruct (slots !! k') as [[r'|u [|e pending] out]|] eqn:Hk'; cbn [snd]; try exact Hk.
  - destruct (settle maxCount st u out). cbn [snd].
    rewrite list_lookup_insert_ne; [exact Hk | congruence].
  - rewrite list_lookup_insert_ne; [exact Hk | congruence].
Qed.

Lemma turns_settled (schedule : list tick) (acc : Shared * list slot)
    (k : nat) (r : ScrapeResult) :
  acc.2 !! k = Some (Settled r) ->
  (foldl (turn maxCount) acc schedule).2 !! k = Some (Settled r).
Proof.
  revert acc. induction schedule as [|t schedule IH]; intros acc Hk; [exact Hk|].
  cbn [foldl]. apply IH. now apply turn_settled.
Qed.

Lemma drain_settled (slots : list slot) (st : Shared) (k : nat) (r : ScrapeResult) :
  slots !! k = Some (Settled r) -> (drain maxCount st slots).2 !! k = Some r.
Proof.
  revert st k. induction slots as [|s slots IH]; intros st k Hk; [discriminate|].
  destruct s as [r'|u pending out]; cbn [drain].
  - destruct (drain maxCount st slots) as [st' rs] eqn:E. cbn [snd].
    destruct k as [|k]; [now injection Hk as -> |].
    specialize (IH st k Hk). now rewrite E in IH.
  - destruct (settle maxCount _ u out) as [st1 r1].
    destruct (drain maxCount st1 slots) as [st2 rs] eqn:E. cbn [snd].
    destruct k as [|k]; [discriminate|].
    specialize (IH st1 k Hk). now rewrite E in IH.
Qed.

End WithRuntime.

(** *** A chunk whose workers all return a record *)

Section Chunk.
Context `{JsRuntime}.
Variable maxCount : nat.

Lemma invoked_app (a b : list event) :
  Trace.invoked (a ++ b) = Trace.invoked a ++ Trace.invoked b.
Proof. apply omap_app. Qed.

Lemma limit_reached_mono (st st' : Shared) :
  completed st <= completed st' -> (aborted st = true -> aborted st' = true) ->
  limit_reached maxCount st' = false -> limit_reached maxCount st = false.
Proof.
  unfold limit_reached. intros Hc Ha.
  destruct (aborted st); [now rewrite Ha, orb_true_r|].
  rewrite !orb_false_r.
  destruct (Nat.leb_spec maxCount (completed st')), (Nat.leb_spec maxCount (completed st));
    (reflexivity || discriminate || lia).
Qed.

Lemma settled_replace_running (before after : list slot) (u : string)
    (pending : list event) (out : outcome) (new : slot) :
  settled (before ++ new :: after)
  = settled before ++ settled [new] ++ settled after
  /\ settled (before ++ Running u pending out :: after)
     = settled before ++ settled after.
Proof.
  unfold settled. split.
  - rewrite omap_app. f_equal. now destruct new.
  - now rewrite omap_app.
Qed.

Lemma turn_chunk_inv (us : list string) (c0 : nat) (inv0 : list string)
    (acc : Shared * list slot) (t : tick) :
  chunk_inv maxCount us c0 inv0 acc -> chunk_inv maxCount us c0 inv0 (turn maxCount acc t).
Proof.
  destruct acc as [st slots]. intros [Hs Hc Hcap Hk Hi]. cbn [fst snd] in *.
  destruct t as [k|]; cbn [turn].
  2:{ split; cbn [fst snd signal_abort completed trace]; try assumption.
      unfold limit_reached. cbn. now rewrite orb_true_r. }
  destruct (slots !! k) as [[r|u pending out]|] eqn:Hlk;
    [now split | | now split].
  destruct (Forall2_lookup_r _ _ _ _ _ Hs Hlk) as (u0 & Hu0 & Hfor).
  destruct out as [d|msg]; [|destruct Hfor]. destruct Hfor as [-> Hinv].
  destruct (slot_replace slots k _ (Running u0 (tail pending) (Returned d)) Hlk)
    as (before & after & Eold & Enew & Hlen).
  destruct pending as [|e pending].
  - (* the callback runs *)
    cbn [settle].
    destruct (slot_replace slots k _ (Settled (skipped_mid_scrape u0)) Hlk)
      as (b1 & a1 & E1 & E1' & _).
    destruct (slot_replace slots k _ (Settled (succeeded u0 d)) Hlk)
      as (b2 & a2 & E2 & E2' & _).
    destruct (limit_reached maxCount st) eqn:Hlim; split; cbn [fst snd].
    + rewrite <- (list_insert_id us k u0) by exact Hu0.
      apply Forall2_insert; [exact Hs | now left].
    + rewrite E1'. rewrite E1 in Hc.
      destruct (settled_replace_running b1 a1 u0 [] (Returned d)
                  (Settled (skipped_mid_scrape u0))) as [-> E].
      rewrite E in Hc. rewrite !successes_app. rewrite successes_app in Hc.
      cbn. lia.
    + exact Hcap.
    + intros Hl. congruence.
    + exact Hi.
    + rewrite <- (list_insert_id us k u0) by exact Hu0.
      apply Forall2_insert; [exact Hs | right; now exists d].
    + rewrite E2'. rewrite E2 in Hc.
      destruct (settled_replace_running b2 a2 u0 [] (Returned d)
                  (Settled (succeeded u0 d))) as [-> E].
      rewrite E in Hc. rewrite !successes_app. rewrite successes_app in Hc.
      cbn. lia.
    + cbn. unfold limit_reached in Hlim. apply orb_false_elim in Hlim as [Hlt _].
      apply Nat.leb_gt in Hlt. lia.
    + intros _. rewrite E2'. rewrite E2 in Hk.
      destruct (settled_replace_running b2 a2 u0 [] (Returned d)
                  (Settled (succeeded u0 d))) as [-> E].
      rewrite E in Hk. specialize (Hk eq_refl).
      apply Forall_app in Hk as [Hb Ha].
      apply Forall_app. split; [exact Hb|]. apply Forall_app. split; [|exact Ha].
      now constructor.
    + exact Hi.
  - (* the worker makes its next call *)
    cbn [tail] in Enew.
    assert (Es : settled (<[ k := Running u0 pending (Returned d) ]> slots) = settled slots).
    { rewrite Enew, Eold.
      destruct (settled_replace_running before after u0 pending (Returned d)
                  (Running u0 pending (Returned d))) as [-> _].
      destruct (settled_replace_running before after u0 (e :: pending) (Returned d)
                  (Running u0 pending (Returned d))) as [_ ->].
      reflexivity. }
    split; cbn [fst snd emit completed trace aborted].
    + rewrite <- (list_insert_id us k u0) by exact Hu0.
      apply Forall2_insert; [exact Hs|]. split; [reflexivity|].
      change (e :: pending) with ([e] ++ pending) in Hinv.
      rewrite invoked_app in Hinv. now apply app_eq_nil in Hinv.
    + now rewrite Es.
    + exact Hcap.
    + rewrite Es. exact Hk.
    + rewrite invoked_app.
      change (e :: pending) with ([e] ++ pending) in Hinv.
      rewrite invoked_app in Hinv. apply app_eq_nil in Hinv as [-> _].
      now rewrite app_nil_r.
Qed.

Lemma turns_chunk_inv (us : list string) (c0 : nat) (inv0 : list string)
    (schedule : list tick) (acc : Shared * list slot) :
  chunk_inv maxCount us c0 inv0 acc -> chunk_inv maxCount us c0 inv0 (foldl (turn maxCount) acc schedule).
Proof.
  revert acc. induction schedule as [|t schedule IH]; intros acc Hacc; [exact Hacc|].
  cbn [foldl]. apply IH. now apply turn_chunk_inv.
Qed.

(** A worker calls the provider and the browser, never the scheduler. *)
Lemma worker_invokes_nothing (sid : nat) (u : string) (ws : WorkerScript) :
  Trace.invoked (scrapeListingPage sid u ws).2 = [].
Proof.
  unfold scrapeListingPage, SteelClient.createSteelSession, SteelClient.releaseSteelSession.
  destruct (ws_acquire ws); [|reflexivity].
  destruct (scrape_with sid u ws) as [out t] eqn:E. cbn [fst snd].
  assert (Ht : t = [EvGoto sid u]).
  { revert E. unfold scrape_with.
    destruct (ws_goto ws); cbn [negb]; [|congruence].
    destruct (ws_nextData ws) as [nd|]; [|congruence].
    destruct (tier1 u nd); [congruence|].
    destruct (ws_scroll ws); cbn [negb]; [|congruence].
    destruct (ws_dom ws); congruence. }
  now subst t.
Qed.

Lemma dispatch_all_spec (scripts : nat -> WorkerScript) (us : list string) :
  forall (i : nat) (st : Shared) (slots : list slot) (us0 : list string),
    limit_reached maxCount st = false ->
    all_return scripts i us ->
    Forall2 slot_for us0 slots ->
    let acc := dispatch_all maxCount scripts (st, slots) i us in
    Forall2 slot_for (us0 ++ us) acc.2
    /\ completed acc.1 = completed st
    /\ aborted acc.1 = aborted st
    /\ settled acc.2 = settled slots
    /\ Trace.invoked (trace acc.1) = Trace.invoked (trace st) ++ us.
Proof.
  induction us as [|u us IH]; intros i st slots us0 Hlim Hret Hs acc.
  - subst acc. cbn. now rewrite !app_nil_r.
  - subst acc. cbn [dispatch_all dispatch]. rewrite Hlim.
    destruct (Hret 0 u (next_sid st) eq_refl) as [d Hd].
    rewrite Nat.add_0_r in Hd.
    pose proof (worker_invokes_nothing (next_sid st) u (scripts i)) as Hno.
    destruct (scrapeListingPage (next_sid st) u (scripts i)) as [out evs].
    cbn [fst snd] in Hd, Hno. subst out.
    set (st1 := if ws_acquire (scripts i) then take_sid (emit [EvInvoke u] st)
                else emit [EvInvoke u] st).
    assert (Hst1 : completed st1 = completed st /\ aborted st1 = aborted st
                   /\ trace st1 = trace st ++ [EvInvoke u])
      by (subst st1; now destruct (ws_acquire (scripts i))).
    destruct Hst1 as (Hc1 & Ha1 & Ht1).
    destruct (IH (S i) st1 (slots ++ [Running u evs (Returned d)]) (us0 ++ [u]))
      as (Hs' & Hc' & Ha' & Hset' & Hinv').
    + unfold limit_reached in *. now rewrite Hc1, Ha1.
    + intros k u' sid Hk. specialize (Hret (S k) u' sid Hk).
      now replace (S i + k) with (i + S k) by lia.
    + apply Forall2_app; [exact Hs|]. constructor; [|constructor]. now split.
    + rewrite <- app_assoc in Hs'. split; [exact Hs'|].
      split; [congruence|]. split; [congruence|]. split.
      * rewrite Hset'. unfold settled. rewrite omap_app. cbn. now rewrite app_nil_r.
      * rewrite Hinv', Ht1, invoked_app, <- app_assoc. reflexivity.
Qed.

(** What [drain] does to a chunk of that kind. *)
Lemma drain_spec (us : list string) (slots : list slot) :
  Forall2 slot_for us slots ->
  forall st : Shared,
    completed st <= maxCount ->
    (limit_reached maxCount st = false -> all_success (settled slots)) ->
    let out := drain maxCount st slots in
    Forall2 result_for us out.2
    /\ completed out.1 + successes (settled slots) = completed st + successes out.2
    /\ completed st <= completed out.1 <= maxCount
    /\ aborted out.1 = aborted st
    /\ (limit_reached maxCount out.1 = false -> all_success out.2)
    /\ Trace.invoked (trace out.1) = Trace.invoked (trace st).
Proof.
  induction 1 as [|u s us slots Hfor Hs IH]; intros st Hcap Hk out.
  - subst out. cbn. repeat split; (lia || constructor || idtac).
  - subst out. destruct s as [r|u' pending [d|msg]]; cbn [drain]; [| |destruct Hfor].
    + destruct (IH st Hcap) as (Hrs & Hc & Hle & Ha & Hall & Hinv).
      { intros Hl. specialize (Hk Hl). now inversion Hk. }
      destruct (drain maxCount st slots) as [st' rs]. cbn [fst snd] in *.
      split; [now constructor|].
      change (settled (Settled r :: slots)) with ([r] ++ settled slots).
      change (r :: rs) with ([r] ++ rs). rewrite !successes_app.
      split; [lia|]. split; [exact Hle|]. split; [exact Ha|]. split; [|exact Hinv].
      intros Hl. constructor; [|now apply Hall].
      assert (Hl0 : limit_reached maxCount st = false).
      { apply (limit_reached_mono st st'); [lia | congruence | exact Hl]. }
      specialize (Hk Hl0). now inversion Hk.
    + destruct Hfor as [-> Hno]. cbn [settle].
      change (settled (Running u pending (Returned d) :: slots)) with (settled slots) in *.
      destruct (limit_reached maxCount (emit pending st)) eqn:Hlim.
      * destruct (IH (emit pending st) Hcap) as (Hrs & Hc & Hle & Ha & Hall & Hinv).
        { intros Hl. congruence. }
        destruct (drain maxCount (emit pending st) slots) as [st' rs].
        cbn [fst snd emit completed aborted trace] in *.
        split; [constructor; [now left | exact Hrs]|].
        change (skipped_mid_scrape u :: rs) with ([skipped_mid_scrape u] ++ rs).
        rewrite successes_app. cbn.
        split; [lia|]. split; [exact Hle|]. split; [exact Ha|]. split.
        -- intros Hl. exfalso.
           assert (limit_reached maxCount (emit pending st) = false); [|congruence].
           apply (limit_reached_mono _ st'); [cbn; lia | cbn; congruence | exact Hl].
        -- now rewrite Hinv, invoked_app, Hno, app_nil_r.
      * assert (Hlt : completed st < maxCount).
        { unfold limit_reached in Hlim. apply orb_false_elim in Hlim as [Hlt _].
          apply Nat.leb_gt in Hlt. exact Hlt. }
        destruct (IH (count_one (emit pending st))) as (Hrs & Hc & Hle & Ha & Hall & Hinv).
        { cbn. lia. }
        { intros _. apply Hk. exact Hlim. }
        destruct (drain maxCount (count_one (emit pending st)) slots) as [st' rs].
        cbn [fst snd emit count_one completed aborted trace] in *.
        split; [constructor; [right; now exists d | exact Hrs]|].
        change (succeeded u d :: rs) with ([succeeded u d] ++ rs).
        rewrite successes_app. cbn.
        split; [lia|]. split; [lia|]. split; [exact Ha|]. split.
        -- intros Hl. constructor; [reflexivity | now apply Hall].
        -- now rewrite Hinv, invoked_app, Hno, app_nil_r.
Qed.

Lemma run_chunk_returning (scripts : nat -> WorkerScript) (schedule : list tick)
    (st : Shared) (i : nat) (us : list string) :
  limit_reached maxCount st = false ->
  all_return scripts i us ->
  let out := run_chunk maxCount scripts schedule st i us in
  Forall2 result_for us out.2
  /\ completed out.1 = completed st + successes out.2
  /\ completed out.1 <= maxCount
  /\ (limit_reached maxCount out.1 = false -> all_success out.2)
  /\ Trace.invoked (trace out.1) = Trace.invoked (trace st) ++ us.
Proof.
  intros Hlim Hret out. subst out. unfold run_chunk.
  destruct (dispatch_all_spec scripts us i st [] [] Hlim Hret)
    as (Hs & Hc & Ha & Hset & Hinv); [constructor|].
  set (acc := dispatch_all maxCount scripts (st, []) i us) in *.
  assert (Hacc : chunk_inv maxCount us (completed st) (Trace.invoked (trace st) ++ us) acc).
  { split; rewrite ?Hset; cbn; try assumption.
    - lia.
    - rewrite Hc. unfold limit_reached in Hlim. apply orb_false_elim in Hlim as [Hlt _].
      apply Nat.leb_gt in Hlt. lia.
    - constructor. }
  apply (turns_chunk_inv _ _ _ schedule) in Hacc.
  destruct (foldl (turn maxCount) acc schedule) as [st' slots].
  destruct Hacc as [Hs' Hc' Hcap' Hk' Hi']. cbn [fst snd] in *.
  destruct (drain_spec us slots Hs' st' Hcap' Hk') as (Hrs & Hcount & Hle & _ & Hall & Hinv').
  destruct (drain maxCount st' slots) as [st'' rs]. cbn [fst snd] in *.
  split; [exact Hrs|]. split; [lia|]. split; [lia|]. split; [exact Hall|].
  congruence.
Qed.

(** The bound on the iterations of the loop over the chunks never cuts
    it short: any bound that is at least the number of URLs left gives
    the same run. *)
Lemma batch_loop_fuel (scripts : nat -> WorkerScript) (schedules : nat -> list tick)
    (fuel : nat) :
  forall (fuel' i : nat) (rest : list string) (st : Shared) (allResults : list ScrapeResult),
    length rest <= fuel -> length rest <= fuel' ->
    batch_loop fuel maxCount scripts schedules i rest st allResults
    = batch_loop fuel' maxCount scripts schedules i rest st allResults.
Proof.
  induction fuel as [|fuel IH]; intros fuel' i rest st allResults Hf Hf'.
  - destruct rest; [now destruct fuel' | cbn in Hf; lia].
  - destruct rest as [|u rest]; [now destruct fuel'|].
    destruct fuel' as [|fuel']; [cbn in Hf'; lia|].
    cbn [batch_loop]. destruct (limit_reached maxCount st); [reflexivity|].
    destruct (run_chunk maxCount scripts _ st i _) as [st' settled'].
    apply IH; rewrite length_drop; cbn [length] in *; unfold BATCH_CONCURRENCY; lia.
Qed.

End Chunk.

(** *** Workers that return when the batch has stopped counting *)

Section Discard.
Context `{JsRuntime}.
Variable maxCount : nat.

Lemma limit_reached_emit (evs : list event) (st : Shared) :
  limit_reached maxCount (emit evs st) = limit_reached maxCount st.
Proof. reflexivity. Qed.

Lemma doomed_settled (u : string) (r : ScrapeResult) :
  Terms.doomed u (Settled r) -> r = skipped_mid_scrape u.
Proof. intros [(pending & d & [=])|[= ->]]. reflexivity. Qed.

Lemma doomed_running (u u' : string) (pending : list event) (out : outcome) :
  Terms.doomed u (Running u' pending out) -> u' = u /\ exists d, out = Returned d.
Proof. intros [(p & d & [= -> _ ->])|[=]]. split; [reflexivity | now exists d]. Qed.

(** Once the limit is reached it stays reached, the counter stands
    still, and a worker on its way to a record can only end up with
    its record dropped. *)
Lemma turn_stopped (acc : Shared * list slot) (t : tick) :
  limit_reached maxCount acc.1 = true ->
  limit_reached maxCount (turn maxCount acc t).1 = true
  /\ completed (turn maxCount acc t).1 = completed acc.1
  /\ forall k u s, acc.2 !! k = Some s -> Terms.doomed u s ->
       exists s', (turn maxCount acc t).2 !! k = Some s' /\ Terms.doomed u s'.
Proof.
  destruct acc as [st slots]. cbn [fst snd]. intros Hlim.
  destruct t as [j|]; cbn [turn].
  2:{ cbn [fst snd]. split; [unfold limit_reached; cbn; apply orb_true_r|].
      split; [reflexivity|]. intros k u s Hk Hd. now exists s. }
  destruct (slots !! j) as [[r|u' [|e pending] out]|] eqn:Hj; cbn [fst snd].
  - split; [exact Hlim|]. split; [reflexivity|]. intros k u s Hk Hd. now exists s.
  - assert (Hst : (settle maxCount st u' out).1 = st)
      by (unfold settle; destruct out; [now rewrite Hlim | reflexivity]).
    destruct (settle maxCount st u' out) as [st' r] eqn:Es. cbn [fst snd] in *. subst st'.
    split; [exact Hlim|]. split; [reflexivity|]. intros k u s Hk Hd.
    destruct (decide (k = j)) as [->|Hne].
    + rewrite Hj in Hk. injection Hk as <-.
      destruct (doomed_running _ _ _ _ Hd) as [-> [d ->]].
      cbn [settle] in Es. rewrite Hlim in Es. injection Es as <-.
      exists (Settled (skipped_mid_scrape u)).
      split; [apply list_lookup_insert_eq; now apply lookup_lt_Some in Hj | now right].
    + exists s. split; [|exact Hd]. rewrite list_lookup_insert_ne; [exact Hk | congruence].
  - split; [exact Hlim|]. split; [reflexivity|]. intros k u s Hk Hd.
    destruct (decide (k = j)) as [->|Hne].
    + rewrite Hj in Hk. injection Hk as <-.
      destruct (doomed_running _ _ _ _ Hd) as [-> [d ->]].
      exists (Running u pending (Returned d)).
      split; [apply list_lookup_insert_eq; now apply lookup_lt_Some in Hj|].
      left. now exists pending, d.
    + exists s. split; [|exact Hd]. rewrite list_lookup_insert_ne; [exact Hk | congruence].
  - split; [exact Hlim|]. split; [reflexivity|]. intros k u s Hk Hd. now exists s.
Qed.

Lemma turns_stopped (schedule : list tick) (acc : Shared * list slot) :
  limit_reached maxCount acc.1 = true ->
  limit_reached maxCount (foldl (turn maxCount) acc schedule).1 = true
  /\ completed (foldl (turn maxCount) acc schedule).1 = completed acc.1
  /\ forall k u s, acc.2 !! k = Some s -> Terms.doomed u s ->
       exists s', (foldl (turn maxCount) acc schedule).2 !! k = Some s' /\ Terms.doomed u s'.
Proof.
  revert acc. induction schedule as [|t schedule IH]; intros acc Hlim.
  - split; [exact Hlim|]. split; [reflexivity|]. intros k u s Hk Hd. now exists s.
  - cbn [foldl]. destruct (turn_stopped acc t Hlim) as (Hlim1 & Hc1 & Hd1).
    destruct (IH _ Hlim1) as (Hlim2 & Hc2 & Hd2).
    split; [exact Hlim2|]. split; [congruence|]. intros k u s Hk Hd.
    destruct (Hd1 k u s Hk Hd) as (s1 & Hk1 & Hds1). now apply (Hd2 k u s1).
Qed.

Lemma drain_stopped (slots : list slot) :
  forall st : Shared,
    limit_reached maxCount st = true ->
    limit_reached maxCount (drain maxCount st slots).1 = true
    /\ completed (drain maxCount st slots).1 = completed st
    /\ forall k u s, slots !! k = Some s -> Terms.doomed u s ->
         (drain maxCount st slots).2 !! k = Some (skipped_mid_scrape u).
Proof.
  induction slots as [|s0 slots IH]; intros st Hlim.
  - split; [exact Hlim|]. split; [reflexivity|]. intros k u s Hk. discriminate.
  - destruct s0 as [r|u' pending out]; cbn [drain].
    + destruct (IH st Hlim) as (Hl & Hc & Hd).
      destruct (drain maxCount st slots) as [st' rs]. cbn [fst snd] in *.
      split; [exact Hl|]. split; [exact Hc|]. intros [|k] u s Hk Hds.
      * injection Hk as <-. now rewrite (doomed_settled _ _ Hds).
      * now apply (Hd k u s).
    + assert (Hst : (settle maxCount (emit pending st) u' out).1 = emit pending st).
      { unfold settle. destruct out; [|reflexivity].
        now rewrite limit_reached_emit, Hlim. }
      destruct (settle maxCount (emit pending st) u' out) as [st1 r] eqn:Es.
      cbn [fst] in Hst. subst st1.
      destruct (IH (emit pending st) Hlim) as (Hl & Hc & Hd).
      destruct (drain maxCount (emit pending st) slots) as [st' rs]. cbn [fst snd] in *.
      split; [exact Hl|]. split; [exact Hc|]. intros [|k] u s Hk Hds.
      * injection Hk as <-. destruct (doomed_running _ _ _ _ Hds) as [-> [d ->]].
        cbn [settle] in Es. rewrite limit_reached_emit, Hlim in Es. now injection Es as <-.
      * now apply (Hd k u s).
Qed.

Lemma dispatch_all_length (scripts : nat -> WorkerScript) (us : list string) :
  forall (i : nat) (st : Shared) (slots : list slot),
    length (dispatch_all maxCount scripts (st, slots) i us).2 = length slots + length us.
Proof.
  induction us as [|u us IH]; intros i st slots; cbn [dispatch_all dispatch].
  - cbn. lia.
  - destruct (limit_reached maxCount st).
    + rewrite IH, length_app. cbn. lia.
    + destruct (scrapeListingPage (next_sid st) u (scripts i)) as [out evs].
      rewrite IH, length_app. cbn. lia.
Qed.

(** Workers dispatched when the limit is reached are not started. *)
Lemma dispatch_all_stopped (scripts : nat -> WorkerScript) (us : list string) :
  forall (i : nat) (st : Shared) (slots : list slot),
    limit_reached maxCount st = true ->
    Forall (fun s => exists r, s = Settled r) slots ->
    Forall (fun s => exists r, s = Settled r) (dispatch_all maxCount scripts (st, slots) i us).2.
Proof.
  induction us as [|u us IH]; intros i st slots Hlim Hs; cbn [dispatch_all dispatch].
  - exact Hs.
  - rewrite Hlim. apply IH; [exact Hlim|]. apply Forall_app. split; [exact Hs|].
    constructor; [now eexists | constructor].
Qed.

Lemma turns_length (schedule : list tick) (acc : Shared * list slot) :
  length (foldl (turn maxCount) acc schedule).2 = length acc.2.
Proof.
  revert acc. induction schedule as [|t schedule IH]; intros acc; [reflexivity|].
  cbn [foldl]. now rewrite IH, turn_length.
Qed.

Lemma drain_length (slots : list slot) (st : Shared) :
  length (drain maxCount st slots).2 = length slots.
Proof.
  revert st. induction slots as [|s slots IH]; intros st; [reflexivity|].
  destruct s as [r|u pending out]; cbn [drain].
  - specialize (IH st). destruct (drain maxCount st slots). cbn in *. now rewrite IH.
  - destruct (settle maxCount _ u out) as [st1 r].
    specialize (IH st1). destruct (drain maxCount st1 slots). cbn in *. now rewrite IH.
Qed.

Lemma run_chunk_length (scripts : nat -> WorkerScript) (schedule : list tick)
    (st : Shared) (i : nat) (us : list string) :
  length (run_chunk maxCount scripts schedule st i us).2 = length us.
Proof.
  unfold run_chunk.
  pose proof (turns_length schedule (dispatch_all maxCount scripts (st, []) i us)) as Hl.
  destruct (foldl _ _ schedule) as [st' slots]. cbn [snd] in Hl.
  now rewrite drain_length, Hl, dispatch_all_length.
Qed.

Lemma batch_loop_stopped (scripts : nat -> WorkerScript) (schedules : nat -> list tick)
    (fuel i : nat) (rest : list string) (st : Shared) (allResults : list ScrapeResult) :
  limit_reached maxCount st = true ->
  batch_loop fuel maxCount scripts schedules i rest st allResults = (st, allResults).
Proof.
  intros Hlim. destruct fuel, rest; cbn [batch_loop]; try reflexivity. now rewrite Hlim.
Qed.

(** The loop run for [c + f] turns is the loop run for [c] turns and
    then for [f] more. *)
Lemma batch_loop_split (scripts : nat -> WorkerScript) (schedules : nat -> list tick)
    (f c : nat) :
  forall (i : nat) (rest : list string) (st : Shared) (allResults : list ScrapeResult),
    batch_loop (c + f) maxCount scripts schedules i rest st allResults
    = let before := batch_loop c maxCount scripts schedules i rest st allResults in
      batch_loop f maxCount scripts schedules (i + c * BATCH_CONCURRENCY)
                 (drop (c * BATCH_CONCURRENCY) rest) before.1 before.2.
Proof.
  induction c as [|c IH]; intros i rest st allResults.
  - cbn [Nat.add Nat.mul drop batch_loop fst snd]. now rewrite Nat.add_0_r.
  - cbv zeta. destruct rest as [|u rest].
    + cbn [Nat.add batch_loop fst snd]. rewrite drop_nil. now destruct f.
    + cbn [Nat.add batch_loop]. destruct (limit_reached maxCount st) eqn:Hlim.
      * cbn [fst snd]. now rewrite batch_loop_stopped.
      * destruct (run_chunk maxCount scripts _ st i _) as [st' rs].
        rewrite IH. cbv zeta. rewrite drop_drop.
        replace (i + BATCH_CONCURRENCY + c * BATCH_CONCURRENCY)
          with (i + S c * BATCH_CONCURRENCY) by lia.
        now replace (BATCH_CONCURRENCY + c * BATCH_CONCURRENCY)
          with (S c * BATCH_CONCURRENCY) by lia.
Qed.

(** When the loop has made [c] turns without reaching the limit and
    URLs are left, it has reported [c] full chunks. *)
Lemma batch_loop_full (scripts : nat -> WorkerScript) (schedules : nat -> list tick)
    (c : nat) :
  forall (i : nat) (rest : list string) (st : Shared) (allResults : list ScrapeResult),
    limit_reached maxCount
      (batch_loop c maxCount scripts schedules i rest st allResults).1 = false ->
    drop (c * BATCH_CONCURRENCY) rest <> [] ->
    length (batch_loop c maxCount scripts schedules i rest st allResults).2
    = length allResults + c * BATCH_CONCURRENCY.
Proof.
  induction c as [|c IH]; intros i rest st allResults Hlim Hleft.
  - cbn. lia.
  - destruct rest as [|u rest]; [now rewrite drop_nil in Hleft|].
    cbn [batch_loop] in *. destruct (limit_reached maxCount st) eqn:Hst.
    + cbn [fst] in Hlim. congruence.
    + pose proof (run_chunk_length scripts (schedules (i / BATCH_CONCURRENCY)) st i
                    (take BATCH_CONCURRENCY (u :: rest))) as Hlen.
      destruct (run_chunk maxCount scripts _ st i _) as [st' rs]. cbn [snd] in Hlen.
      rewrite IH; [| exact Hlim |].
      * rewrite length_app, Hlen, length_take.
        assert (Hlong : S c * BATCH_CONCURRENCY < length (u :: rest)).
        { destruct (Nat.lt_ge_cases (S c * BATCH_CONCURRENCY) (length (u :: rest)))
            as [Hlt|Hge]; [exact Hlt|].
          now rewrite drop_ge in Hleft. }
        unfold BATCH_CONCURRENCY in *. lia.
      * rewrite drop_drop.
        now replace (BATCH_CONCURRENCY + c * BATCH_CONCURRENCY)
          with (S c * BATCH_CONCURRENCY) by lia.
Qed.

End Discard.

(** C10.  In a run of [scrapeListingsBatch], take the chunk number [c]
    at the moment when its workers have been dispatched and the event
    loop has made some of the turns of its schedule.  If by then the
    counter has reached the cap or the job has been cancelled, every
    worker of the chunk that is still on its way to a record [d],
    whether it resumes in a later turn or runs to its end when the
    chunk is awaited, has that record dropped: its callback settles
    with the outcome that has [success = false], no data and the
    message of a skip in mid-scrape, this outcome is the one the batch
    reports at the place of the worker, and the counter of the batch
    ends where it stood at that moment. *)
Theorem discarded_after_limit `{JsRuntime} (urls : list string)
    (scripts : nat -> WorkerScript) (schedules : nat -> list tick) (w : Shared)
    (currentCount maxCount c : nat) (turns later : list tick)
    (k : nat) (u : string) (pending : list event) (d : ListingData) :
  let flight := Terms.chunk_in_flight c turns urls scripts schedules w currentCount maxCount in
  let out := scrapeListingsBatch urls scripts schedules w currentCount maxCount in
  schedules c = turns ++ later ->
  flight.2 !! k = Some (Running u pending (Returned d)) ->
  limit_reached maxCount flight.1 = true ->
  settle maxCount (emit pending flight.1) u (Returned d)
  = (emit pending flight.1, skipped_mid_scrape u)
  /\ out.2 !! (c * BATCH_CONCURRENCY + k) = Some (skipped_mid_scrape u)
  /\ completed out.1 = completed flight.1
  /\ success (skipped_mid_scrape u) = false
  /\ data (skipped_mid_scrape u) = None
  /\ error (skipped_mid_scrape u) = Some "Skipped — limit reached mid-scrape".
Proof.
  intros flight out Hsched Hk Hlim.
  split; [cbn [settle]; now rewrite limit_reached_emit, Hlim|].
  assert (Hgoal : out.2 !! (c * BATCH_CONCURRENCY + k) = Some (skipped_mid_scrape u)
                  /\ completed out.1 = completed flight.1); [|easy].
  subst flight out. unfold Terms.chunk_in_flight, Terms.after_chunks in *.
  unfold scrapeListingsBatch. cbv zeta in *.
  set (st0 := {| completed := currentCount; aborted := aborted w;
                 next_sid := next_sid w; trace := trace w |}) in *.
  set (before := batch_loop c maxCount scripts schedules 0 urls st0 []) in *.
  set (chunk := take BATCH_CONCURRENCY (drop (c * BATCH_CONCURRENCY) urls)) in *.
  set (dispatched := dispatch_all maxCount scripts (before.1, []) (c * BATCH_CONCURRENCY) chunk)
    in *.
  (* the chunk was started *)
  assert (Hstart : limit_reached maxCount before.1 = false).
  { destruct (limit_reached maxCount before.1) eqn:E; [exfalso | reflexivity].
    pose proof (dispatch_all_stopped maxCount scripts chunk (c * BATCH_CONCURRENCY)
                  before.1 [] E ltac:(constructor)) as Hall.
    fold dispatched in Hall.
    assert (Hlt : k < length dispatched.2).
    { rewrite <- (turns_length maxCount turns). now apply lookup_lt_Some in Hk. }
    destruct (lookup_lt_is_Some_2 _ _ Hlt) as [s Hs].
    rewrite Forall_forall in Hall.
    destruct (Hall s) as [r ->]; [now apply list_elem_of_lookup_2 in Hs|].
    rewrite (turns_settled maxCount turns dispatched k r Hs) in Hk. discriminate. }
  assert (Hleft : drop (c * BATCH_CONCURRENCY) urls <> []).
  { intros E. subst chunk dispatched. rewrite E in Hk.
    apply lookup_lt_Some in Hk. rewrite turns_length in Hk. cbn in Hk. lia. }
  assert (Hfuel : exists f, length urls = c + S f).
  { exists (length urls - S c).
    destruct (Nat.lt_ge_cases (c * BATCH_CONCURRENCY) (length urls)) as [Hlt|Hge];
      [unfold BATCH_CONCURRENCY in Hlt; lia | now rewrite drop_ge in Hleft]. }
  destruct Hfuel as [f ->].
  rewrite (batch_loop_split maxCount scripts schedules (S f) c). cbv zeta. fold before.
  pose proof (batch_loop_full maxCount scripts schedules c 0 urls st0 [] Hstart Hleft)
    as Hlen. fold before in Hlen. cbn [length Nat.add] in Hlen.
  destruct (drop (c * BATCH_CONCURRENCY) urls) as [|u0 rest] eqn:Hdrop; [congruence|].
  cbn [batch_loop]. rewrite Hstart. cbn [Nat.add].
  rewrite Nat.div_mul by discriminate. rewrite Hsched.
  fold chunk. unfold run_chunk. fold dispatched. rewrite foldl_app.
  destruct (turns_stopped maxCount later _ Hlim) as (Hlim1 & Hc1 & Hd1).
  destruct (Hd1 k u _ Hk) as (s' & Hk' & Hds'); [left; now exists pending, d|].
  destruct (foldl (turn maxCount) (foldl (turn maxCount) dispatched turns) later)
    as [st1 slots1].
  cbn [fst snd] in *.
  destruct (drain_stopped maxCount slots1 st1 Hlim1) as (Hlim2 & Hc2 & Hd2).
  specialize (Hd2 k u s' Hk' Hds').
  destruct (drain maxCount st1 slots1) as [st2 rs]. cbn [fst snd] in *.
  rewrite batch_loop_stopped by exact Hlim2. cbn [fst snd].
  split; [|congruence].
  rewrite lookup_app_r by lia. now replace (c * BATCH_CONCURRENCY + k - length before.2) with k by lia.
Qed.

Lemma discarded_after_limit_witness :
  let one_done := fun _ : nat => [Resume 0; Resume 0; Resume 0; Resume 0] in
  let at_cap := @scrapeListingsBatch (Reference.runtime []) seven_urls
                  (fun _ => bare_page) one_done fresh_world 99 100 in
  let cancelled := @scrapeListingsBatch (Reference.runtime []) seven_urls
                     (fun _ => bare_page) (fun _ => [Cancel]) fresh_world 0 100 in
  (map success at_cap.2 = [true; false; false; false; false]
   /\ at_cap.2 !! 1 = Some (skipped_mid_scrape "https://z/homedetails/2_zpid/")
   /\ completed at_cap.1 = 100)
  /\ (cancelled.2 !! 0 = Some (skipped_mid_scrape "https://z/homedetails/1_zpid/")
      /\ completed cancelled.1 = 0).
Proof.
  intros one_done at_cap cancelled. split.
  - edestruct (@discarded_after_limit (Reference.runtime []) seven_urls
                 (fun _ => bare_page) one_done fresh_world 99 100 0
                 [Resume 0; Resume 0; Resume 0; Resume 0] [] 1
                 "https://z/homedetails/2_zpid/") as (_ & Hout & Hc & _);
      [reflexivity | reflexivity | reflexivity |].
    split; [vm_compute; reflexivity|]. split; [exact Hout|].
    fold at_cap in Hc. rewrite Hc. reflexivity.
  - edestruct (@discarded_after_limit (Reference.runtime []) seven_urls
                 (fun _ => bare_page) (fun _ => [Cancel]) fresh_world 0 100 0
                 [Cancel] [] 0 "https://z/homedetails/1_zpid/") as (_ & Hout & Hc & _);
      [reflexivity | reflexivity | reflexivity |].
    split; [exact Hout|]. fold cancelled in Hc. rewrite Hc. reflexivity.
Defined.

Lemma result_for_url (u : string) (r : ScrapeResult) : result_for u r -> url r = u.
Proof. now intros [-> | [d ->]]. Qed.

Lemma all_success_count (rs : list ScrapeResult) :
  all_success rs -> successes rs = length rs.
Proof.
  unfold successes. induction 1 as [|r rs Hr _ IH]; [reflexivity|].
  cbn. rewrite Hr. cbn. now rewrite IH.
Qed.

(** C3, as the code has it.  In a batch of 7 URLs run with the counter
    two below the cap, the job not cancelled, and workers that all
    return a record: the check before dispatch finds the counter below
    the cap for each of the five workers of the first chunk, so
    [scrapeListingPage] is called for all five; every one of them is
    reported either as a success or as skipped in mid-scrape, at most
    two as successes and exactly two unless the job is cancelled
    meanwhile; the second chunk is not started, so the last two URLs
    are neither given to a worker nor reported. *)
Theorem batch_of_seven `{JsRuntime} (maxCount : nat) (urls : list string)
    (scripts : nat -> WorkerScript) (schedules : nat -> list tick) (w : Shared) :
  length urls = 7 -> 2 <= maxCount -> aborted w = false ->
  all_return scripts 0 (take BATCH_CONCURRENCY urls) ->
  let out := scrapeListingsBatch urls scripts schedules w (maxCount - 2) maxCount in
  Trace.invoked (trace out.1) = Trace.invoked (trace w) ++ take BATCH_CONCURRENCY urls
  /\ map url out.2 = take BATCH_CONCURRENCY urls
  /\ Forall (fun r => result_for (url r) r) out.2
  /\ successes out.2 <= 2
  /\ (aborted out.1 = false -> successes out.2 = 2).
Proof.
  intros Hlen Hmax Hab Hret out. subst out. unfold scrapeListingsBatch.
  set (st := {| completed := maxCount - 2; aborted := aborted w;
                next_sid := next_sid w; trace := trace w |}).
  assert (Hlim : limit_reached maxCount st = false).
  { unfold limit_reached. cbn. rewrite Hab, orb_false_r. apply Nat.leb_gt. lia. }
  destruct urls as [|u0 [|u1 [|u2 [|u3 [|u4 [|u5 [|u6 [|]]]]]]]]; try discriminate.
  cbn [length batch_loop]. rewrite Hlim.
  pose proof (run_chunk_returning maxCount scripts (schedules (0 / BATCH_CONCURRENCY)) st 0
                (take BATCH_CONCURRENCY [u0; u1; u2; u3; u4; u5; u6]) Hlim Hret)
    as (Hrs & Hc & Hcap & Hall & Hinv).
  destruct (run_chunk maxCount scripts _ st 0 _) as [st' rs]. cbn [fst snd] in *.
  assert (Hfive : length rs = 5) by (apply Forall2_length in Hrs; now rewrite <- Hrs).
  assert (Hst : completed st = maxCount - 2) by reflexivity.
  assert (Hstop : limit_reached maxCount st' = true).
  { destruct (limit_reached maxCount st') eqn:E; [reflexivity|].
    specialize (Hall eq_refl). apply all_success_count in Hall. exfalso. lia. }
  change (drop BATCH_CONCURRENCY [u0; u1; u2; u3; u4; u5; u6]) with [u5; u6].
  rewrite Hstop. cbn [fst snd app].
  split; [exact Hinv|]. split.
  { clear -Hrs. induction Hrs as [|u r us rs Hr _ IH]; [reflexivity|].
    cbn. f_equal; [now apply result_for_url | exact IH]. }
  split.
  { clear -Hrs. induction Hrs as [|u r us rs Hr _ IH]; constructor; [|exact IH].
    now rewrite (result_for_url _ _ Hr). }
  split; [lia|].
  intros Hlive. unfold limit_reached in Hstop. rewrite Hlive, orb_false_r in Hstop.
  apply Nat.leb_le in Hstop. lia.
Qed.

Lemma batch_of_seven_witness :
  let out := @scrapeListingsBatch (Reference.runtime []) seven_urls
               (fun _ => bare_page) (fun _ => []) fresh_world (100 - 2) 100 in
  Trace.invoked (trace out.1) = take 5 seven_urls /\ successes out.2 = 2.
Proof.
  intros out.
  assert (Hret : @all_return (Reference.runtime []) (fun _ => bare_page) 0
                   (take BATCH_CONCURRENCY seven_urls)).
  { intros k u sid _. eexists. reflexivity. }
  destruct (@batch_of_seven (Reference.runtime []) 100 seven_urls
              (fun _ => bare_page) (fun _ => []) fresh_world
              eq_refl ltac:(lia) eq_refl Hret) as (Hinv & _ & _ & _ & Htwo).
  split; [exact Hinv|]. apply Htwo. reflexivity.
Defined.

(** C3 as stated fails: in that batch five workers are invoked, not
    two; the third URL is reported as skipped in mid-scrape after its
    worker ran, not as skipped before dispatch; and the sixth and
    seventh URLs get no outcome at all. *)
Lemma batch_of_seven_runs_five :
  let out := @scrapeListingsBatch (Reference.runtime []) seven_urls
               (fun _ => bare_page) (fun _ => []) fresh_world (100 - 2) 100 in
  Trace.invoked (trace out.1) = take 5 seven_urls
  /\ map success out.2 = [true; true; false; false; false]
  /\ out.2 !! 2 = Some (skipped_mid_scrape "https://z/homedetails/3_zpid/")
  /\ skipped_mid_scrape "https://z/homedetails/3_zpid/"
     <> skipped "https://z/homedetails/3_zpid/"
  /\ length out.2 = 5.
Proof.
  vm_compute. repeat split. discriminate.
Qed.

End LoopFacts.

(** ** Sessions: every one acquired is released once *)

Module SessionFacts.

Import Spec Scenarios.

Import PageController ListingWorker Orchestrator LoopFacts.
Import Trace.

Lemma acquired_app (s : nat) (a b : list event) :
  acquired s (a ++ b) = acquired s a + acquired s b.
Proof.
  induction a as [|e a IH]; [reflexivity|].
  destruct e; cbn [app acquired]; rewrite IH; lia.
Qed.

Lemma released_app (s : nat) (a b : list event) :
  released s (a ++ b) = released s a + released s b.
Proof.
  induction a as [|e a IH]; [reflexivity|].
  destruct e; cbn [app released]; rewrite IH; lia.
Qed.

(** Rewrites the counts of a trace into sums over its parts. *)
Ltac tally :=
  repeat first [ rewrite acquired_app | rewrite released_app ];
  cbn [acquired released].

Lemma block_quiet (n : nat) (evs : list event) : quiet evs -> block n n evs.
Proof.
  intros Hq. split; intros s; destruct (Hq s) as [Ha Hr]; rewrite ?Ha, ?Hr; lia.
Qed.

Lemma block_app (a b c : nat) (e1 e2 : list event) :
  a <= b -> b <= c -> block a b e1 -> block b c e2 -> block a c (e1 ++ e2).
Proof.
  intros Hab Hbc [B1 O1 F1] [B2 O2 F2]. split; intros s; tally.
  - now rewrite B1, B2.
  - pose proof (O1 s). pose proof (O2 s).
    destruct (acquired s e1) as [|x] eqn:E1, (acquired s e2) as [|y] eqn:E2; try lia.
    specialize (F1 s). specialize (F2 s). rewrite E1 in F1. rewrite E2 in F2. lia.
  - intros Hs. specialize (F1 s). specialize (F2 s). lia.
Qed.

Lemma block_same (n n' : nat) (e1 e2 : list event) :
  same_sessions e1 e2 -> block n n' e1 -> block n n' e2.
Proof.
  intros Hsame [B O F].
  split; intros s; destruct (Hsame s) as [Ea Er]; rewrite <- ?Ea, <- ?Er; auto.
Qed.

Section WithRuntime.
Context `{JsRuntime}.

(** The calls of one worker: a block of at most one session. *)
Lemma worker_block (sid : nat) (u : string) (ws : WorkerScript) :
  block sid (if ws_acquire ws then S sid else sid) (scrapeListingPage sid u ws).2.
Proof.
  unfold scrapeListingPage, SteelClient.createSteelSession, SteelClient.releaseSteelSession.
  destruct (ws_acquire ws); [|now apply block_quiet].
  destruct (scrape_with sid u ws) as [out t] eqn:E. cbn [fst snd].
  assert (Ht : t = [EvGoto sid u]).
  { revert E. unfold scrape_with.
    destruct (ws_goto ws); cbn [negb]; [|congruence].
    destruct (ws_nextData ws) as [nd|]; [|congruence].
    destruct (tier1 u nd); [congruence|].
    destruct (ws_scroll ws); cbn [negb]; [|congruence].
    destruct (ws_dom ws); congruence. }
  subst t. split; intros s; cbn [app acquired released];
    destruct (Nat.eqb_spec s sid); lia.
Qed.

Lemma goToNextPage_quiet (sid : nat) (targetUrl : string) (nav : NavScript) :
  quiet (goToNextPage sid targetUrl nav).2.
Proof.
  unfold goToNextPage.
  destruct (nav_goto nav); cbn [negb]; [|easy].
  destruct (nav_first nav) as [doc|]; [|easy].
  destruct (0 <? length (extractListingUrls doc))%nat; [easy|].
  destruct (nav_title nav); cbn [negb]; [|easy].
  destruct (nav_reload nav); cbn [negb]; [|easy].
  destruct (nav_retry nav) as [doc'|]; [|easy].
  now destruct (0 <? length (extractListingUrls doc'))%nat.
Qed.

Variable maxCount : nat.

Lemma pend_app (a b : list slot) : pend (a ++ b) = pend a ++ pend b.
Proof. unfold pend. now rewrite map_app, concat_app. Qed.

Lemma pend_cons (s : slot) (l : list slot) : pend (s :: l) = slot_pending s ++ pend l.
Proof. reflexivity. Qed.

(** Splits the pending calls of a list of slots, and their counts. *)
Ltac pending :=
  rewrite ?pend_app, ?pend_cons; cbn [slot_pending pend map concat app];
  rewrite ?app_nil_r; tally.

Lemma dispatch_sess_inv (scripts : nat -> WorkerScript) (t0 : list event) (n0 : nat)
    (acc : Shared * list slot) (n : nat) (u : string) :
  sess_inv t0 n0 acc -> sess_inv t0 n0 (dispatch maxCount scripts acc n u).
Proof.
  destruct acc as [st slots]. intros (added & Ht & Hn & Hb). cbn [fst snd] in *.
  unfold dispatch. destruct (limit_reached maxCount st).
  - exists added. cbn [fst snd]. rewrite pend_app, pend_cons. cbn. now rewrite !app_nil_r.
  - pose proof (worker_block (next_sid st) u (scripts n)) as Hw.
    destruct (scrapeListingPage (next_sid st) u (scripts n)) as [out evs].
    cbn [fst snd] in Hw.
    exists (added ++ [EvInvoke u]).
    destruct (ws_acquire (scripts n)); cbn [fst snd emit take_sid trace next_sid].
    + split; [now rewrite Ht, app_assoc|]. split; [lia|].
      apply (block_same _ _ ((added ++ pend slots) ++ evs)).
      { intros s. pending. lia. }
      now apply (block_app n0 (next_sid st)); [|lia| |].
    + split; [now rewrite Ht, app_assoc|]. split; [lia|].
      apply (block_same _ _ ((added ++ pend slots) ++ evs)).
      { intros s. pending. lia. }
      now apply (block_app n0 (next_sid st)); [| | |].
Qed.

Lemma dispatch_all_sess_inv (scripts : nat -> WorkerScript) (t0 : list event) (n0 : nat)
    (us : list string) (acc : Shared * list slot) (n : nat) :
  sess_inv t0 n0 acc -> sess_inv t0 n0 (dispatch_all maxCount scripts acc n us).
Proof.
  revert acc n. induction us as [|u us IH]; intros acc n Hacc; [exact Hacc|].
  cbn [dispatch_all]. apply IH. now apply dispatch_sess_inv.
Qed.

Lemma settle_sessions (st : Shared) (u : string) (out : outcome) :
  trace (settle maxCount st u out).1 = trace st
  /\ next_sid (settle maxCount st u out).1 = next_sid st.
Proof.
  destruct out as [d|msg]; cbn [settle]; [|easy].
  now destruct (limit_reached maxCount st).
Qed.

Lemma turn_sess_inv (t0 : list event) (n0 : nat) (acc : Shared * list slot) (t : tick) :
  sess_inv t0 n0 acc -> sess_inv t0 n0 (turn maxCount acc t).
Proof.
  destruct acc as [st slots]. intros (added & Ht & Hn & Hb). cbn [fst snd] in *.
  destruct t as [k|]; cbn [turn]; [|now exists added].
  destruct (slots !! k) as [[r|u [|e pending] out]|] eqn:Hk;
    try (now exists added).
  - destruct (slot_replace slots k _ (Settled (settle maxCount st u out).2) Hk)
      as (before & after & Eold & Enew & _).
    destruct (settle_sessions st u out) as [Etr Enx].
    destruct (settle maxCount st u out) as [st' r]. cbn [fst snd] in *.
    exists added. cbn [fst snd]. rewrite Etr, Enx, Enew.
    split; [exact Ht|]. split; [exact Hn|].
    rewrite Eold in Hb. rewrite pend_app, pend_cons in Hb |- *. exact Hb.
  - destruct (slot_replace slots k _ (Running u pending out) Hk)
      as (before & after & Eold & Enew & _).
    exists (added ++ [e]). cbn [fst snd emit trace next_sid].
    split; [now rewrite Ht, app_assoc|]. split; [exact Hn|].
    rewrite Enew. rewrite Eold in Hb.
    apply (block_same _ _ _ _) with (2 := Hb).
    intros s. pending. destruct e; tally; lia.
Qed.

Lemma turns_sess_inv (t0 : list event) (n0 : nat) (schedule : list tick)
    (acc : Shared * list slot) :
  sess_inv t0 n0 acc -> sess_inv t0 n0 (foldl (turn maxCount) acc schedule).
Proof.
  revert acc. induction schedule as [|t schedule IH]; intros acc Hacc; [exact Hacc|].
  cbn [foldl]. apply IH. now apply turn_sess_inv.
Qed.

Lemma drain_trace (slots : list slot) (st : Shared) :
  trace (drain maxCount st slots).1 = trace st ++ pend slots
  /\ next_sid (drain maxCount st slots).1 = next_sid st.
Proof.
  revert st. induction slots as [|s slots IH]; intros st; cbn [drain].
  - cbn. now rewrite app_nil_r.
  - destruct s as [r|u pending out].
    + destruct (IH st) as [Et En]. destruct (drain maxCount st slots) as [st' rs].
      cbn [fst snd] in *. now split.
    + destruct (settle_sessions (emit pending st) u out) as [Etr Enx].
      destruct (settle maxCount (emit pending st) u out) as [st1 r]. cbn [fst snd] in *.
      destruct (IH st1) as [Et En]. destruct (drain maxCount st1 slots) as [st2 rs].
      cbn [fst snd] in *. rewrite Et, En, Etr, Enx. cbn [emit trace next_sid].
      split; [|reflexivity]. rewrite pend_cons. cbn [slot_pending].
      now rewrite app_assoc.
Qed.

Lemma extends_refl (st : Shared) : extends_by_block st st.
Proof.
  exists []. rewrite app_nil_r. split; [reflexivity|]. split; [lia|].
  now apply block_quiet.
Qed.

Lemma extends_trans (a b c : Shared) :
  extends_by_block a b -> extends_by_block b c -> extends_by_block a c.
Proof.
  intros (e1 & T1 & N1 & B1) (e2 & T2 & N2 & B2). exists (e1 ++ e2).
  split; [now rewrite T2, T1, app_assoc|]. split; [lia|].
  now apply (block_app _ (next_sid b)).
Qed.

Lemma run_chunk_block (scripts : nat -> WorkerScript) (schedule : list tick)
    (st : Shared) (i : nat) (us : list string) :
  extends_by_block st (run_chunk maxCount scripts schedule st i us).1.
Proof.
  unfold run_chunk.
  assert (H0 : sess_inv (trace st) (next_sid st) (st, [])).
  { exists []. cbn. rewrite app_nil_r. split; [reflexivity|]. split; [lia|].
    now apply block_quiet. }
  apply (dispatch_all_sess_inv scripts _ _ us _ i) in H0.
  apply (turns_sess_inv _ _ schedule) in H0.
  destruct (foldl (turn maxCount) _ schedule) as [st' slots].
  destruct H0 as (added & Ht & Hn & Hb). cbn [fst snd] in *.
  destruct (drain_trace slots st') as [Et En].
  destruct (drain maxCount st' slots) as [st'' rs]. cbn [fst snd] in *.
  exists (added ++ pend slots). rewrite Et, En, Ht.
  split; [now rewrite app_assoc|]. now split.
Qed.

Lemma batch_loop_block (scripts : nat -> WorkerScript) (schedules : nat -> list tick)
    (fuel i : nat) (rest : list string) (st : Shared) (allResults : list ScrapeResult) :
  extends_by_block st
    (batch_loop fuel maxCount scripts schedules i rest st allResults).1.
Proof.
  revert i rest st allResults.
  induction fuel as [|fuel IH]; intros i rest st allResults; [apply extends_refl|].
  cbn [batch_loop]. destruct rest as [|u rest]; [apply extends_refl|].
  destruct (limit_reached maxCount st); [apply extends_refl|].
  pose proof (run_chunk_block scripts (schedules (i / BATCH_CONCURRENCY)%nat) st i
                (take BATCH_CONCURRENCY (u :: rest))) as Hc.
  destruct (run_chunk maxCount scripts _ st i _) as [st' settled]. cbn [fst] in Hc.
  eapply extends_trans; [exact Hc | apply IH].
Qed.

Lemma scrapeListingsBatch_block (urls : list string) (scripts : nat -> WorkerScript)
    (schedules : nat -> list tick) (w : Shared) (currentCount : nat) :
  extends_by_block w
    (scrapeListingsBatch urls scripts schedules w currentCount maxCount).1.
Proof.
  unfold scrapeListingsBatch.
  exact (batch_loop_block scripts schedules (length urls) 0 urls
           {| completed := currentCount; aborted := aborted w;
              next_sid := next_sid w; trace := trace w |} []).
Qed.

End WithRuntime.

Lemma open_at_main_fresh (main : nat) (w : Shared) : open_at main w -> main < next_sid w.
Proof. intros [_ F [M _] _]. apply F. lia. Qed.

Lemma open_extends (main : nat) (w w' : Shared) :
  open_at main w -> extends_by_block w w' -> open_at main w'.
Proof.
  intros Ho (added & Ht & Hn & [B O F]).
  pose proof (open_at_main_fresh _ _ Ho) as Hm. destruct Ho as [O1 F1 [M1 M2] R1].
  assert (Hout : forall s, s < next_sid w -> acquired s added = 0 /\ released s added = 0).
  { intros s Hs. specialize (F s). specialize (B s). lia. }
  split; rewrite ?Ht.
  - intros s. tally. specialize (O1 s). specialize (O s). specialize (F s).
    specialize (F1 s). lia.
  - intros s. tally. specialize (F s). specialize (F1 s). lia.
  - tally. destruct (Hout main Hm). lia.
  - intros s Hs. tally. rewrite (R1 s Hs), (B s). reflexivity.
Qed.

Lemma open_emit_quiet (main : nat) (w : Shared) (evs : list event) :
  open_at main w -> quiet evs -> open_at main (emit evs w).
Proof.
  intros Ho Hq. apply (open_extends main w); [exact Ho|].
  exists evs. split; [reflexivity|]. split; [cbn; lia|]. now apply block_quiet.
Qed.

Lemma open_signal_abort (main : nat) (w : Shared) :
  open_at main w -> open_at main (signal_abort w).
Proof. now intros [? ? ? ?]. Qed.

Lemma open_release (main : nat) (w : Shared) :
  open_at main w -> closed (emit [EvRelease main] w).
Proof.
  intros [O F [M1 M2] R]. unfold closed. cbn [emit trace next_sid].
  split; intros s; tally.
  - destruct (Nat.eqb_spec s main) as [->|Hne]; [lia|]. rewrite (R s Hne). lia.
  - specialize (O s). lia.
  - intros Hs. specialize (F s). lia.
Qed.

Lemma closed_acquire (w : Shared) :
  closed w -> open_at (next_sid w) (emit [EvAcquire (next_sid w)] (take_sid w)).
Proof.
  intros [B O F]. cbn [emit take_sid trace next_sid].
  assert (Hnew : acquired (next_sid w) (trace w) = 0).
  { destruct (acquired (next_sid w) (trace w)) eqn:E; [reflexivity|].
    specialize (F (next_sid w)). lia. }
  split; cbn [emit take_sid trace next_sid].
  - intros s. tally. destruct (Nat.eqb_spec s (next_sid w)) as [->|]; [lia|].
    specialize (O s). lia.
  - intros s. tally. destruct (Nat.eqb_spec s (next_sid w)) as [->|]; [lia|].
    intros Hs. specialize (F s). lia.
  - tally. rewrite Nat.eqb_refl. specialize (B (next_sid w)). lia.
  - intros s Hs. tally. destruct (Nat.eqb_spec s (next_sid w)); [easy|].
    rewrite (B s). lia.
Qed.

Lemma closed_counts (w : Shared) (s : nat) :
  closed w -> acquired s (trace w) <= 1 /\ released s (trace w) = acquired s (trace w).
Proof. intros [B O _]. split; [apply O | apply B]. Qed.

Lemma open_counts (main : nat) (w : Shared) (s : nat) :
  open_at main w ->
  acquired s (trace w) <= 1 /\ released s (trace w) <= acquired s (trace w).
Proof.
  intros [O _ [M1 M2] R]. split; [apply O|].
  destruct (Nat.eq_dec s main) as [->|Hne]; [lia | rewrite (R s Hne); lia].
Qed.

Lemma consume_world (results : list ScrapeResult) (j : Job) :
  world (consume results j) = world j.
Proof.
  revert j. induction results as [|r rs IH]; intros j; [reflexivity|].
  cbn [consume].
  destruct (success r), (data r);
    (destruct (MAX_LISTINGS <=? _)%nat; [reflexivity | now rewrite IH]).
Qed.

Section WithRuntime.
Context `{JsRuntime}.

Lemma paginate_sessions (searchUrl : string) (pages : list PageScript) :
  forall (pageNum main : nat) (j : Job),
    open_at main (world j) -> sessions_ok (paginate searchUrl pages pageNum main j).
Proof.
  induction pages as [|p later IH]; intros pageNum main j Ho; cbn [paginate].
  - destruct (MAX_LISTINGS <=? globalCount j)%nat; [now apply open_release|].
    now exists main.
  - destruct (MAX_LISTINGS <=? globalCount j)%nat; [now apply open_release|].
    set (j1 := if ps_abort p then with_world signal_abort j else j).
    assert (Ho1 : open_at main (world j1))
      by (subst j1; destruct (ps_abort p); [now apply open_signal_abort | exact Ho]).
    clearbody j1. clear Ho j.
    destruct (aborted (world j1)); [now apply open_release|].
    set (j2 := if ps_abort_discovery p then _ else _).
    assert (Ho2 : open_at main (world j2)).
    { subst j2. destruct (ps_abort_discovery p); cbn [with_world world];
        [apply open_signal_abort|]; now apply open_emit_quiet. }
    clearbody j2. clear Ho1 j1.
    destruct (ps_listing p) as [doc|]; [|now apply open_release].
    destruct (length (extractListingUrls doc) =? 0)%nat; [now apply open_release|].
    cbn [with_world globalCount world].
    match goal with |- context [scrapeListingsBatch ?us ?ws ?sc ?w0 ?c ?m] =>
      pose proof (scrapeListingsBatch_block m us ws sc w0 c) as Hb;
      destruct (scrapeListingsBatch us ws sc w0 c m) as [w results]
    end.
    cbn [fst] in Hb. pose proof (open_extends _ _ _ Ho2 Hb) as Ho3.
    match goal with |- context [consume results ?j0] =>
      assert (Hw : world (consume results j0) = w) by apply consume_world;
      destruct (MAX_LISTINGS <=? globalCount (consume results j0))%nat
    end.
    { cbn. rewrite Hw. now apply open_release. }
    pose proof (open_release _ _ Ho3) as Hc.
    unfold SteelClient.createSteelSession, SteelClient.releaseSteelSession in *.
    destruct (ps_acquire p).
    2:{ cbn. now rewrite Hw. }
    cbn [with_world world globalCount schema]. rewrite Hw.
    pose proof (closed_acquire _ Hc) as Ho4.
    cbn [emit take_sid next_sid trace] in Ho4 |- *.
    match goal with |- context [goToNextPage ?m ?u ?n] =>
      pose proof (goToNextPage_quiet m u n) as Hq;
      destruct (goToNextPage m u n) as [hasNext evs]
    end.
    cbn [snd] in Hq. pose proof (open_emit_quiet _ _ _ Ho4 Hq) as Ho5.
    destruct hasNext; cbn [negb].
    + apply IH. cbn [with_world world]. rewrite ?Hw. exact Ho5.
    + unfold sessions_ok. cbn [finish fst snd with_world world]. rewrite ?Hw.
      now apply open_release.
Qed.

Lemma orchestrate_sessions (searchUrl : string) (js : JobScript) :
  sessions_ok (orchestrate searchUrl js).
Proof.
  unfold orchestrate.
  unfold SteelClient.createSteelSession, SteelClient.releaseSteelSession.
  destruct (js_acquire js).
  2:{ cbn. now apply block_quiet. }
  assert (Hc : closed {| completed := 0; aborted := false; next_sid := 0; trace := [] |})
    by now apply block_quiet.
  apply closed_acquire in Hc.
  apply (open_emit_quiet _ _ [EvGoto 0 searchUrl]) in Hc; [|easy].
  destruct (js_goto js); cbn [negb].
  - apply paginate_sessions. exact Hc.
  - cbn. now apply open_release in Hc.
Qed.

Lemma paginate_ends (searchUrl : string) (pages : list PageScript) :
  forall (pageNum main : nat) (j : Job),
    (paginate searchUrl (pages ++ [cancelled_turn]) pageNum main j).1 <> running.
Proof.
  induction pages as [|p later IH]; intros pageNum main j; cbn [app paginate].
  - destruct (MAX_LISTINGS <=? globalCount j)%nat; [easy|]. now cbn.
  - destruct (MAX_LISTINGS <=? globalCount j)%nat; [easy|].
    destruct (aborted _); [easy|].
    destruct (ps_listing p); [|easy].
    destruct (length _ =? 0)%nat; [easy|].
    destruct (scrapeListingsBatch _ _ _ _ _ _).
    destruct (MAX_LISTINGS <=? _)%nat; [easy|].
    unfold SteelClient.createSteelSession, SteelClient.releaseSteelSession.
    destruct (ps_acquire p); [|easy].
    destruct (goToNextPage _ _ _) as [[] ?]; cbn [negb]; [apply IH | easy].
Qed.

Lemma worker_events (sid : nat) (u : string) (ws : WorkerScript) :
  (scrapeListingPage sid u ws).2
  = if ws_acquire ws then [EvAcquire sid; EvGoto sid u; EvRelease sid] else [].
Proof.
  unfold scrapeListingPage, SteelClient.createSteelSession, SteelClient.releaseSteelSession.
  destruct (ws_acquire ws); [|reflexivity].
  destruct (scrape_with sid u ws) as [out t] eqn:E. cbn [fst snd].
  revert E. unfold scrape_with.
  destruct (ws_goto ws); cbn [negb]; [|now intros [= _ <-]].
  destruct (ws_nextData ws) as [nd|]; [|now intros [= _ <-]].
  destruct (tier1 u nd); [now intros [= _ <-]|].
  destruct (ws_scroll ws); cbn [negb]; [|now intros [= _ <-]].
  destruct (ws_dom ws); now intros [= _ <-].
Qed.

(** C4.  A call of [scrapeListingPage] that is granted a session
    releases that session once, whether it returns a record or throws,
    and touches no other session; a call that is granted none releases
    none.  In a run of the orchestrator, workers included, no session
    is acquired twice and none is released more often than it was
    acquired; once the job has settled, as completed or as error,
    whichever way the loop ended, every session acquired has been
    released exactly once; while the job is still running, exactly the
    navigation session is held.  A run that is still going settles as
    soon as a turn finds the job cancelled. *)
Theorem sessions_released_once :
  (forall (sid : nat) (u : string) (ws : WorkerScript),
     let evs := (scrapeListingPage sid u ws).2 in
     acquired sid evs = (if ws_acquire ws then 1 else 0)
     /\ released sid evs = acquired sid evs
     /\ forall s, s <> sid -> acquired s evs = 0 /\ released s evs = 0)
  /\ (forall (searchUrl : string) (js : JobScript),
        let out := orchestrate searchUrl js in
        let tr := trace (world out.2) in
        (forall s, acquired s tr <= 1 /\ released s tr <= acquired s tr)
        /\ (out.1 <> running -> forall s, released s tr = acquired s tr)
        /\ (out.1 = running ->
            exists main, acquired main tr = 1 /\ released main tr = 0
                         /\ forall s, s <> main -> released s tr = acquired s tr))
  /\ (forall (searchUrl : string) (js : JobScript),
        (orchestrate searchUrl
           {| js_acquire := js_acquire js; js_goto := js_goto js;
              js_pages := js_pages js ++ [cancelled_turn] |}).1 <> running).
Proof.
  split; [|split].
  - intros sid u ws evs. subst evs. rewrite worker_events.
    destruct (ws_acquire ws); cbn [acquired released]; rewrite ?Nat.eqb_refl.
    + split; [reflexivity|]. split; [reflexivity|].
      intros s Hs. apply Nat.eqb_neq in Hs. now rewrite Hs.
    + easy.
  - intros searchUrl js out tr. subst tr.
    pose proof (orchestrate_sessions searchUrl js) as Hok. fold out in Hok.
    unfold sessions_ok in Hok.
    destruct out.1 eqn:Est.
    + destruct Hok as [main Ho]. split; [|split].
      * intros s. now apply (open_counts main).
      * congruence.
      * intros _. exists main. destruct Ho as [_ _ [M1 M2] R]. now repeat split.
    + split; [|split]; [| |discriminate].
      * intros s. destruct (closed_counts _ s Hok). lia.
      * intros _ s. now destruct (closed_counts _ s Hok).
    + split; [|split]; [| |discriminate].
      * intros s. destruct (closed_counts _ s Hok). lia.
      * intros _ s. now destruct (closed_counts _ s Hok).
  - intros searchUrl js. unfold orchestrate. cbn [js_acquire js_goto js_pages].
    unfold SteelClient.createSteelSession, SteelClient.releaseSteelSession.
    destruct (js_acquire js); [|easy].
    destruct (js_goto js); cbn [negb]; [|easy].
    apply paginate_ends.
Qed.

End WithRuntime.

Lemma sessions_released_once_witness :
  let out := @orchestrate (Reference.runtime []) "https://z/search/" two_pages in
  let tr := trace (world out.2) in
  out.1 = completed_
  /\ globalCount out.2 = 1
  /\ (acquired 0 tr = 1 /\ released 0 tr = 1)
  /\ (acquired 1 tr = 1 /\ released 1 tr = 1)
  /\ (acquired 2 tr = 1 /\ released 2 tr = 1)
  /\ (acquired 3 tr = 0 /\ released 3 tr = 0).
Proof.
  intros out tr.
  destruct (@sessions_released_once (Reference.runtime [])) as (_ & Hrun & _).
  destruct (Hrun "https://z/search/" two_pages) as (_ & Hsettled & _).
  fold out in Hsettled. fold tr in Hsettled.
  assert (Hst : out.1 = completed_) by (vm_compute; reflexivity).
  assert (Hdone : out.1 <> running) by (rewrite Hst; discriminate).
  specialize (Hsettled Hdone).
  split; [exact Hst|]. split; [vm_compute; reflexivity|].
  repeat split; rewrite ?Hsettled; vm_compute; reflexivity.
Defined.

End SessionFacts.

(** ** Discovery: what is kept of the URLs found *)

Module DiscoveryFacts.

Import Spec Scenarios.

Import PageController.

Lemma foldl_addUrl (urls : list string) (seen : gset string) (acc : list string) :
  (foldl addUrl (seen, acc) urls).2
  = acc ++ (Str.before_question <$> first_by_key seen urls).
Proof.
  revert seen acc. induction urls as [|u urls IH]; intros seen acc.
  - cbn. now rewrite app_nil_r.
  - cbn [foldl first_by_key]. unfold addUrl at 2. cbn [fst snd].
    destruct (decide (dedup_key u ∈ seen)); [apply IH|].
    rewrite IH. cbn [fmap list_fmap]. now rewrite <- app_assoc.
Qed.

Lemma first_by_key_fresh (urls : list string) (seen : gset string) (u : string) :
  u ∈ first_by_key seen urls -> dedup_key u ∉ seen.
Proof.
  revert seen. induction urls as [|v urls IH]; intros seen; cbn [first_by_key].
  - intros Hin. now apply elem_of_nil in Hin.
  - destruct (decide (dedup_key v ∈ seen)) as [|Hv]; [apply IH|].
    intros [->|Hin]%elem_of_cons; [exact Hv|].
    specialize (IH _ Hin). set_solver.
Qed.

Lemma first_by_key_NoDup (urls : list string) (seen : gset string) :
  NoDup (dedup_key <$> first_by_key seen urls).
Proof.
  revert seen. induction urls as [|v urls IH]; intros seen; cbn [first_by_key].
  - constructor.
  - destruct (decide (dedup_key v ∈ seen)); [apply IH|].
    cbn [fmap list_fmap]. apply NoDup_cons. split; [|apply IH].
    intros (w & Hk & Hw)%list_elem_of_fmap.
    apply first_by_key_fresh in Hw. set_solver.
Qed.

Lemma first_by_key_sublist (urls : list string) (seen : gset string) :
  first_by_key seen urls `sublist_of` urls.
Proof.
  revert seen. induction urls as [|v urls IH]; intros seen; cbn [first_by_key].
  - constructor.
  - destruct (decide (dedup_key v ∈ seen)).
    + apply sublist_cons. apply IH.
    + apply sublist_skip. apply IH.
Qed.

Lemma first_by_key_covers (urls : list string) (seen : gset string) (u : string) :
  u ∈ urls ->
  dedup_key u ∈ seen \/ dedup_key u ∈ (dedup_key <$> first_by_key seen urls).
Proof.
  revert seen. induction urls as [|v urls IH]; intros seen; cbn [first_by_key].
  - intros Hin. now apply elem_of_nil in Hin.
  - intros [->|Hin]%elem_of_cons.
    + destruct (decide (dedup_key v ∈ seen)); [now left|].
      right. cbn [fmap list_fmap]. now left.
    + destruct (decide (dedup_key v ∈ seen)); [now apply IH|].
      destruct (IH ({[ dedup_key v ]} ∪ seen) Hin) as [Hs|Hk].
      * apply elem_of_union in Hs as [Hs|Hs]; [|now left].
        apply elem_of_singleton in Hs. right. rewrite Hs.
        cbn [fmap list_fmap]. now left.
      * right. cbn [fmap list_fmap]. now right.
Qed.

Lemma first_by_key_first (urls : list string) (seen : gset string) (u : string) :
  u ∈ first_by_key seen urls ->
  exists before after,
    urls = before ++ u :: after
    /\ forall v, v ∈ before -> dedup_key v <> dedup_key u.
Proof.
  revert seen. induction urls as [|v urls IH]; intros seen; cbn [first_by_key].
  - intros Hin. now apply elem_of_nil in Hin.
  - destruct (decide (dedup_key v ∈ seen)) as [Hv|Hv].
    + intros Hin. pose proof (first_by_key_fresh _ _ _ Hin) as Hu.
      destruct (IH _ Hin) as (before & after & -> & Hb).
      exists (v :: before), after. split; [reflexivity|].
      intros w [->|Hw]%elem_of_cons; [congruence | now apply Hb].
    + intros [->|Hin]%elem_of_cons.
      * exists [], urls. split; [reflexivity|].
        intros w Hw. now apply elem_of_nil in Hw.
      * pose proof (first_by_key_fresh _ _ _ Hin) as Hu.
        destruct (IH _ Hin) as (before & after & -> & Hb).
        exists (v :: before), after. split; [reflexivity|].
        intros w [->|Hw]%elem_of_cons; [set_solver | now apply Hb].
Qed.

(** X1.  What [extractListingUrls] keeps.  The URLs found are those of
    the embedded data followed by those of the anchors.  The URLs kept
    are among them, in the order they were found; no two of them have
    the same key, the key being taken from the URL as it was found;
    every URL found has its key among theirs; and each is the first URL
    found with its key.  The list returned holds each URL kept, cut at
    its first question mark.  When that cut changes the key of no URL
    found, no two entries of the list returned have the same key. *)
Theorem discovery_keeps_first `{JsRuntime} (doc : Document) :
  let found := extractUrlsFromPageData doc ++ anchors doc in
  exists kept,
    extractListingUrls doc = (Str.before_question <$> kept)
    /\ kept `sublist_of` found
    /\ NoDup (dedup_key <$> kept)
    /\ (forall u, u ∈ found -> dedup_key u ∈ (dedup_key <$> kept))
    /\ (forall u, u ∈ kept ->
        exists before after,
          found = before ++ u :: after
          /\ forall v, v ∈ before -> dedup_key v <> dedup_key u)
    /\ ((forall u, u ∈ found -> dedup_key (Str.before_question u) = dedup_key u) ->
        NoDup (dedup_key <$> extractListingUrls doc)).
Proof.
  intros found. exists (first_by_key ∅ found).
  assert (E : extractListingUrls doc = (Str.before_question <$> first_by_key ∅ found)).
  { unfold extractListingUrls. cbv zeta. rewrite <- foldl_app.
    now rewrite foldl_addUrl. }
  split; [exact E|]. split; [apply first_by_key_sublist|].
  split; [apply first_by_key_NoDup|]. split; [|split].
  - intros u Hu. destruct (first_by_key_covers found ∅ u Hu) as [Hs|Hk]; [set_solver | exact Hk].
  - intros u Hu. now apply (first_by_key_first found ∅).
  - intros Hcut. rewrite E, <- list_fmap_compose.
    assert (Ek : (dedup_key ∘ Str.before_question <$> first_by_key ∅ found)
                 = (dedup_key <$> first_by_key ∅ found)).
    { apply list_fmap_ext. intros i u Hi. cbn. apply Hcut.
      apply (elem_of_sublist (first_by_key ∅ found)); [|apply first_by_key_sublist].
      apply list_elem_of_lookup. now exists i. }
    rewrite Ek. apply first_by_key_NoDup.
Qed.

End DiscoveryFacts.

(** ** Discovery: the URLs of the embedded data *)

Module PageDataFacts.

Import Spec Terms.
Import Str PageController StrFacts.

#[local] Arguments String.append !_ _ / : simpl nomatch.

Lemma match_plus_lit_run (cls : ascii -> bool) (lit s run rest : string) :
  match_plus_lit cls lit s = Some (run, rest) ->
  run <> "" /\ every cls run = true /\ s = run +:+ lit +:+ rest.
Proof.
  revert run rest. induction s as [|c s IH]; intros run rest; cbn [match_plus_lit]; [discriminate|].
  destruct (cls c) eqn:Hc; [|discriminate].
  destruct (match_plus_lit cls lit s) as [[run' rest']|].
  - intros [= <- <-]. destruct (IH _ _ eq_refl) as (_ & He & ->).
    split; [discriminate|]. split; [cbn; now rewrite Hc|]. reflexivity.
  - destruct (strip_prefix lit s) as [r|] eqn:Hp; [|discriminate].
    intros [= <- <-]. apply strip_prefix_Some in Hp. subst s.
    split; [discriminate|]. split; [cbn; now rewrite Hc|]. reflexivity.
Qed.

Lemma search_digits_lit_run (lit s pre ds rest : string) :
  search_digits_lit lit s = Some (pre, ds, rest) ->
  ds <> "" /\ every is_digit ds = true.
Proof.
  revert pre ds rest. induction s as [|c s IH]; intros pre ds rest.
  - discriminate.
  - cbn [search_digits_lit].
    destruct (match_plus_lit is_digit lit (String c s)) as [[run r]|] eqn:Hm.
    + intros [= _ <- _]. now destruct (match_plus_lit_run _ _ _ _ _ Hm) as (? & ? & _).
    + destruct (search_digits_lit lit s) as [[[pre' ds'] rest']|]; [|discriminate].
      intros [= _ <- _]. now apply (IH pre' ds' rest').
Qed.

Lemma every_digits (s : string) : every is_digit s = all_digits s.
Proof. induction s as [|c s IH]; [reflexivity|]. cbn. now rewrite IH. Qed.

(** A character that is no digit is stepped over by the search. *)
Lemma zpid_of_skip (c : ascii) (s : string) :
  is_digit c = false -> zpid_of (String c s) = zpid_of s.
Proof.
  intros Hc. unfold zpid_of. cbn [search_digits_lit match_plus_lit]. rewrite Hc.
  now destruct (search_digits_lit "_zpid" s) as [[[? ?] ?]|].
Qed.

Lemma zpid_of_site (m : string) : zpid_of ("https://www.zillow.com" +:+ m) = zpid_of m.
Proof.
  cbn [append]. now rewrite !zpid_of_skip by reflexivity.
Qed.

Lemma matchAll_form (cls : ascii -> bool) (s : string) :
  forall (skip : nat) (m : string),
    m ∈ matchAll_homedetails cls skip s ->
    exists run, run <> "" /\ every cls run = true
                /\ m = "/homedetails/" +:+ run +:+ "_zpid/".
Proof.
  induction s as [|c s IH]; intros skip m; cbn [matchAll_homedetails].
  - intros Hin. now apply elem_of_nil in Hin.
  - destruct skip as [|k]; [|apply IH].
    destruct (match_homedetails cls (String c s)) as [m0|] eqn:Hm; [|apply IH].
    intros [->|Hin]%elem_of_cons; [|now apply (IH _ _ Hin)].
    revert Hm. unfold match_homedetails.
    destruct (strip_prefix "/homedetails/" (String c s)) as [s1|]; [|discriminate].
    destruct (match_plus_lit cls "_zpid/" s1) as [[run rest]|] eqn:Hr; [|discriminate].
    intros [= <-]. destruct (match_plus_lit_run _ _ _ _ _ Hr) as (Hne & He & _).
    now exists run.
Qed.

Lemma before_question_run (cls : ascii -> bool) (run t : string) :
  (forall c, cls c = true -> c <> "?"%char) -> every cls run = true ->
  before_question (run +:+ t) = run +:+ before_question t.
Proof.
  intros Hcls. induction run as [|c run IH]; [reflexivity|].
  cbn [every]. intros [Hc He]%andb_prop. cbn [append before_question].
  destruct (Ascii.eqb_spec c "?") as [->|_]; [now destruct (Hcls _ Hc)|].
  now rewrite IH.
Qed.

Lemma cls_json_no_question (c : ascii) : cls_json c = true -> c <> "?"%char.
Proof. unfold cls_json. intros Hc ->. now rewrite andb_false_r in Hc. Qed.

Lemma cls_script_no_question (c : ascii) : cls_script c = true -> c <> "?"%char.
Proof. unfold cls_script. intros Hc ->. now rewrite andb_false_r in Hc. Qed.


Lemma add_match_good (acc : gset string * list string) (m : string) (cls : ascii -> bool) :
  (forall c, cls c = true -> c <> "?"%char) ->
  (exists run, run <> "" /\ every cls run = true
               /\ m = "/homedetails/" +:+ run +:+ "_zpid/") ->
  NoDup (dedup_key <$> acc.2) ->
  (forall u, u ∈ acc.2 -> dedup_key u ∈ acc.1) ->
  Forall good_url acc.2 ->
  let acc' := add_match acc m in
  NoDup (dedup_key <$> acc'.2)
  /\ (forall u, u ∈ acc'.2 -> dedup_key u ∈ acc'.1)
  /\ Forall good_url acc'.2.
Proof.
  intros Hcls (run & Hne & He & ->) Hnd Hin Hgood acc'. subst acc'.
  unfold add_match.
  destruct (zpid_of _) as [zpid|] eqn:Hz; [|easy].
  destruct (decide (zpid ∈ acc.1)) as [|Hfresh]; [easy|]. cbn [fst snd].
  set (u := "https://www.zillow.com" +:+ _).
  assert (Hzu : zpid_of u = Some zpid) by (subst u; now rewrite zpid_of_site).
  assert (Hk : dedup_key u = zpid) by (unfold dedup_key; now rewrite Hzu).
  split; [|split].
  - rewrite fmap_app. cbn [fmap list_fmap]. rewrite Hk.
    apply NoDup_app. split; [exact Hnd|]. split; [|apply NoDup_singleton].
    intros k Hk1 ->%list_elem_of_singleton.
    apply list_elem_of_fmap in Hk1 as (v & -> & Hv). now apply Hfresh, Hin.
  - intros v [Hv| ->%list_elem_of_singleton]%elem_of_app.
    + apply elem_of_union_r. now apply Hin.
    + rewrite Hk. apply elem_of_union_l. now apply elem_of_singleton.
  - apply Forall_app. split; [exact Hgood|]. constructor; [|constructor].
    split; [|split].
    + exists run. split; [exact Hne|]. subst u. reflexivity.
    + exists zpid. split; [exact Hzu|].
      unfold zpid_of in Hz.
      destruct (search_digits_lit "_zpid" _) as [[[pre ds] rest]|] eqn:Hs; [|discriminate].
      injection Hz as ->. destruct (search_digits_lit_run _ _ _ _ _ Hs) as [? Hd].
      split; [assumption|]. now rewrite <- every_digits.
    + subst u.
      change ("https://www.zillow.com" +:+ "/homedetails/" +:+ run +:+ "_zpid/")
        with ("https://www.zillow.com/homedetails/" +:+ run +:+ "_zpid/").
      cbn [append before_question Ascii.eqb Bool.eqb].
      repeat f_equal. now rewrite (before_question_run cls).
Qed.

(** What the two strategies keep true of the URLs pushed so far. *)
Lemma add_matches_good (cls : ascii -> bool) (ms : list string)
    (acc : gset string * list string) :
  (forall c, cls c = true -> c <> "?"%char) ->
  (forall m, m ∈ ms -> exists run, run <> "" /\ every cls run = true
                                   /\ m = "/homedetails/" +:+ run +:+ "_zpid/") ->
  NoDup (dedup_key <$> acc.2) /\ (forall u, u ∈ acc.2 -> dedup_key u ∈ acc.1)
  /\ Forall good_url acc.2 ->
  let acc' := foldl add_match acc ms in
  NoDup (dedup_key <$> acc'.2) /\ (forall u, u ∈ acc'.2 -> dedup_key u ∈ acc'.1)
  /\ Forall good_url acc'.2.
Proof.
  intros Hcls. revert acc. induction ms as [|m ms IH]; intros acc Hms Hacc; [exact Hacc|].
  cbn [foldl]. apply IH.
  - intros m' Hm'. apply Hms. now right.
  - destruct Hacc as (Hnd & Hin & Hgood).
    apply (add_match_good acc m cls Hcls); try assumption. apply Hms. now left.
Qed.

Lemma page_data_good `{JsRuntime} (doc : Document) :
  let acc := strategy2 doc (strategy1 doc (∅, [])) in
  NoDup (dedup_key <$> acc.2) /\ (forall u, u ∈ acc.2 -> dedup_key u ∈ acc.1)
  /\ Forall good_url acc.2.
Proof.
  assert (H1 : let acc := strategy1 doc (∅, []) in
               NoDup (dedup_key <$> acc.2) /\ (forall u, u ∈ acc.2 -> dedup_key u ∈ acc.1)
               /\ Forall good_url acc.2).
  { assert (H0 : NoDup (dedup_key <$> (∅ : gset string, [] : list string).2)
                 /\ (forall u, u ∈ (∅ : gset string, [] : list string).2 ->
                     dedup_key u ∈ (∅ : gset string, [] : list string).1)
                 /\ Forall good_url (∅ : gset string, [] : list string).2).
    { cbn. split; [constructor|]. split; [|constructor].
      intros u Hu. now apply elem_of_nil in Hu. }
    unfold strategy1. destruct (nextDataScript doc) as [text|]; [|exact H0].
    destruct (JSON_parse _) as [json|]; [|exact H0].
    apply (add_matches_good cls_json); [apply cls_json_no_question | | exact H0].
    intros m Hm. now apply (matchAll_form _ _ _ _ Hm). }
  cbv zeta in *. unfold strategy2. revert H1.
  generalize (strategy1 doc (∅, [])) as acc. intros acc Hacc.
  destruct acc.2 eqn:E; [|now rewrite E]. rewrite <- E in Hacc. clear E. revert acc Hacc.
  induction (scripts doc) as [|text texts IH]; intros acc Hacc; [exact Hacc|].
  cbn [foldl]. apply IH.
  destruct (_ && _); [|exact Hacc].
  apply (add_matches_good cls_script); [apply cls_script_no_question | | exact Hacc].
  intros m Hm. now apply (matchAll_form _ _ _ _ Hm).
Qed.

(** X2.  The URLs that [extractUrlsFromPageData] returns all have the
    form https://www.zillow.com/homedetails/ ... _zpid/ with something
    in between; each carries a zpid, a non-empty run of digits, and no
    two of them carry the same one; none contains a question mark. *)
Theorem page_data_urls `{JsRuntime} (doc : Document) :
  let urls := extractUrlsFromPageData doc in
  NoDup (dedup_key <$> urls)
  /\ forall u, u ∈ urls ->
       page_data_url u
       /\ (exists zpid, zpid_of u = Some zpid /\ dedup_key u = zpid
                        /\ zpid <> "" /\ all_digits zpid = true)
       /\ before_question u = u.
Proof.
  intros urls. subst urls. unfold extractUrlsFromPageData.
  destruct (page_data_good doc) as (Hnd & _ & Hgood).
  split; [exact Hnd|]. intros u Hu.
  rewrite Forall_forall in Hgood. destruct (Hgood u Hu) as (Hform & (zpid & Hz & Hne & Hd) & Hq).
  split; [exact Hform|]. split; [|exact Hq].
  exists zpid. unfold dedup_key. now rewrite Hz.
Qed.

End PageDataFacts.

(** ** Discovery: how the two sources combine *)

Module CombineFacts.

Import Spec Terms.
Import Str PageController StrFacts DiscoveryFacts PageDataFacts.

Lemma before_question_idem (s : string) :
  before_question (before_question s) = before_question s.
Proof.
  induction s as [|c s IH]; [reflexivity|]. cbn [before_question].
  destruct (Ascii.eqb c "?") eqn:E; [reflexivity|].
  cbn [before_question]. now rewrite E, IH.
Qed.

(** URLs with distinct keys, none of them met before, are all kept;
    what follows them is filtered against their keys too. *)
Lemma first_by_key_distinct (urls rest : list string) (seen : gset string) :
  NoDup (dedup_key <$> urls) ->
  (forall u, u ∈ urls -> dedup_key u ∉ seen) ->
  exists kept, first_by_key seen (urls ++ rest) = urls ++ kept
               /\ (rest = [] -> kept = [])
               /\ (seen = ∅ -> urls = [] -> rest <> [] -> kept <> []).
Proof.
  revert seen. induction urls as [|u urls IH]; intros seen Hnd Hfresh.
  - exists (first_by_key seen rest). split; [reflexivity|]. split; [now intros ->|].
    intros -> _ Hr. destruct rest as [|r rest]; [easy|]. cbn [first_by_key].
    destruct (decide (dedup_key r ∈ ∅)); [set_solver | discriminate].
  - cbn [app first_by_key].
    destruct (decide (dedup_key u ∈ seen)) as [Hin|_].
    { exfalso. apply (Hfresh u); [now left | exact Hin]. }
    cbn [fmap list_fmap] in Hnd. apply NoDup_cons in Hnd as [Hu Hnd].
    destruct (IH ({[ dedup_key u ]} ∪ seen) Hnd) as (kept & -> & Hk & _).
    + intros v Hv [Hs|Hs]%elem_of_union.
      * apply elem_of_singleton in Hs. apply Hu. rewrite <- Hs.
        apply list_elem_of_fmap. now exists v.
      * apply (Hfresh v); [now right | exact Hs].
    + exists kept. split; [reflexivity|]. split; [exact Hk | discriminate].
Qed.

Lemma extractListingUrls_kept `{JsRuntime} (doc : Document) :
  extractListingUrls doc
  = (before_question <$> first_by_key ∅ (extractUrlsFromPageData doc ++ anchors doc)).
Proof.
  unfold extractListingUrls. cbv zeta. rewrite <- foldl_app. now rewrite foldl_addUrl.
Qed.

(** X3.  The list that [extractListingUrls] returns starts with the
    URLs of the embedded data, unchanged and all of them; it is empty
    exactly when the embedded data give no URL and the page has no
    listing anchor; and no entry of it contains a question mark. *)
Theorem discovery_combines `{JsRuntime} (doc : Document) :
  extractUrlsFromPageData doc `prefix_of` extractListingUrls doc
  /\ (extractListingUrls doc = [] <-> extractUrlsFromPageData doc = [] /\ anchors doc = [])
  /\ (forall u, u ∈ extractListingUrls doc -> before_question u = u).
Proof.
  destruct (page_data_good doc) as (Hnd & _ & Hgood).
  fold (extractUrlsFromPageData doc) in Hnd, Hgood.
  rewrite extractListingUrls_kept.
  destruct (first_by_key_distinct (extractUrlsFromPageData doc) (anchors doc) ∅ Hnd)
    as (kept & -> & Hnone & Hsome); [set_solver|].
  assert (Hid : (before_question <$> extractUrlsFromPageData doc) = extractUrlsFromPageData doc).
  { rewrite <- (list_fmap_id (extractUrlsFromPageData doc)) at 2.
    apply list_fmap_ext. intros i u Hu. cbn.
    rewrite Forall_forall in Hgood. apply Hgood. apply list_elem_of_lookup. now exists i. }
  rewrite fmap_app, Hid. split; [|split].
  - now exists (before_question <$> kept).
  - split.
    + intros [E Hk]%app_eq_nil. split; [exact E|].
      apply fmap_nil_inv in Hk.
      destruct (anchors doc) as [|a l] eqn:Ea; [reflexivity|].
      exfalso. now apply (Hsome eq_refl E).
    + intros [E Ha]. now rewrite E, (Hnone Ha).
  - intros u [Hu|Hu]%elem_of_app.
    + rewrite Forall_forall in Hgood. now apply Hgood.
    + apply list_elem_of_fmap in Hu as (v & -> & _). apply before_question_idem.
Qed.

End CombineFacts.

(** ** Paging *)

Module PagingFacts.

Import Spec Terms.
Import Str PageController StrFacts.

#[local] Arguments String.append !_ _ / : simpl nomatch.

Lemma of_nat_digits (n : nat) : of_nat n <> "" /\ all_digits (of_nat n) = true.
Proof.
  unfold of_nat. split.
  - intros E. assert (Hn : Nat.to_uint n = Decimal.Nil) by (now destruct (Nat.to_uint n)).
    pose proof (Unsigned.of_to n) as Hof. rewrite Hn in Hof. cbn in Hof. now subst n.
  - induction (Nat.to_uint n); cbn; auto.
Qed.

(** A page segment after a part that has none is the one removed. *)
Lemma remove_segment (u d b : string) :
  ~ has_page_segment (u +:+ "/") -> d <> "" -> all_digits d = true ->
  remove_first_digits_lit "_p/" (u +:+ "/" +:+ d +:+ "_p/" +:+ b) = u +:+ "/" +:+ b.
Proof.
  intros Hu Hd Hall. unfold remove_first_digits_lit.
  rewrite <- (append_assoc u "/").
  rewrite (search_after (u +:+ "/") _ d b).
  - now rewrite append_assoc.
  - apply ends_with_slash_app.
  - now apply no_page_segment_iff.
  - now apply match_digits.
Qed.

(** X4.  A search URL that does not end with a slash gets no page
    number from [buildNextPageUrl]: when it has no page segment it is
    returned as it is, and when it has one, that segment is removed
    and nothing is put in its place. *)
Theorem buildNextPageUrl_without_slash :
  (forall (u : string) (n : nat),
     ~ has_page_segment u -> ends_with_slash u = false -> buildNextPageUrl u n = u)
  /\ (forall (u d b : string) (n : nat),
        ~ has_page_segment (u +:+ "/") -> d <> "" -> all_digits d = true ->
        ends_with_slash (u +:+ "/" +:+ b) = false ->
        buildNextPageUrl (u +:+ "/" +:+ d +:+ "_p/" +:+ b) n = u +:+ "/" +:+ b).
Proof.
  split.
  - intros u n Hu Hs. unfold buildNextPageUrl, remove_first_digits_lit.
    apply no_page_segment_iff in Hu. rewrite Hu. now apply replace_final_slash_none.
  - intros u d b n Hu Hd Hall Hs. unfold buildNextPageUrl.
    rewrite remove_segment by assumption. now apply replace_final_slash_none.
Qed.

Lemma buildNextPageUrl_without_slash_witness :
  buildNextPageUrl "https://x/search?sort=new" 2 = "https://x/search?sort=new"
  /\ buildNextPageUrl ("https://x/homes" +:+ "/" +:+ "2" +:+ "_p/" +:+ "?sort=new") 3
     = "https://x/homes" +:+ "/" +:+ "?sort=new".
Proof.
  destruct buildNextPageUrl_without_slash as [Hsame Hdrop]. split.
  - apply Hsame; [apply no_page_segment_iff|]; reflexivity.
  - apply Hdrop; [apply no_page_segment_iff; reflexivity | discriminate | reflexivity
                 | reflexivity].
Defined.

Lemma buildNextPageUrl_slash (u : string) (n : nat) :
  ~ has_page_segment (u +:+ "/") ->
  buildNextPageUrl (u +:+ "/") n = u +:+ "/" +:+ of_nat n +:+ "_p/".
Proof.
  intros Hu. unfold buildNextPageUrl, remove_first_digits_lit.
  apply no_page_segment_iff in Hu. rewrite Hu. apply replace_final_slash_app.
Qed.

Lemma buildNextPageUrl_segment (u d : string) (n : nat) :
  ~ has_page_segment (u +:+ "/") -> d <> "" -> all_digits d = true ->
  buildNextPageUrl (u +:+ "/" +:+ d +:+ "_p/") n = u +:+ "/" +:+ of_nat n +:+ "_p/".
Proof.
  intros Hu Hd Hall. unfold buildNextPageUrl.
  pose proof (remove_segment u d "" Hu Hd Hall) as E.
  change ("_p/" +:+ "") with "_p/" in E. change ("/" +:+ "") with "/" in E.
  rewrite E. apply replace_final_slash_app.
Qed.

(** X5.  Paging a URL that [buildNextPageUrl] has paged gives what
    paging the original gives: for a search URL that ends with a slash
    or with its page segment and has no other page segment, the page
    number asked for last is the only one in the result. *)
Theorem buildNextPageUrl_twice (u : string) (n m : nat) :
  ~ has_page_segment (u +:+ "/") ->
  buildNextPageUrl (buildNextPageUrl (u +:+ "/") n) m = buildNextPageUrl (u +:+ "/") m
  /\ forall d : string, d <> "" -> all_digits d = true ->
       buildNextPageUrl (buildNextPageUrl (u +:+ "/" +:+ d +:+ "_p/") n) m
       = buildNextPageUrl (u +:+ "/" +:+ d +:+ "_p/") m.
Proof.
  intros Hu. destruct (of_nat_digits n) as [Hn Hdn]. split.
  - rewrite (buildNextPageUrl_slash u n Hu), (buildNextPageUrl_slash u m Hu).
    now apply buildNextPageUrl_segment.
  - intros d Hd Hall.
    rewrite (buildNextPageUrl_segment u d n Hu Hd Hall),
            (buildNextPageUrl_segment u d m Hu Hd Hall).
    now apply buildNextPageUrl_segment.
Qed.

Lemma buildNextPageUrl_twice_witness :
  buildNextPageUrl (buildNextPageUrl ("https://x/homes" +:+ "/") 2) 3
  = buildNextPageUrl ("https://x/homes" +:+ "/") 3
  /\ buildNextPageUrl ("https://x/homes" +:+ "/") 3 = "https://x/homes/3_p/".
Proof.
  split; [|reflexivity].
  apply (buildNextPageUrl_twice "https://x/homes" 2 3).
  apply no_page_segment_iff. reflexivity.
Defined.

Section WithRuntime.
Context `{JsRuntime}.

(** X6.  [goToNextPage] answers [true] in two cases only: the page was
    reached and the first discovery found a reference; or the page was
    reached, the first discovery completed with no reference, the
    title could be read, the reload went through and the second
    discovery found a reference.  Whenever the navigation, a
    discovery, the reading of the title or the reload throws, the
    answer is [false]. *)
Theorem goToNextPage_true_iff (sid : nat) (targetUrl : string) (nav : NavScript) :
  (goToNextPage sid targetUrl nav).1 = true
  <-> nav_goto nav = true
      /\ (finds (nav_first nav) = true
          \/ (exists doc, nav_first nav = Some doc /\ extractListingUrls doc = [])
             /\ nav_title nav = true /\ nav_reload nav = true
             /\ finds (nav_retry nav) = true).
Proof.
  unfold goToNextPage, finds.
  destruct nav as [g first title reload retry];
    cbn [nav_goto nav_first nav_title nav_reload nav_retry].
  destruct g; cbn [negb fst]; [|split; [discriminate | now intros [? _]]].
  destruct first as [doc|]; cbn [fst].
  2:{ split; [discriminate|]. intros [_ [?|[[? [? _]] _]]]; discriminate. }
  destruct (extractListingUrls doc) as [|u urls] eqn:Hfirst;
    [change (0 <? length (@nil string))%nat with false
    |change (0 <? length (u :: urls))%nat with true]; cbn [fst].
  2:{ split; [intros _; split; [reflexivity | now left] | reflexivity]. }
  destruct title; cbn [negb fst].
  2:{ split; [discriminate|]. intros [_ [?|(_ & ? & _)]]; discriminate. }
  destruct reload; cbn [negb fst].
  2:{ split; [discriminate|]. intros [_ [?|(_ & _ & ? & _)]]; discriminate. }
  destruct retry as [doc'|]; cbn [fst].
  2:{ split; [discriminate|]. intros [_ [?|(_ & _ & _ & ?)]]; discriminate. }
  destruct (0 <? length (extractListingUrls doc'))%nat eqn:Hretry; cbn [fst].
  - split; [|reflexivity]. intros _. split; [reflexivity|]. right.
    split; [now exists doc|]. now repeat split.
  - split; [discriminate|]. intros [_ [?|(_ & _ & _ & ?)]]; discriminate.
Qed.

End WithRuntime.

End PagingFacts.

(** ** The first tier: the fixed fields and the history tables *)

Module Tier1Facts.

Import Spec Terms Cases.
Import Str ListingWorker StrFacts RecordFacts.

Section WithRuntime.
Context `{JsRuntime}.

Lemma extractFromNextData_inv (nextData : json) (record : ListingData) :
  extractFromNextData nextData = Some record ->
  exists property r1 price_history tax_history,
    locate_property nextData = Some property
    /\ reso_facts property
         (basic_facts property
            (<[ "estimated_sales_range" := estimated_sales_range property ]>
             (<[ "rent_zestimate" := money_of (Js.get property "rentZestimate") ]>
              (<[ "zestimate" := money_of (Js.get property "zestimate") ]>
               (<[ "price" := money_of (Js.get property "price") ]>
                (<[ "address" := address_of property ]> (∅ : ListingData))))))) = Some r1
    /\ history price_row (Js.get property "priceHistory") = Some price_history
    /\ history tax_row (Js.get property "taxHistory") = Some tax_history
    /\ record = <[ "public_tax_history" := tax_history ]>
                  (<[ "price_history" := price_history ]> r1).
Proof.
  unfold extractFromNextData. intros Hex.
  destruct (locate_property nextData) as [property|]; [|discriminate].
  cbn [mbind option_bind] in Hex.
  destruct (reso_facts property _) as [r1|] eqn:Hr; [|discriminate].
  cbn [mbind option_bind] in Hex.
  destruct (history price_row _) as [ph|] eqn:Hp; [|discriminate].
  cbn [mbind option_bind] in Hex.
  destruct (history tax_row _) as [th|] eqn:Ht; [|discriminate].
  cbn [mbind option_bind] in Hex. injection Hex as <-.
  now exists property, r1, ph, th.
Qed.

(** X7.  A record of the first tier always has the seven fixed
    fields, and the passes over the facts leave them as they were
    computed from the property entity: the address; the price, the
    zestimate and the rent zestimate, each [null] when its source is
    absent or [null] and otherwise a dollar sign followed by the
    number in the writing of the locale; and the two history tables. *)
Theorem tier1_fixed_fields (nextData : json) (record : ListingData) :
  extractFromNextData nextData = Some record ->
  (forall key, key ∈ fixed_fields -> is_Some (record !! key))
  /\ exists property,
       locate_property nextData = Some property
       /\ record !! "address" = Some (address_of property)
       /\ (forall field source,
             (field, source) ∈ [ ("price", "price"); ("zestimate", "zestimate");
                                 ("rent_zestimate", "rentZestimate") ] ->
             let v := Js.get property source in
             record !! field
             = Some (if Js.present v
                     then JStr ("$" +:+ toLocaleString (Js.otoNumber v)) else JNull))
       /\ record !! "price_history" = history price_row (Js.get property "priceHistory")
       /\ record !! "public_tax_history" = history tax_row (Js.get property "taxHistory").
Proof.
  intros Hex.
  destruct (extractFromNextData_inv _ _ Hex) as (property & r1 & ph & th & Hp & Hr & Hph & Hth & ->).
  assert (Hplain : forall key, plain key ->
            r1 !! key = (<[ "estimated_sales_range" := estimated_sales_range property ]>
                         (<[ "rent_zestimate" := money_of (Js.get property "rentZestimate") ]>
                          (<[ "zestimate" := money_of (Js.get property "zestimate") ]>
                           (<[ "price" := money_of (Js.get property "price") ]>
                            (<[ "address" := address_of property ]> (∅ : ListingData)))))) !! key).
  { intros key Hk. rewrite (reso_facts_plain _ _ _ _ Hk Hr). now apply basic_facts_plain. }
  assert (Hmoney : forall o, money_of o
                             = if Js.present o
                               then JStr ("$" +:+ toLocaleString (Js.otoNumber o)) else JNull).
  { intros [v|]; [|reflexivity]. unfold money_of. now destruct v. }
  split.
  - intros key Hkey. unfold fixed_fields in Hkey.
    repeat (apply elem_of_cons in Hkey as [->|Hkey]);
      [..|now apply elem_of_nil in Hkey];
      try (now rewrite ?lookup_insert_eq, ?lookup_insert_ne, ?lookup_insert_eq by done);
      (rewrite !lookup_insert_ne by done; rewrite Hplain by reflexivity;
       now rewrite ?lookup_insert_eq, ?lookup_insert_ne, ?lookup_insert_eq by done
       || (rewrite !lookup_insert_ne by done; now rewrite lookup_insert_eq)).
  - exists property. split; [exact Hp|]. split; [|split; [|split]].
    + rewrite !lookup_insert_ne by done. rewrite Hplain by reflexivity.
      rewrite !lookup_insert_ne by done. now rewrite lookup_insert_eq.
    + intros field source Hin v. subst v.
      repeat (apply elem_of_cons in Hin as [[= -> ->]|Hin]);
        [..|now apply elem_of_nil in Hin];
        rewrite !lookup_insert_ne by done; rewrite Hplain by reflexivity;
        rewrite ?(lookup_insert_ne _ "estimated_sales_range") by done;
        rewrite ?(lookup_insert_ne _ "rent_zestimate" "zestimate") by done;
        rewrite ?(lookup_insert_ne _ "rent_zestimate" "price") by done;
        rewrite ?(lookup_insert_ne _ "zestimate" "price") by done;
        rewrite lookup_insert_eq; now rewrite Hmoney.
    + rewrite lookup_insert_ne by done. now rewrite lookup_insert_eq, Hph.
    + now rewrite lookup_insert_eq, Hth.
Qed.

End WithRuntime.

Lemma tier1_fixed_fields_witness :
  exists record,
    @extractFromNextData (Reference.runtime []) (payload_of lot_property) = Some record
    /\ record !! "price" = Some (JStr "$350,000")
    /\ record !! "zestimate" = Some JNull.
Proof.
  assert (E : { record | @extractFromNextData (Reference.runtime []) (payload_of lot_property)
                         = Some record })
    by (eexists; reflexivity).
  destruct E as [record E]. exists record. split; [exact E|].
  destruct (@tier1_fixed_fields (Reference.runtime []) _ _ E)
    as (_ & property & Hp & _ & Hmoney & _).
  vm_compute in Hp. injection Hp as <-.
  split.
  - rewrite (Hmoney "price" "price") by set_solver. vm_compute. reflexivity.
  - rewrite (Hmoney "zestimate" "zestimate") by set_solver. vm_compute. reflexivity.
Defined.

End Tier1Facts.

(** ** The names of the facts *)

Module FactNameFacts.

Import Spec Terms Cases.
Import Str ListingWorker StrFacts RecordFacts.

Lemma slug_char_plain (c : ascii) (s : string) :
  slug_char c = true -> Ascii.eqb c "/" = false /\ space_width (String c s) = 0.
Proof.
  destruct c as [[] [] [] [] [] [] [] []]; vm_compute; intros; try discriminate;
    (split; [reflexivity|]); destruct s as [|? [|? ?]]; reflexivity.
Qed.

Lemma lower_plain (s : string) : every slug_char s = true -> Reference.lower s = s.
Proof.
  induction s as [|c s IH]; [easy|]. cbn [every]. intros [Hc Hs]%andb_prop.
  cbn [Reference.lower]. rewrite (IH Hs). f_equal.
  revert Hc. clear. destruct c as [[] [] [] [] [] [] [] []]; vm_compute; intros;
    try discriminate; reflexivity.
Qed.

Lemma keep_slug_chars_every (s : string) : every slug_char (keep_slug_chars s) = true.
Proof.
  induction s as [|c s IH]; [reflexivity|]. cbn [keep_slug_chars].
  destruct (is_lower c || is_digit c || Ascii.eqb c "_") eqn:Hc; [|exact IH].
  cbn [every]. unfold slug_char at 1. now rewrite Hc.
Qed.

Lemma slug_fixed (s : string) :
  every slug_char s = true ->
  (forall b, collapse_runs b 0 s = s) /\ keep_slug_chars s = s.
Proof.
  induction s as [|c s IH]; [easy|]. cbn [every]. intros [Hc Hs]%andb_prop.
  destruct (IH Hs) as (Hr & Hk).
  destruct (slug_char_plain c s Hc) as (Hsl & Hsp).
  split.
  - intros b. cbn [collapse_runs]. rewrite Hsl, Hsp. now rewrite Hr.
  - cbn [keep_slug_chars]. unfold slug_char in Hc. now rewrite Hc, Hk.
Qed.

Section WithRuntime.
Context `{JsRuntime}.

Lemma glance_entry_cases (result result' : ListingData) (fact : json) :
  glance_entry result fact = Some result' ->
  (forall key, result' !! key = result !! key)
  \/ exists label,
       Js.get fact "factLabel" = Some (JStr label)
       /\ vacant result ("fact_" +:+ slug label) = true
       /\ forall key, key <> "fact_" +:+ slug label -> result' !! key = result !! key.
Proof.
  unfold glance_entry.
  destruct fact; try discriminate;
    (destruct (Js.get _ "factLabel") as [label|]; [|intros [= <-]; now left];
     destruct (Js.get _ "factValue") as [value|]; [|intros [= <-]; now left];
     destruct (_ && _); [|intros [= <-]; now left];
     destruct label as [| | |text| |]; try discriminate;
     intros [= <-]; unfold set_if_vacant;
     destruct (vacant result ("fact_" +:+ slug text)) eqn:Hv; [|now left];
     right; exists text; split; [reflexivity|]; split; [exact Hv|];
     intros key Hne; now rewrite lookup_insert_ne).
Qed.

(** X8.  The name under which an at-a-glance entry is stored is
    [fact_] followed by its label in lower case with every run of
    white space and slashes turned into one underscore and every
    character other than a to z, 0 to 9 and the underscore removed;
    the pass over the array changes no other field, and only fields
    that were vacant.  A name of that kind is made of those characters
    only, and where [toLowerCase] leaves the strings made of those
    characters as they are, normalising it again leaves it as it
    is. *)
Theorem glance_names :
  (forall label : string, every slug_char (slug label) = true)
  /\ ((forall s : string, every slug_char s = true -> toLowerCase s = s) ->
      forall label : string, slug (slug label) = slug label)
  /\ (forall (facts : list json) (result result' : ListingData) (key : string),
        glance_pass facts result = Some result' -> result' !! key <> result !! key ->
        vacant result key = true
        /\ exists fact label,
             fact ∈ facts /\ Js.get fact "factLabel" = Some (JStr label)
             /\ key = "fact_" +:+ slug label).
Proof.
  split; [|split].
  - intros label. apply keep_slug_chars_every.
  - intros Hlow label.
    assert (He : every slug_char (slug label) = true) by apply keep_slug_chars_every.
    destruct (slug_fixed _ He) as (Hr & Hk).
    unfold slug at 1. now rewrite (Hlow _ He), Hr, Hk.
  - intros facts. induction facts as [|fact facts IH]; intros result result' key;
      cbn [glance_pass].
    + intros [= <-] Hch. now destruct Hch.
    + destruct (glance_entry result fact) as [r1|] eqn:E; [|discriminate].
      intros Hp Hch.
      assert (Hlater : r1 !! key = result !! key ->
                vacant result key = true
                /\ exists fact0 label,
                     fact0 ∈ fact :: facts /\ Js.get fact0 "factLabel" = Some (JStr label)
                     /\ key = "fact_" +:+ slug label).
      { intros Hsame. rewrite <- Hsame in Hch.
        destruct (IH _ _ _ Hp Hch) as (Hv & f & l & Hin & Hl & Hk).
        split; [unfold vacant in *; now rewrite <- Hsame|].
        exists f, l. split; [now right | easy]. }
      destruct (glance_entry_cases _ _ _ E) as [Hsame|(l & Hl & Hv & Hother)];
        [now apply Hlater|].
      destruct (decide (key = "fact_" +:+ slug l)) as [->|Hne]; [|now apply Hlater, Hother].
      split; [exact Hv|]. exists fact, l. split; [now left | easy].
Qed.

End WithRuntime.

Lemma glance_names_witness :
  let slug := @slug (Reference.runtime []) in
  slug "Lot Size / Acres" = "lot_size_acres"
  /\ slug ("Lot" +:+ nbsp +:+ "Size") = "lot_size"
  /\ slug (slug "Lot Size / Acres") = slug "Lot Size / Acres"
  /\ vacant (∅ : ListingData) "fact_lot_size" = true.
Proof.
  intros slug.
  destruct (@glance_names (Reference.runtime [])) as (_ & Hnorm & Hwritten).
  split; [reflexivity|]. split; [reflexivity|].
  split; [apply Hnorm; exact lower_plain|].
  apply (Hwritten [ JObj [ ("factLabel", JStr "Lot Size"); ("factValue", JStr "1 sqft") ] ]
                  ∅ (<[ "fact_lot_size" := JStr "1 sqft" ]> ∅) "fact_lot_size");
    [reflexivity|].
  rewrite lookup_insert_eq, lookup_empty. discriminate.
Defined.

End FactNameFacts.

(** ** The first tier: entries that cannot be read, tables, lot size *)

Module Tier1EdgeFacts.

Import Spec Terms Cases.
Import Str ListingWorker StrFacts RecordFacts Tier1Facts.

Section WithRuntime.
Context `{JsRuntime}.


Lemma history_null (row : json -> option json) (entries : list json) :
  row JNull = None -> JNull ∈ entries -> history row (Some (JArr entries)) = None.
Proof.
  intros Hrow Hin. unfold history. destruct entries as [|e es].
  - now apply elem_of_nil in Hin.
  - assert (Hm : mapM row (e :: es) = None).
    { apply mapM_None. apply Exists_exists. now exists JNull. }
    now rewrite Hm.
Qed.


Lemma history_rows (row : json -> option json) (cells : json -> json) (entries : list json) :
  (forall e, e <> JNull -> row e = Some (cells e)) ->
  JNull ∉ entries -> entries <> [] ->
  history row (Some (JArr entries)) = Some (JArr (cells <$> entries)).
Proof.
  intros Hrow Hnn Hne. unfold history. destruct entries as [|e es]; [easy|].
  assert (Hm : mapM row (e :: es) = Some (cells <$> e :: es)).
  { apply mapM_Some. apply Forall2_fmap_r, Forall_Forall2_diag, Forall_forall.
    intros x Hx. apply Hrow. now intros ->. }
  now rewrite Hm.
Qed.

(** X10.  The two history tables of a record of the first tier.  When
    the source is an array with at least one entry and no [null] in
    it, the table has one row per entry, in the order of the source:
    date, event, price and source for the price history; time, tax
    paid and value for the tax history; a missing date, event, source
    or time reads [null] and an amount is written in dollars.  When
    the source is absent, no array or an empty array, the field is
    [null]. *)
Theorem tier1_history_tables (nextData : json) (record : ListingData) :
  extractFromNextData nextData = Some record ->
  exists property,
    locate_property nextData = Some property
    /\ (forall entries,
          Js.get property "priceHistory" = Some (JArr entries) -> entries <> [] ->
          (JNull ∉ entries)
          /\ record !! "price_history" = Some (JArr (price_cells <$> entries)))
    /\ (forall entries,
          Js.get property "taxHistory" = Some (JArr entries) -> entries <> [] ->
          (JNull ∉ entries)
          /\ record !! "public_tax_history" = Some (JArr (tax_cells <$> entries)))
    /\ (no_rows (Js.get property "priceHistory") -> record !! "price_history" = Some JNull)
    /\ (no_rows (Js.get property "taxHistory") -> record !! "public_tax_history" = Some JNull).
Proof.
  intros Hex.
  assert (Hrows : forall row h, no_rows h -> history row h = Some JNull).
  { intros row h Hno. unfold history.
    destruct h as [[| | | |[|e es]|]|]; try reflexivity. now destruct (Hno e es). }
  assert (Hprice : forall e, e <> JNull -> price_row e = Some (price_cells e))
    by (intros e He; now destruct e).
  assert (Htax : forall e, e <> JNull -> tax_row e = Some (tax_cells e))
    by (intros e He; now destruct e).
  destruct (extractFromNextData_inv _ _ Hex) as (property & r1 & ph & th & Hp & _ & Hph & Hth & ->).
  exists property. split; [exact Hp|].
  rewrite lookup_insert_ne by done. rewrite !lookup_insert_eq.
  split; [|split; [|split]].
  - intros entries Hh Hne.
    assert (Hnn : JNull ∉ entries).
    { intros Hin. rewrite Hh, (history_null price_row entries eq_refl Hin) in Hph.
      discriminate. }
    split; [exact Hnn|]. now rewrite <- Hph, Hh, (history_rows _ price_cells).
  - intros entries Hh Hne.
    assert (Hnn : JNull ∉ entries).
    { intros Hin. rewrite Hh, (history_null tax_row entries eq_refl Hin) in Hth.
      discriminate. }
    split; [exact Hnn|]. now rewrite <- Hth, Hh, (history_rows _ tax_cells).
  - intros Hno. now rewrite <- Hph, Hrows.
  - intros Hno. now rewrite <- Hth, Hrows.
Qed.

(** X11.  When the property entity gives both [lotAreaValue] and
    [lotAreaUnits], the field [fact_lot_size] of the record is the
    value, a space and the units: it replaces what [lotSize] gave, and
    neither the dictionary pass nor an at-a-glance entry changes it. *)
Theorem tier1_lot_size (nextData property : json) (record : ListingData) :
  extractFromNextData nextData = Some record ->
  locate_property nextData = Some property ->
  Js.present (Js.get property "lotAreaValue") = true ->
  Js.present (Js.get property "lotAreaUnits") = true ->
  record !! "fact_lot_size"
  = Some (JStr (Js.otoString (Js.get property "lotAreaValue") +:+ " "
                +:+ Js.otoString (Js.get property "lotAreaUnits"))).
Proof.
  intros Hex Hp Hv Hu.
  destruct (extractFromNextData_inv _ _ Hex) as (property' & r1 & ph & th & Hp' & Hr & _ & _ & ->).
  rewrite Hp in Hp'. injection Hp' as <-.
  rewrite !lookup_insert_ne by done.
  set (lot := JStr _).
  assert (Ht : Js.truthy lot = true).
  { subst lot. cbn [Js.truthy]. apply negb_true_iff, String.eqb_neq.
    destruct (Js.otoString (Js.get property "lotAreaValue")); discriminate. }
  revert Hr. unfold reso_facts.
  match goal with |- context [basic_facts property ?r0] => set (r := r0) end.
  assert (Hb : basic_facts property r !! "fact_lot_size" = Some lot).
  { unfold basic_facts. cbv zeta. rewrite Hv, Hu. cbn [andb].
    repeat first [ rewrite set_if_truthy_other by done
                 | rewrite set_if_present_other by done ].
    now rewrite lookup_insert_eq. }
  destruct (Js.get property "resoFacts") as [resoFacts|]; [|now intros [= <-]].
  destruct (Js.truthy resoFacts); [|now intros [= <-]].
  pose proof (reso_pass_keeps resoFacts _ _ _ Hb Ht) as Hk.
  destruct (Js.get resoFacts "atAGlanceFacts") as [[| | | |facts|]|];
    try (now intros [= <-]).
  intros Hg. now apply (glance_pass_keeps facts _ _ _ _ Hk Ht Hg).
Qed.

End WithRuntime.


Lemma tier1_history_tables_witness :
  exists record,
    @extractFromNextData (Reference.runtime []) (payload_of lot_property) = Some record
    /\ record !! "price_history"
       = Some (JArr [ JArr [ JStr "2020-01-01"; JStr "Sold"; JStr "$300,000"; JNull ] ])
    /\ record !! "public_tax_history" = Some JNull.
Proof.
  assert (E : { record | @extractFromNextData (Reference.runtime []) (payload_of lot_property)
                         = Some record })
    by (eexists; reflexivity).
  destruct E as [record E]. exists record. split; [exact E|].
  destruct (@tier1_history_tables (Reference.runtime []) _ _ E)
    as (property & Hp & Hprice & _ & _ & Htax).
  vm_compute in Hp. injection Hp as <-. split.
  - destruct (Hprice _ eq_refl) as [_ ->]; [discriminate|]. vm_compute. reflexivity.
  - apply Htax. intros e es. discriminate.
Defined.

Lemma tier1_lot_size_witness :
  exists record,
    @extractFromNextData (Reference.runtime []) (payload_of lot_property) = Some record
    /\ record !! "fact_lot_size" = Some (JStr "2 Acres").
Proof.
  assert (E : { record | @extractFromNextData (Reference.runtime []) (payload_of lot_property)
                         = Some record })
    by (eexists; reflexivity).
  destruct E as [record E]. exists record. split; [exact E|].
  rewrite (@tier1_lot_size (Reference.runtime []) _ lot_property _ E eq_refl eq_refl eq_refl).
  vm_compute. reflexivity.
Defined.

End Tier1EdgeFacts.

(** ** The second tier: the fact lines *)

Module DomFactFacts.

Import Spec Terms Cases.
Import Str ListingWorker DomFactLines StrFacts.

Lemma indexOf_colon_includes (text : string) (i : nat) :
  indexOf_colon text = Some i -> includes ":" text = true.
Proof.
  revert i. induction text as [|c text IH]; intros i; [discriminate|].
  cbn [indexOf_colon includes strip_prefix].
  destruct (Ascii.eqb_spec c ":") as [->|Hne]; [intros _; now rewrite Ascii.eqb_refl|].
  destruct (Ascii.eqb_spec ":" c) as [Heq|_]; [now destruct Hne|].
  destruct (indexOf_colon text) as [k|]; [|discriminate]. intros _. now apply (IH k).
Qed.

Lemma fact_of_line_includes (line rawKey val : string) :
  fact_of_line line = Some (rawKey, val) -> includes ":" (trim line) = true.
Proof.
  unfold fact_of_line. cbv zeta.
  destruct (indexOf_colon (trim line)) as [i|] eqn:E; [|discriminate].
  intros _. now apply (indexOf_colon_includes _ i).
Qed.

Lemma fact_of_line_shape (line rawKey val : string) :
  fact_of_line line = Some (rawKey, val) ->
  rawKey <> "" /\ val <> "" /\ utf16_length rawKey < 60.
Proof.
  unfold fact_of_line. cbv zeta.
  destruct (indexOf_colon (trim line)) as [i|]; [|discriminate].
  destruct (_ && _ && _) eqn:Hw; [|discriminate]. intros [= <- <-].
  apply andb_prop in Hw as [[Hk1 Hv1]%andb_prop Hl].
  apply negb_true_iff, String.eqb_neq in Hk1, Hv1. apply Nat.ltb_lt in Hl.
  easy.
Qed.

Lemma fact_name_inj (a b : string) : "fact_" +:+ a = "fact_" +:+ b -> a = b.
Proof. cbn. intros Heq. now inversion Heq. Qed.

Section WithRuntime.
Context `{JsRuntime}.

Lemma dom_facts_lines (page : FactLists) (result : ListingData) :
  dom_facts page result = foldl fact_line (∅, result) (lines_read page).
Proof.
  unfold dom_facts, lines_read. rewrite foldl_app.
  generalize (∅ : gset string, result) as acc.
  assert (Hc : forall (ls : list (list string)) acc,
             foldl (fun acc lines => foldl fact_line acc lines) acc ls
             = foldl fact_line acc (concat ls)).
  { induction ls as [|l ls IH]; intros acc; [reflexivity|].
    cbn [foldl concat]. now rewrite foldl_app, IH. }
  intros acc. rewrite Hc. generalize (foldl fact_line acc (concat (by_selector page))).
  induction (by_heading page) as [|h hs IH]; intros acc1; [reflexivity|].
  cbn [foldl fmap list_fmap concat]. now rewrite foldl_app, IH.
Qed.

(** One line either leaves the record as it is or sets the field of
    its key to its value. *)
Lemma fact_line_cases (acc : gset string * ListingData) (line : string) :
  acc.1 ⊆ (fact_line acc line).1
  /\ (includes ":" (trim line) = true -> trim line ∈ (fact_line acc line).1)
  /\ ((fact_line acc line).2 = acc.2
      \/ exists rawKey val,
           fact_of_line line = Some (rawKey, val)
           /\ (fact_line acc line).2 = <[ "fact_" +:+ slug rawKey := JStr val ]> acc.2).
Proof.
  destruct acc as [seen result]. unfold fact_line, fact_of_line. cbv zeta.
  destruct (includes ":" (trim line)) eqn:Hi; cbn [andb fst snd];
    [|split; [set_solver | split; [discriminate | now left]]].
  destruct (bool_decide (trim line ∈ seen)) eqn:Hs; cbn [negb fst snd].
  { apply bool_decide_eq_true in Hs. split; [set_solver | split; [easy | now left]]. }
  destruct (indexOf_colon (trim line)) as [i|]; cbn [fst snd];
    [|split; [set_solver | split; [set_solver | now left]]].
  destruct (_ && _ && _); cbn [fst snd]; (split; [set_solver | split; [set_solver|]]);
    [right; eauto | now left].
Qed.

Lemma fact_line_seen (acc : gset string * ListingData) (line : string) :
  (includes ":" (trim line) = true -> trim line ∈ acc.1) -> fact_line acc line = acc.
Proof.
  destruct acc as [seen result]. unfold fact_line. cbv zeta. cbn [fst].
  destruct (includes ":" (trim line)); [|reflexivity]. intros Hin.
  now rewrite (bool_decide_eq_true_2 _ (Hin eq_refl)).
Qed.

(** A line that holds a fact and whose text has not been seen sets the
    field of its key. *)
Lemma fact_line_fresh (acc : gset string * ListingData) (line rawKey val : string) :
  fact_of_line line = Some (rawKey, val) -> trim line ∉ acc.1 ->
  (fact_line acc line).2 = <[ "fact_" +:+ slug rawKey := JStr val ]> acc.2.
Proof.
  intros Hf Hnew. pose proof (fact_of_line_includes _ _ _ Hf) as Hi.
  destruct acc as [seen result]. revert Hf. unfold fact_line, fact_of_line. cbv zeta.
  rewrite Hi. cbn [fst] in Hnew. rewrite (bool_decide_eq_false_2 _ Hnew). cbn [andb negb].
  destruct (indexOf_colon (trim line)) as [i|]; [|discriminate].
  destruct (_ && _ && _); [|discriminate]. now intros [= <- <-].
Qed.

Lemma fact_line_adds (acc : gset string * ListingData) (line text : string) :
  text ∈ (fact_line acc line).1 -> text ∈ acc.1 \/ text = trim line.
Proof.
  destruct acc as [seen result]. unfold fact_line. cbv zeta.
  destruct (_ && _); [|now left].
  destruct (indexOf_colon (trim line)); [destruct (_ && _ && _)|]; cbn [fst];
    (intros [->%elem_of_singleton|Hin]%elem_of_union; [now right | now left]).
Qed.

Lemma fact_lines_add (lines : list string) (acc : gset string * ListingData)
    (text : string) :
  text ∈ (foldl fact_line acc lines).1 ->
  text ∈ acc.1 \/ exists e, e ∈ lines /\ trim e = text.
Proof.
  revert acc. induction lines as [|l lines IH]; intros acc; [now left|].
  cbn [foldl]. intros [Hin|(e & He & Ht)]%IH.
  - apply fact_line_adds in Hin as [Hin| ->]; [now left|].
    right. exists l. split; [now left | reflexivity].
  - right. exists e. split; [now right | exact Ht].
Qed.

Lemma fact_lines_seen (lines : list string) (acc : gset string * ListingData) :
  acc.1 ⊆ (foldl fact_line acc lines).1
  /\ forall line, line ∈ lines -> includes ":" (trim line) = true ->
                  trim line ∈ (foldl fact_line acc lines).1.
Proof.
  revert acc. induction lines as [|l lines IH]; intros acc.
  - split; [reflexivity|]. intros line Hin. now apply elem_of_nil in Hin.
  - cbn [foldl]. destruct (IH (fact_line acc l)) as [Hsub Hall].
    destruct (fact_line_cases acc l) as (Hs1 & Hm & _).
    split; [now transitivity (fact_line acc l).1|].
    intros line [->|Hin]%elem_of_cons Hc; [|now apply Hall].
    apply Hsub. now apply Hm.
Qed.

Lemma fact_lines_written (lines : list string) (acc : gset string * ListingData)
    (key : string) :
  (foldl fact_line acc lines).2 !! key = acc.2 !! key
  \/ exists line rawKey val,
       line ∈ lines /\ fact_of_line line = Some (rawKey, val)
       /\ key = "fact_" +:+ slug rawKey
       /\ (foldl fact_line acc lines).2 !! key = Some (JStr val).
Proof.
  revert acc. induction lines as [|l lines IH]; intros acc; [now left|].
  cbn [foldl].
  destruct (IH (fact_line acc l)) as [Hsame|(line & k & v & Hin & Hf & Hk & Hv)].
  2:{ right. exists line, k, v. split; [now right | easy]. }
  rewrite Hsame.
  destruct (fact_line_cases acc l) as (_ & _ & [->|(k & v & Hf & ->)]); [now left|].
  destruct (decide ("fact_" +:+ slug k = key)) as [<-|Hne].
  - right. exists l, k, v. split; [now left|]. split; [exact Hf|]. split; [reflexivity|].
    apply lookup_insert_eq.
  - left. now apply lookup_insert_ne.
Qed.

(** The lines after the one that wrote a field leave the field as it
    is when each of them that has the same key repeats a text already
    seen. *)
Lemma fact_lines_keep (after : list string) (acc : gset string * ListingData)
    (name : string) (held : option json) :
  acc.2 !! ("fact_" +:+ name) = held ->
  (forall l k v, l ∈ after -> fact_of_line l = Some (k, v) -> slug k = name ->
                 trim l ∈ acc.1) ->
  (foldl fact_line acc after).2 !! ("fact_" +:+ name) = held.
Proof.
  revert acc. induction after as [|l after IH]; intros acc Hheld Hrep; [exact Hheld|].
  cbn [foldl]. destruct (fact_line_cases acc l) as (Hsub & _ & Hcases).
  apply IH.
  - destruct (decide (trim l ∈ acc.1)) as [Hseen|Hnew];
      [now rewrite fact_line_seen|].
    destruct Hcases as [->|(k & v & Hf & ->)]; [exact Hheld|].
    rewrite lookup_insert_ne; [exact Hheld|].
    intros Heq%fact_name_inj. apply Hnew, (Hrep l k v); [now left | exact Hf | exact Heq].
  - intros l' k v Hin Hf Hk. apply Hsub, (Hrep l' k v); [now right | exact Hf | exact Hk].
Qed.

(** X12.  In the second tier, a field that the reading of the fact
    lines changes is named [fact_] followed by the normalised key of
    one of the lines read, a line with a key of fewer than 60 UTF-16
    code units before its first colon and a value after it, and the
    field ends up holding the value of such a line.  The line read
    last decides: a line whose trimmed text no earlier line has sets
    the field of its key to its value, whatever the field held, and
    the field keeps that value to the end when every later line with
    the same normalised key repeats the trimmed text of that line or
    of a line before it.  There is no first-writer rule on this
    path. *)
Theorem dom_fact_fields (page : FactLists) (result : ListingData) :
  (forall key : string,
     (dom_facts page result).2 !! key <> result !! key ->
     exists line rawKey val,
       line ∈ lines_read page
       /\ fact_of_line line = Some (rawKey, val)
       /\ rawKey <> "" /\ val <> "" /\ utf16_length rawKey < 60
       /\ key = "fact_" +:+ slug rawKey
       /\ (dom_facts page result).2 !! key = Some (JStr val))
  /\ (forall (before : list string) (line : string) (after : list string)
             (rawKey val : string),
        lines_read page = before ++ line :: after ->
        fact_of_line line = Some (rawKey, val) ->
        (forall e, e ∈ before -> trim e <> trim line) ->
        (forall l k v, l ∈ after -> fact_of_line l = Some (k, v) ->
                       slug k = slug rawKey ->
                       exists e, e ∈ before ++ [line] /\ trim e = trim l) ->
        (dom_facts page result).2 !! ("fact_" +:+ slug rawKey) = Some (JStr val)).
Proof.
  rewrite dom_facts_lines. split.
  - intros key Hch.
    destruct (fact_lines_written (lines_read page) (∅, result) key)
      as [Hsame|(line & k & v & Hin & Hf & Hk & Hv)]; [now destruct Hch|].
    exists line, k, v. split; [exact Hin|]. split; [exact Hf|].
    pose proof (fact_of_line_shape _ _ _ Hf). easy.
  - intros before line after rawKey val -> Hf Hfirst Hlater.
    rewrite foldl_app. cbn [foldl].
    set (acc := foldl fact_line (∅, result) before).
    assert (Hnew : trim line ∉ acc.1).
    { intros [Hin|(e & He & Ht)]%fact_lines_add; [set_solver|]. now apply (Hfirst e). }
    apply fact_lines_keep.
    + rewrite (fact_line_fresh _ _ _ _ Hf Hnew). apply lookup_insert_eq.
    + intros l k v Hin Hfl Hk.
      destruct (Hlater l k v Hin Hfl Hk) as (e & He & Ht).
      pose proof (fact_of_line_includes _ _ _ Hfl) as Hi. rewrite <- Ht in Hi |- *.
      destruct (fact_lines_seen (before ++ [line]) (∅, result)) as [_ Hseen].
      rewrite foldl_app in Hseen. now apply Hseen.
Qed.

(** X13.  Lines that have been read before change nothing when they
    are read again: after the pass over the fact lines, a further line
    whose trimmed text is that of a line already read leaves both the
    record and the set of texts seen as they are.  This is what lets
    overlapping selectors and headings meet the same item twice. *)
Theorem dom_facts_reread (page : FactLists) (result : ListingData) (again : list string) :
  (forall line, line ∈ again ->
     exists earlier, earlier ∈ lines_read page /\ trim earlier = trim line) ->
  foldl fact_line (dom_facts page result) again = dom_facts page result.
Proof.
  rewrite dom_facts_lines. intros Hagain.
  destruct (fact_lines_seen (lines_read page) (∅, result)) as [_ Hseen].
  revert Hseen. generalize (foldl fact_line (∅, result) (lines_read page)).
  intros acc Hseen. induction again as [|l again IH]; [reflexivity|].
  cbn [foldl]. rewrite fact_line_seen.
  - apply IH. intros line Hin. apply Hagain. now right.
  - intros Hc. destruct (Hagain l) as (earlier & Hin & Ht); [now left|].
    rewrite <- Ht. apply Hseen; [exact Hin|]. now rewrite Ht.
Qed.

End WithRuntime.

Lemma dom_fact_fields_witness :
  let page := {| by_selector := [ [ "Heating: Forced air"; " Cooling : Central " ] ];
                 by_heading := [ ("Cooling features", Some [ "Cooling: None" ]) ] |} in
  let facts := (@dom_facts (Reference.runtime []) page ∅).2 in
  let spaced := {| by_selector := [ [ nbsp +:+ "Lot" +:+ nbsp +:+ "Size: 1 acre " +:+ nbsp ] ];
                   by_heading := [] |} in
  facts !! "fact_cooling" = Some (JStr "None")
  /\ facts !! "fact_heating" = Some (JStr "Forced air")
  /\ (@dom_facts (Reference.runtime []) spaced ∅).2 !! "fact_lot_size" = Some (JStr "1 acre").
Proof.
  intros page facts spaced.
  destruct (@dom_fact_fields (Reference.runtime []) page ∅) as [_ Hlast].
  split; [|split; vm_compute; reflexivity].
  apply (Hlast [ "Heating: Forced air"; " Cooling : Central " ] "Cooling: None" []
               "Cooling" "None").
  - reflexivity.
  - vm_compute. reflexivity.
  - intros e [->|[->|Hin]%elem_of_cons]%elem_of_cons;
      [vm_compute; discriminate | vm_compute; discriminate |].
    now apply elem_of_nil in Hin.
  - intros l k v Hin. now apply elem_of_nil in Hin.
Defined.

Lemma dom_facts_reread_witness :
  let page := {| by_selector := [ [ "Heating: Forced air"; " Cooling : Central " ] ];
                 by_heading := [] |} in
  foldl (@fact_line (Reference.runtime [])) (@dom_facts (Reference.runtime []) page ∅)
        [ "Cooling : Central"; "Heating: Forced air" ]
  = @dom_facts (Reference.runtime []) page ∅.
Proof.
  intros page. apply dom_facts_reread.
  intros line [->|[->|Hin]%elem_of_cons]%elem_of_cons.
  - exists " Cooling : Central ". split; [|vm_compute; reflexivity].
    subst page. cbn. set_solver.
  - exists "Heating: Forced air". split; [|vm_compute; reflexivity].
    subst page. cbn. set_solver.
  - now apply elem_of_nil in Hin.
Defined.

End DomFactFacts.

(** ** The batch scheduler: any workers, any schedule *)

Module BatchFacts.

Import Spec Scenarios Terms Cases.
Import PageController ListingWorker Orchestrator LoopFacts.

Section WithRuntime.
Context `{JsRuntime}.
Variable maxCount : nat.

Lemma worker_link (sid : nat) (u : string) (ws : WorkerScript) :
  carries_link u (scrapeListingPage sid u ws).1.
Proof.
  unfold scrapeListingPage, SteelClient.createSteelSession.
  destruct (ws_acquire ws); [|exact I].
  destruct (scrape_with sid u ws) as [out t] eqn:E. cbn [fst snd].
  revert E. unfold scrape_with.
  destruct (ws_goto ws); cbn [negb]; [|now intros [= <- _]].
  destruct (ws_nextData ws) as [nd|]; [|now intros [= <- _]].
  destruct (tier1 u nd) as [r|] eqn:Ht.
  - intros [= <- _]. revert Ht. unfold tier1.
    destruct (Js.truthy nd); [|discriminate].
    destruct (extractFromNextData nd) as [r0|]; [|discriminate].
    destruct (Js.otruthy _); [|discriminate].
    intros [= <-]. apply lookup_insert_eq.
  - destruct (ws_scroll ws); cbn [negb]; [|now intros [= <- _]].
    destruct (ws_dom ws); intros [= <- _]; [apply lookup_insert_eq | exact I].
Qed.

Lemma settle_reported (st : Shared) (u : string) (out : outcome) :
  carries_link u out ->
  let r := settle maxCount st u out in
  reported u r.2
  /\ completed r.1 = completed st + (if success r.2 then 1 else 0)
  /\ (completed st <= maxCount -> completed r.1 <= maxCount)
  /\ trace r.1 = trace st /\ aborted r.1 = aborted st /\ next_sid r.1 = next_sid st.
Proof.
  intros Hl. unfold settle. destruct out as [d|msg].
  - destruct (limit_reached maxCount st) eqn:Hlim; cbn.
    + split; [split; [reflexivity | right; now repeat split]|].
      repeat split; lia.
    + split; [split; [reflexivity | left; repeat split; now exists d]|].
      unfold limit_reached in Hlim. apply orb_false_elim in Hlim as [Hlt _].
      apply Nat.leb_gt in Hlt. repeat split; lia.
  - cbn. split; [split; [reflexivity | right; now repeat split]|].
    repeat split; lia.
Qed.

Lemma successes_one (r : ScrapeResult) : successes [r] = if success r then 1 else 0.
Proof. unfold successes. cbn. now destruct (success r). Qed.

Lemma turn_batch_inv (us : list string) (c0 : nat) (inv0 : list string)
    (acc : Shared * list slot) (t : tick) :
  batch_inv maxCount us c0 inv0 acc -> batch_inv maxCount us c0 inv0 (turn maxCount acc t).
Proof.
  destruct acc as [st slots]. intros [Hs Hc Hcap Hi]. cbn [fst snd] in *.
  destruct t as [k|]; cbn [turn]; [|now split].
  destruct (slots !! k) as [[r|u pending out]|] eqn:Hlk; [now split | | now split].
  destruct (Forall2_lookup_r _ _ _ _ _ Hs Hlk) as (u0 & Hu0 & Hfor).
  destruct Hfor as (-> & Hinv & Hlink).
  destruct pending as [|e pending].
  - pose proof (settle_reported st u0 out Hlink) as (Hrep & Hcount & Hle & Htr & _ & _).
    destruct (settle maxCount st u0 out) as [st' r]. cbn [fst snd] in *.
    destruct (slot_replace slots k _ (Settled r) Hlk) as (before & after & Eold & Enew & _).
    split; cbn [fst snd].
    + rewrite <- (list_insert_id us k u0) by exact Hu0.
      now apply Forall2_insert.
    + rewrite Enew. rewrite Eold in Hc.
      destruct (settled_replace_running before after u0 [] out (Settled r)) as [-> E].
      rewrite E in Hc. rewrite !successes_app. rewrite successes_app in Hc.
      change (settled [Settled r]) with [r]. rewrite successes_one. lia.
    + now apply Hle.
    + now rewrite Htr.
  - destruct (slot_replace slots k _ (Running u0 pending out) Hlk)
      as (before & after & Eold & Enew & _).
    assert (Es : settled (<[ k := Running u0 pending out ]> slots) = settled slots).
    { rewrite Enew, Eold.
      destruct (settled_replace_running before after u0 pending out
                  (Running u0 pending out)) as [-> _].
      destruct (settled_replace_running before after u0 (e :: pending) out
                  (Running u0 pending out)) as [_ ->].
      reflexivity. }
    change (e :: pending) with ([e] ++ pending) in Hinv.
    rewrite invoked_app in Hinv. apply app_eq_nil in Hinv as [He Hp].
    split; cbn [fst snd emit completed trace aborted].
    + rewrite <- (list_insert_id us k u0) by exact Hu0.
      apply Forall2_insert; [exact Hs|]. now split.
    + now rewrite Es.
    + exact Hcap.
    + now rewrite invoked_app, He, app_nil_r.
Qed.

Lemma turns_batch_inv (us : list string) (c0 : nat) (inv0 : list string)
    (schedule : list tick) (acc : Shared * list slot) :
  batch_inv maxCount us c0 inv0 acc ->
  batch_inv maxCount us c0 inv0 (foldl (turn maxCount) acc schedule).
Proof.
  revert acc. induction schedule as [|t schedule IH]; intros acc Hacc; [exact Hacc|].
  cbn [foldl]. apply IH. now apply turn_batch_inv.
Qed.

(** Between the check at the head of the loop and the dispatch of the
    last worker of the chunk nothing changes the counter or the
    signal: every worker of the chunk is started. *)
Lemma dispatch_all_started (scripts : nat -> WorkerScript) (us : list string) :
  forall (i : nat) (st : Shared) (slots : list slot) (us0 : list string),
    limit_reached maxCount st = false ->
    Forall2 in_flight us0 slots ->
    let acc := dispatch_all maxCount scripts (st, slots) i us in
    Forall2 in_flight (us0 ++ us) acc.2
    /\ completed acc.1 = completed st
    /\ aborted acc.1 = aborted st
    /\ settled acc.2 = settled slots
    /\ Trace.invoked (trace acc.1) = Trace.invoked (trace st) ++ us.
Proof.
  induction us as [|u us IH]; intros i st slots us0 Hlim Hs acc.
  - subst acc. cbn. now rewrite !app_nil_r.
  - subst acc. cbn [dispatch_all dispatch]. rewrite Hlim.
    pose proof (worker_link (next_sid st) u (scripts i)) as Hlink.
    pose proof (worker_invokes_nothing (next_sid st) u (scripts i)) as Hno.
    destruct (scrapeListingPage (next_sid st) u (scripts i)) as [out evs].
    cbn [fst snd] in Hlink, Hno.
    set (st1 := if ws_acquire (scripts i) then take_sid (emit [EvInvoke u] st)
                else emit [EvInvoke u] st).
    assert (Hst1 : completed st1 = completed st /\ aborted st1 = aborted st
                   /\ trace st1 = trace st ++ [EvInvoke u])
      by (subst st1; now destruct (ws_acquire (scripts i))).
    destruct Hst1 as (Hc1 & Ha1 & Ht1).
    destruct (IH (S i) st1 (slots ++ [Running u evs out]) (us0 ++ [u]))
      as (Hs' & Hc' & Ha' & Hset' & Hinv').
    + unfold limit_reached in *. now rewrite Hc1, Ha1.
    + apply Forall2_app; [exact Hs|]. constructor; [|constructor]. now split.
    + rewrite <- app_assoc in Hs'. split; [exact Hs'|].
      split; [congruence|]. split; [congruence|]. split.
      * rewrite Hset'. unfold settled. rewrite omap_app. cbn. now rewrite app_nil_r.
      * rewrite Hinv', Ht1, invoked_app, <- app_assoc. reflexivity.
Qed.

Lemma drain_reported (us : list string) (slots : list slot) :
  Forall2 in_flight us slots ->
  forall st : Shared,
    completed st <= maxCount ->
    let out := drain maxCount st slots in
    Forall2 reported us out.2
    /\ completed out.1 + successes (settled slots) = completed st + successes out.2
    /\ completed out.1 <= maxCount
    /\ Trace.invoked (trace out.1) = Trace.invoked (trace st).
Proof.
  induction 1 as [|u s us slots Hfor Hs IH]; intros st Hcap out.
  - subst out. cbn. repeat split; (lia || constructor).
  - subst out. destruct s as [r|u' pending o]; cbn [drain].
    + destruct (IH st Hcap) as (Hrs & Hc & Hle & Hinv).
      destruct (drain maxCount st slots) as [st' rs]. cbn [fst snd] in *.
      split; [now constructor|].
      change (settled (Settled r :: slots)) with ([r] ++ settled slots).
      change (r :: rs) with ([r] ++ rs). rewrite !successes_app.
      split; [lia|]. now split.
    + destruct Hfor as (-> & Hno & Hlink).
      pose proof (settle_reported (emit pending st) u o Hlink) as (Hrep & Hcount & Hle1 & Htr & _ & _).
      destruct (settle maxCount (emit pending st) u o) as [st1 r]. cbn [fst snd] in *.
      destruct (IH st1 (Hle1 Hcap)) as (Hrs & Hc & Hle & Hinv).
      destruct (drain maxCount st1 slots) as [st2 rs]. cbn [fst snd] in *.
      split; [now constructor|].
      change (settled (Running u pending o :: slots)) with (settled slots).
      change (r :: rs) with ([r] ++ rs). rewrite successes_app, successes_one.
      cbn [emit completed] in Hcount.
      split; [lia|]. split; [exact Hle|].
      rewrite Hinv, Htr. cbn [emit trace]. now rewrite invoked_app, Hno, app_nil_r.
Qed.

Lemma run_chunk_reported (scripts : nat -> WorkerScript) (schedule : list tick)
    (st : Shared) (i : nat) (us : list string) :
  limit_reached maxCount st = false ->
  let out := run_chunk maxCount scripts schedule st i us in
  Forall2 reported us out.2
  /\ completed out.1 = completed st + successes out.2
  /\ completed out.1 <= maxCount
  /\ Trace.invoked (trace out.1) = Trace.invoked (trace st) ++ us.
Proof.
  intros Hlim out. subst out. unfold run_chunk.
  destruct (dispatch_all_started scripts us i st [] [] Hlim)
    as (Hs & Hc & Ha & Hset & Hinv); [constructor|].
  set (acc := dispatch_all maxCount scripts (st, []) i us) in *.
  assert (Hacc : batch_inv maxCount us (completed st) (Trace.invoked (trace st) ++ us) acc).
  { split; rewrite ?Hset; cbn; try assumption.
    - lia.
    - rewrite Hc. unfold limit_reached in Hlim. apply orb_false_elim in Hlim as [Hlt _].
      apply Nat.leb_gt in Hlt. lia. }
  apply (turns_batch_inv _ _ _ schedule) in Hacc.
  destruct (foldl (turn maxCount) acc schedule) as [st' slots].
  destruct Hacc as [Hs' Hc' Hcap' Hi']. cbn [fst snd] in *.
  destruct (drain_reported us slots Hs' st' Hcap') as (Hrs & Hcount & Hle & Hinv').
  destruct (drain maxCount st' slots) as [st'' rs]. cbn [fst snd] in *.
  split; [exact Hrs|]. split; [lia|]. split; [exact Hle|]. congruence.
Qed.

(** The loop over the chunks: what it adds to the results. *)
Lemma batch_loop_reported (scripts : nat -> WorkerScript) (schedules : nat -> list tick)
    (fuel : nat) :
  forall (i : nat) (rest : list string) (st : Shared) (allResults : list ScrapeResult),
    length rest <= fuel ->
    let out := batch_loop fuel maxCount scripts schedules i rest st allResults in
    exists (n : nat) (new : list ScrapeResult),
      out.2 = allResults ++ new
      /\ Forall2 reported (take n rest) new
      /\ Trace.invoked (trace out.1) = Trace.invoked (trace st) ++ take n rest
      /\ completed out.1 = completed st + successes new
      /\ (completed st <= maxCount -> completed out.1 <= maxCount)
      /\ (limit_reached maxCount st = true -> new = [])
      /\ (limit_reached maxCount out.1 = false -> take n rest = rest).
Proof.
  induction fuel as [|fuel IH]; intros i rest st allResults Hf out; subst out.
  - destruct rest; [|cbn in Hf; lia]. exists 0, []. cbn.
    rewrite !app_nil_r. repeat split; (lia || constructor || idtac).
  - destruct rest as [|u rest].
    { exists 0, []. cbn. rewrite !app_nil_r. repeat split; (lia || constructor || idtac). }
    cbn [batch_loop]. destruct (limit_reached maxCount st) eqn:Hlim.
    { exists 0, []. cbn [fst snd take]. rewrite !app_nil_r.
      repeat split; (lia || constructor || congruence || idtac). cbn. lia. }
    pose proof (run_chunk_reported scripts (schedules (i / BATCH_CONCURRENCY)) st i
                  (take BATCH_CONCURRENCY (u :: rest)) Hlim) as (Hrs & Hc & Hcap & Hinv).
    destruct (run_chunk maxCount scripts _ st i _) as [st' rs]. cbn [fst snd] in *.
    destruct (IH (i + BATCH_CONCURRENCY) (drop BATCH_CONCURRENCY (u :: rest)) st'
                 (allResults ++ rs))
      as (n & new & Hout & Hnew & Hinv' & Hc' & Hcap' & Hstop & Hall).
    { rewrite length_drop. cbn [length] in *. unfold BATCH_CONCURRENCY. lia. }
    destruct (batch_loop fuel maxCount scripts schedules _ _ st' _) as [st'' res].
    cbn [fst snd] in *.
    assert (Htake : take (BATCH_CONCURRENCY + n) (u :: rest)
                    = take BATCH_CONCURRENCY (u :: rest)
                      ++ take n (drop BATCH_CONCURRENCY (u :: rest)))
      by (symmetry; apply take_take_drop).
    exists (BATCH_CONCURRENCY + n), (rs ++ new).
    split; [now rewrite Hout, app_assoc|].
    split; [rewrite Htake; now apply Forall2_app|].
    split; [rewrite Hinv', Hinv, Htake; now rewrite app_assoc|].
    split; [rewrite successes_app; lia|].
    split; [intros _; now apply Hcap'|].
    split; [discriminate|].
    intros Hl. rewrite Htake, (Hall Hl). apply take_drop.
Qed.

Lemma reported_urls (us : list string) (rs : list ScrapeResult) :
  Forall2 reported us rs -> map url rs = us /\ Forall shaped rs.
Proof.
  induction 1 as [|u r us rs [Hu Hr] _ [IH1 IH2]]; [now split|].
  split; [cbn; now rewrite Hu, IH1 | now constructor].
Qed.

Lemma batch_reported (urls : list string) (scripts : nat -> WorkerScript)
    (schedules : nat -> list tick) (w : Shared) (currentCount : nat) :
  let out := scrapeListingsBatch urls scripts schedules w currentCount maxCount in
  exists n : nat,
    map url out.2 = take n urls
    /\ Forall shaped out.2
    /\ Trace.invoked (trace out.1) = Trace.invoked (trace w) ++ take n urls
    /\ completed out.1 = currentCount + successes out.2
    /\ (currentCount <= maxCount -> completed out.1 <= maxCount)
    /\ (maxCount <= currentCount \/ aborted w = true -> out.2 = [])
    /\ (limit_reached maxCount out.1 = false -> take n urls = urls).
Proof.
  intros out. subst out. unfold scrapeListingsBatch.
  set (st := {| completed := currentCount; aborted := aborted w;
                next_sid := next_sid w; trace := trace w |}).
  destruct (batch_loop_reported scripts schedules (length urls) 0 urls st [] (le_n _))
    as (n & new & Hout & Hnew & Hinv & Hc & Hcap & Hstop & Hall).
  destruct (batch_loop _ _ _ _ _ _ _ _) as [st' res]. cbn [fst snd app] in *. subst res.
  destruct (reported_urls _ _ Hnew) as [Hurls Hshaped].
  exists n. split; [exact Hurls|]. split; [exact Hshaped|]. split; [exact Hinv|].
  split; [exact Hc|]. split; [exact Hcap|]. split; [|exact Hall].
  intros Hlim. apply Hstop. unfold limit_reached. cbn.
  destruct Hlim as [Hge| ->]; [|apply orb_true_r].
  apply orb_true_iff. left. now apply Nat.leb_le.
Qed.

(** X14.  The outcomes that [scrapeListingsBatch] returns are those of
    a leading part of the URLs it was given, one outcome per URL and
    in the order of the URLs, however the workers end and in whatever
    order they complete.  Nothing is left out unless the counter
    reached the limit or the job was cancelled; and when that is so
    from the start, no outcome is returned at all. *)
Theorem batch_reports_in_order (urls : list string) (scripts : nat -> WorkerScript)
    (schedules : nat -> list tick) (w : Shared) (currentCount : nat) :
  let out := scrapeListingsBatch urls scripts schedules w currentCount maxCount in
  map url out.2 `prefix_of` urls
  /\ (limit_reached maxCount out.1 = false -> map url out.2 = urls)
  /\ (maxCount <= currentCount \/ aborted w = true -> out.2 = []).
Proof.
  intros out.
  destruct (batch_reported urls scripts schedules w currentCount)
    as (n & Hurls & _ & _ & _ & _ & Hnone & Hall).
  fold out in Hurls, Hnone, Hall. split; [|split; [|exact Hnone]].
  - rewrite Hurls. exists (drop n urls). symmetry. apply take_drop.
  - intros Hl. now rewrite Hurls, Hall.
Qed.

(** X15.  [scrapeListingsBatch] calls [scrapeListingPage] once for
    every URL it reports an outcome for, in the order of the URLs, and
    for no other URL: the check made before a worker is dispatched
    never turns a URL away, since nothing changes the counter or the
    signal between the check at the head of the chunk and the
    dispatch of its last worker. *)
Theorem batch_invokes_what_it_reports (urls : list string) (scripts : nat -> WorkerScript)
    (schedules : nat -> list tick) (w : Shared) (currentCount : nat) :
  let out := scrapeListingsBatch urls scripts schedules w currentCount maxCount in
  Trace.invoked (trace out.1) = Trace.invoked (trace w) ++ map url out.2.
Proof.
  intros out.
  destruct (batch_reported urls scripts schedules w currentCount)
    as (n & Hurls & _ & Hinv & _).
  fold out in Hurls, Hinv. now rewrite Hurls.
Qed.

(** X16.  Started with the counter at or below the limit,
    [scrapeListingsBatch] never reports more successes than the limit
    leaves room for, whatever the number of URLs, the outcomes of the
    workers and the order in which they complete; the counter ends at
    its first value plus the number of successes reported. *)
Theorem batch_within_limit (urls : list string) (scripts : nat -> WorkerScript)
    (schedules : nat -> list tick) (w : Shared) (currentCount : nat) :
  currentCount <= maxCount ->
  let out := scrapeListingsBatch urls scripts schedules w currentCount maxCount in
  successes out.2 <= maxCount - currentCount
  /\ completed out.1 = currentCount + successes out.2.
Proof.
  intros Hle out.
  destruct (batch_reported urls scripts schedules w currentCount)
    as (n & _ & _ & _ & Hc & Hcap & _).
  fold out in Hc, Hcap. specialize (Hcap Hle). split; [lia | exact Hc].
Qed.

(** X17.  Every outcome that [scrapeListingsBatch] returns has one of
    two shapes: a success, with a record whose [link] is the URL of
    the outcome and with no message; or a failure, with a message and
    no record. *)
Theorem batch_outcome_shapes (urls : list string) (scripts : nat -> WorkerScript)
    (schedules : nat -> list tick) (w : Shared) (currentCount : nat) :
  let out := scrapeListingsBatch urls scripts schedules w currentCount maxCount in
  Forall (fun r =>
            (success r = true /\ error r = None
             /\ exists d, data r = Some d /\ d !! "link" = Some (JStr (url r)))
            \/ (success r = false /\ data r = None /\ is_Some (error r)))
         out.2.
Proof.
  intros out.
  destruct (batch_reported urls scripts schedules w currentCount)
    as (n & _ & Hshaped & _).
  exact Hshaped.
Qed.

End WithRuntime.

Lemma batch_within_limit_witness :
  let out := @scrapeListingsBatch (Reference.runtime []) seven_urls
               (fun _ => bare_page) (fun _ => [Resume 4; Resume 4; Resume 4; Resume 4])
               fresh_world 99 100 in
  successes out.2 <= 1 /\ completed out.1 = 99 + successes out.2.
Proof.
  intros out.
  exact (@batch_within_limit (Reference.runtime []) 100 seven_urls
           (fun _ => bare_page) (fun _ => [Resume 4; Resume 4; Resume 4; Resume 4])
           fresh_world 99 ltac:(lia)).
Defined.

End BatchFacts.

(** ** The orchestrator: rows, statuses *)

Module JobFacts.

Import Spec Scenarios Terms Cases.
Import PageController ListingWorker Orchestrator LoopFacts BatchFacts.

(** X18.  The loop over the results of a page, entered with the
    counter below the cap, appends the records of the successful
    outcomes in the order of the outcomes until the cap is reached and
    drops the rest; the counter goes up by the number of records
    appended. *)
Theorem consume_appends (results : list ScrapeResult) (j : Job) :
  globalCount j < MAX_LISTINGS ->
  let j' := consume results j in
  let room := MAX_LISTINGS - globalCount j in
  schema j' = schema j ++ take room (accepted results)
  /\ globalCount j' = globalCount j + length (take room (accepted results))
  /\ world j' = world j.
Proof.
  revert j. induction results as [|r rs IH]; intros j Hlt j' room; subst j' room.
  - cbn. rewrite take_nil, app_nil_r. cbn. repeat split. lia.
  - cbn [consume].
    change (accepted (r :: rs))
      with (match (if success r then data r else None) with
            | Some d => d :: accepted rs
            | None => accepted rs
            end).
    destruct (success r) eqn:Hs; [destruct (data r) as [d|] eqn:Hd|].
    + destruct (Nat.leb_spec MAX_LISTINGS (globalCount (addRow d j))) as [Hfull|Hroom].
      * cbn [addRow globalCount schema world] in *.
        replace (MAX_LISTINGS - globalCount j) with 1 by lia.
        cbn [take length]. rewrite !take_0. cbn [length]. repeat split. lia.
      * destruct (IH (addRow d j) Hroom) as (Hsch & Hcnt & Hw).
        cbn [addRow globalCount schema world] in *.
        replace (MAX_LISTINGS - globalCount j) with (S (MAX_LISTINGS - S (globalCount j)))
          by lia.
        cbn [take length]. rewrite Hsch, Hcnt, Hw, <- app_assoc. repeat split. lia.
    + destruct (Nat.leb_spec MAX_LISTINGS (globalCount j)) as [Hfull|_]; [lia|].
      now apply IH.
    + destruct (Nat.leb_spec MAX_LISTINGS (globalCount j)) as [Hfull|_]; [lia|].
      now apply IH.
Qed.

Lemma consume_appends_witness :
  let d : ListingData := {[ "link" := JStr "https://z/homedetails/1_zpid/" ]} in
  let j := {| globalCount := 99; schema := []; world := fresh_world |} in
  schema (consume [ failed "https://z/homedetails/0_zpid/" "timeout";
                    succeeded "https://z/homedetails/1_zpid/" d;
                    succeeded "https://z/homedetails/2_zpid/" d ] j) = [d].
Proof.
  intros d j.
  assert (Hroom : globalCount j < MAX_LISTINGS) by (subst j; cbn; unfold MAX_LISTINGS; lia).
  exact (proj1 (consume_appends
                  [ failed "https://z/homedetails/0_zpid/" "timeout";
                    succeeded "https://z/homedetails/1_zpid/" d;
                    succeeded "https://z/homedetails/2_zpid/" d ] j Hroom)).
Defined.

Lemma finish_status (st : JobStatus) (m : option nat) (j : Job) :
  (finish st m j).1 = st /\ schema (finish st m j).2 = schema j.
Proof. now destruct m. Qed.

Section WithRuntime.
Context `{JsRuntime}.

Lemma paginate_error (searchUrl : string) (pages : list PageScript)
    (pageNum main : nat) (j : Job) :
  (paginate searchUrl pages pageNum main j).1 = error_ ->
  exists p, p ∈ pages /\ (ps_listing p = None \/ ps_acquire p = false).
Proof.
  revert pageNum main j. induction pages as [|p later IH]; intros pageNum main j;
    cbn [paginate].
  - destruct (MAX_LISTINGS <=? globalCount j)%nat; [|discriminate].
    intros E. now rewrite (proj1 (finish_status _ _ _)) in E.
  - destruct (MAX_LISTINGS <=? globalCount j)%nat;
      [intros E; now rewrite (proj1 (finish_status _ _ _)) in E|].
    destruct (aborted _); [intros E; now rewrite (proj1 (finish_status _ _ _)) in E|].
    destruct (ps_listing p) as [doc|] eqn:Hl.
    2:{ intros _. exists p. split; [now left | now left]. }
    destruct (length _ =? 0)%nat;
      [intros E; now rewrite (proj1 (finish_status _ _ _)) in E|].
    destruct (scrapeListingsBatch _ _ _ _ _ _) as [w results].
    destruct (MAX_LISTINGS <=? _)%nat;
      [intros E; now rewrite (proj1 (finish_status _ _ _)) in E|].
    unfold SteelClient.createSteelSession.
    destruct (ps_acquire p) eqn:Ha.
    2:{ intros _. exists p. split; [now left | now right]. }
    destruct (goToNextPage _ _ _) as [[] evs]; cbn [negb].
    + intros E. destruct (IH _ _ _ E) as (q & Hq & Hc). exists q. split; [now right | exact Hc].
    + intros E. now rewrite (proj1 (finish_status _ _ _)) in E.
Qed.

(** X19.  A job ends with the status error only when a session could
    not be provisioned for the navigation, when the first navigation
    to the search URL failed, or when discovery threw on a results
    page.  A worker that fails, a page without listings and a next
    page that cannot be reached never put the job in error. *)
Theorem error_causes (searchUrl : string) (js : JobScript) :
  (orchestrate searchUrl js).1 = error_ ->
  js_acquire js = false \/ js_goto js = false
  \/ exists p, p ∈ js_pages js /\ (ps_listing p = None \/ ps_acquire p = false).
Proof.
  unfold orchestrate, SteelClient.createSteelSession.
  destruct (js_acquire js); [|now left].
  destruct (js_goto js); cbn [negb]; [|right; now left].
  intros E. right. right. now apply (paginate_error _ _ _ _ _ E).
Qed.

Lemma consume_rows (Q : ListingData -> Prop) (results : list ScrapeResult) (j : Job) :
  Forall (fun r => success r = true -> forall d, data r = Some d -> Q d) results ->
  Forall Q (schema j) -> Forall Q (schema (consume results j)).
Proof.
  intros Hrs. revert j. induction Hrs as [|r rs Hr _ IH]; intros j Hj; [exact Hj|].
  cbn [consume].
  set (j1 := match success r, data r with
             | true, Some d => addRow d j
             | _, _ => j
             end).
  assert (Hj1 : Forall Q (schema j1)).
  { subst j1. destruct (success r) eqn:Hs; [|exact Hj].
    destruct (data r) as [d|] eqn:Hd; [|exact Hj].
    cbn. apply Forall_app. split; [exact Hj|]. constructor; [|constructor].
    now apply Hr. }
  destruct (MAX_LISTINGS <=? globalCount j1)%nat; [exact Hj1 | now apply IH].
Qed.

Lemma paginate_rows (all : list PageScript) (searchUrl : string) (pages : list PageScript)
    (pageNum main : nat) (j : Job) :
  (forall p, p ∈ pages -> p ∈ all) ->
  Forall (from_discovery all) (schema j) ->
  Forall (from_discovery all) (schema (paginate searchUrl pages pageNum main j).2).
Proof.
  revert pageNum main j. induction pages as [|p later IH]; intros pageNum main j Hsub Hj;
    cbn [paginate].
  - destruct (MAX_LISTINGS <=? globalCount j)%nat; [|exact Hj].
    now rewrite (proj2 (finish_status _ _ _)).
  - destruct (MAX_LISTINGS <=? globalCount j)%nat;
      [now rewrite (proj2 (finish_status _ _ _))|].
    set (j1 := if ps_abort p then with_world signal_abort j else j).
    assert (Hj1 : Forall (from_discovery all) (schema j1) /\ globalCount j1 = globalCount j)
      by (subst j1; now destruct (ps_abort p)).
    destruct Hj1 as [Hj1 Hc1].
    destruct (aborted (world j1)); [now rewrite (proj2 (finish_status _ _ _))|].
    set (j1' := if ps_abort_discovery p then _ else _).
    assert (Hj1' : Forall (from_discovery all) (schema j1'))
      by (subst j1'; now destruct (ps_abort_discovery p)).
    clearbody j1'. clear Hj1 Hc1 j1. rename j1' into j1, Hj1' into Hj1.
    destruct (ps_listing p) as [doc|] eqn:Hl;
      [|now rewrite (proj2 (finish_status _ _ _))].
    destruct (length (extractListingUrls doc) =? 0)%nat;
      [now rewrite (proj2 (finish_status _ _ _))|].
    cbn [with_world globalCount world].
    pose proof (batch_reported MAX_LISTINGS
                  (take (MAX_LISTINGS - globalCount j1) (extractListingUrls doc))
                  (ps_workers p) (ps_schedules p)
                  (world j1) (globalCount j1))
      as (n & Hurls & Hshaped & _).
    destruct (scrapeListingsBatch _ _ _ _ _ _) as [w results]. cbn [fst snd] in *.
    match goal with |- context [consume results ?j0] => set (j2 := j0) end.
    assert (Hj3 : Forall (from_discovery all) (schema (consume results j2))).
    { apply consume_rows; [|exact Hj1].
      apply Forall_forall. intros r Hr Hs d Hd.
      rewrite Forall_forall in Hshaped.
      destruct (Hshaped r Hr) as [(_ & _ & d' & Hd' & Hlink)|(Hf & _)]; [|congruence].
      rewrite Hd in Hd'. injection Hd' as <-.
      exists (url r), p, doc. split; [apply Hsub; now left|]. split; [exact Hl|].
      split; [|exact Hlink].
      assert (Hin : url r ∈ map url results)
        by (apply list_elem_of_fmap; now exists r).
      rewrite Hurls in Hin.
      apply (elem_of_sublist (take (MAX_LISTINGS - globalCount j1) (extractListingUrls doc)));
        [|apply sublist_take].
      apply (elem_of_sublist (take n (take (MAX_LISTINGS - globalCount j1)
                                         (extractListingUrls doc))));
        [exact Hin | apply sublist_take]. }
    destruct (MAX_LISTINGS <=? globalCount (consume results j2))%nat;
      [now rewrite (proj2 (finish_status _ _ _))|].
    unfold SteelClient.createSteelSession.
    destruct (ps_acquire p); [|now rewrite (proj2 (finish_status _ _ _))].
    destruct (goToNextPage _ _ _) as [[] evs]; cbn [negb].
    + apply IH; [intros q Hq; apply Hsub; now right | exact Hj3].
    + now rewrite (proj2 (finish_status _ _ _)).
Qed.

(** X20.  Every row that a job gives to the accumulator is the record
    of a worker and carries, as its [link], a URL that discovery
    returned on one of the results pages of the job. *)
Theorem rows_from_discovery (searchUrl : string) (js : JobScript) :
  Forall (from_discovery (js_pages js)) (schema (orchestrate searchUrl js).2).
Proof.
  unfold orchestrate, SteelClient.createSteelSession.
  destruct (js_acquire js); [|constructor].
  destruct (js_goto js); cbn [negb]; [|constructor].
  apply paginate_rows; [easy | constructor].
Qed.

End WithRuntime.

Lemma error_causes_witness :
  js_acquire unreachable_search = false \/ js_goto unreachable_search = false
  \/ exists p, p ∈ js_pages unreachable_search
               /\ (ps_listing p = None \/ ps_acquire p = false).
Proof.
  exact (@error_causes (Reference.runtime []) "https://z/search/" unreachable_search eq_refl).
Defined.

End JobFacts.

(** ** Sessions: how many are held at once *)

Module HeldFacts.

Import Spec Scenarios Terms Cases.
Import PageController ListingWorker Orchestrator LoopFacts SessionFacts.

Lemma held_app (limit : nat) (a b : list event) (h : nat) :
  held limit h (a ++ b) = held limit h a ≫= fun h' => held limit h' b.
Proof.
  revert h. induction a as [|e a IH]; intros h; [reflexivity|].
  destruct e; cbn [app held]; try apply IH.
  - destruct (S h <=? limit)%nat; [apply IH | reflexivity].
  - destruct h; [reflexivity | apply IH].
Qed.

Lemma held_free (limit h : nat) (evs : list event) :
  forallb session_free evs = true -> held limit h evs = Some h.
Proof.
  induction evs as [|e evs IH]; [reflexivity|]. cbn [forallb].
  intros [He Hevs]%andb_prop. destruct e; try discriminate; cbn [held]; now apply IH.
Qed.

Lemma held_emit_free (limit : nat) (st : Shared) (evs : list event) (h : nat) :
  forallb session_free evs = true ->
  held limit 0 (trace st) = Some h -> held limit 0 (trace (emit evs st)) = Some h.
Proof.
  intros Hfree Hst. cbn [emit trace]. rewrite held_app, Hst. cbn.
  now apply held_free.
Qed.

Lemma holding_le (s : slot) : holding s <= 1.
Proof.
  unfold holding. destruct (slot_pending s) as [|[] [|[] [|]]]; lia.
Qed.

Lemma holding_app (a b : list slot) :
  sum_list (holding <$> a ++ b) = sum_list (holding <$> a) + sum_list (holding <$> b).
Proof.
  induction a as [|s a IH]; [reflexivity|]. cbn. rewrite IH. lia.
Qed.

Lemma holding_one (s : slot) : sum_list (holding <$> [s]) = holding s.
Proof. cbn. lia. Qed.

Lemma holding_sum (slots : list slot) : sum_list (holding <$> slots) <= length slots.
Proof.
  induction slots as [|s slots IH]; [reflexivity|].
  cbn. pose proof (holding_le s). lia.
Qed.

Lemma settle_trace (maxCount : nat) (st : Shared) (u : string) (out : outcome) :
  trace (settle maxCount st u out).1 = trace st.
Proof.
  unfold settle. destruct out; [|reflexivity].
  now destruct (limit_reached maxCount st).
Qed.

Section WithRuntime.
Context `{JsRuntime}.
Variables maxCount limit b : nat.

Lemma worker_tail_events (sid : nat) (u : string) (ws : WorkerScript) :
  worker_tail (scrapeListingPage sid u ws).2 = true
  /\ forall out, holding (Running u (scrapeListingPage sid u ws).2 out) = 0.
Proof.
  rewrite worker_events. now destruct (ws_acquire ws).
Qed.

Lemma dispatch_all_held (scripts : nat -> WorkerScript) (us : list string) :
  forall (i : nat) (acc : Shared * list slot),
    held_inv limit b acc -> b + length acc.2 + length us <= limit ->
    held_inv limit b (dispatch_all maxCount scripts acc i us).
Proof.
  induction us as [|u us IH]; intros i [st slots] Hacc Hroom; [exact Hacc|].
  cbn [dispatch_all]. cbn [snd length] in Hroom.
  destruct Hacc as [Hh Ht Hr]. cbn [fst snd] in *.
  apply IH.
  - unfold dispatch. destruct (limit_reached maxCount st).
    + split; cbn [fst snd].
      * rewrite holding_app, holding_one. cbn [holding slot_pending]. rewrite Hh.
        f_equal. lia.
      * apply Forall_app. split; [exact Ht|]. now constructor.
      * rewrite length_app. cbn. lia.
    + destruct (worker_tail_events (next_sid st) u (scripts i)) as [Htail Hzero].
      destruct (scrapeListingPage (next_sid st) u (scripts i)) as [out evs].
      cbn [fst snd] in *.
      split; cbn [fst snd].
      * rewrite holding_app, holding_one, (Hzero out).
        assert (Ht1 : held limit 0 (trace (emit [EvInvoke u] st))
                      = Some (b + sum_list (holding <$> slots)))
          by (now apply held_emit_free).
        destruct (ws_acquire (scripts i)); cbn [take_sid trace] in *;
          rewrite Ht1; f_equal; lia.
      * apply Forall_app. split; [exact Ht|]. now constructor.
      * rewrite length_app. cbn. lia.
  - unfold dispatch. destruct (limit_reached maxCount st); cbn [snd].
    + rewrite length_app. cbn. lia.
    + destruct (scrapeListingPage _ _ _). cbn [snd]. rewrite length_app. cbn. lia.
Qed.

Lemma sum_replace (before after : list slot) (old new : slot) :
  sum_list (holding <$> before ++ old :: after) + holding new
  = sum_list (holding <$> before ++ new :: after) + holding old.
Proof.
  rewrite !holding_app. cbn. lia.
Qed.

Lemma turn_held (acc : Shared * list slot) (t : tick) :
  held_inv limit b acc -> held_inv limit b (turn maxCount acc t).
Proof.
  destruct acc as [st slots]. intros [Hh Ht Hr]. cbn [fst snd] in *.
  destruct t as [k|]; cbn [turn]; [|now split].
  destruct (slots !! k) as [[r|u pending out]|] eqn:Hlk; [now split | | now split].
  pose proof (Forall_lookup_1 _ _ _ _ Ht Hlk) as Htail. cbn [slot_pending] in Htail.
  destruct pending as [|e pending].
  - pose proof (settle_trace maxCount st u out) as Htr.
    destruct (settle maxCount st u out) as [st' r]. cbn [fst snd] in *.
    destruct (slot_replace slots k _ (Settled r) Hlk) as (before & after & Eold & Enew & _).
    split; cbn [fst snd].
    + rewrite Htr, Hh. f_equal. f_equal. rewrite Enew, Eold.
      pose proof (sum_replace before after (Running u [] out) (Settled r)) as E.
      cbn in E. lia.
    + rewrite Enew. rewrite Eold in Ht. apply Forall_app in Ht as [Hb Ha].
      apply Forall_app. split; [exact Hb|]. inversion Ha; subst. now constructor.
    + now rewrite length_insert.
  - destruct (slot_replace slots k _ (Running u pending out) Hlk)
      as (before & after & Eold & Enew & _).
    pose proof (sum_replace before after (Running u (e :: pending) out)
                  (Running u pending out)) as E.
    rewrite <- Eold, <- Enew in E.
    pose proof (holding_sum (<[ k := Running u pending out ]> slots)) as Hsum.
    rewrite length_insert in Hsum.
    split; cbn [fst snd emit trace].
    + rewrite held_app, Hh. cbn [mbind option_bind].
      destruct e as [s|s|s g|s|s|g]; destruct pending as [|[] [|[] [|]]];
        try discriminate; cbn in E; cbn [held].
      * (* acquire *)
        destruct (Nat.leb_spec (S (b + sum_list (holding <$> slots))) limit) as [_|Hgt];
          [f_equal; lia | exfalso; lia].
      * (* release *)
        destruct (b + sum_list (holding <$> slots)) as [|h] eqn:Eh; [exfalso; lia|].
        f_equal. lia.
      * (* goto *)
        f_equal. lia.
    + rewrite Enew. rewrite Eold in Ht. apply Forall_app in Ht as [Hb Ha].
      apply Forall_app. split; [exact Hb|]. inversion Ha; subst. constructor; [|assumption].
      cbn [slot_pending] in *.
      destruct e; destruct pending as [|[] [|[] [|]]]; try discriminate; reflexivity.
    + now rewrite length_insert.
Qed.

Lemma turns_held (schedule : list tick) (acc : Shared * list slot) :
  held_inv limit b acc -> held_inv limit b (foldl (turn maxCount) acc schedule).
Proof.
  revert acc. induction schedule as [|t schedule IH]; intros acc Hacc; [exact Hacc|].
  cbn [foldl]. apply IH. now apply turn_held.
Qed.

Lemma drain_held (slots : list slot) :
  forall st : Shared,
    held_inv limit b (st, slots) ->
    held limit 0 (trace (drain maxCount st slots).1) = Some b.
Proof.
  induction slots as [|s slots IH]; intros st [Hh Ht Hr]; cbn [fst snd] in *.
  - cbn in *. rewrite Hh. f_equal. lia.
  - apply Forall_cons in Ht as [Hs Ht].
    change (s :: slots) with ([s] ++ slots) in Hh. rewrite holding_app, holding_one in Hh.
    cbn [length] in Hr.
    pose proof (holding_sum slots) as Hsum.
    set (hs := sum_list (holding <$> slots)) in *.
    destruct s as [r|u pending out]; cbn [drain].
    + specialize (IH st). destruct (drain maxCount st slots) as [st' rs]. cbn [fst].
      apply IH. split; cbn [fst snd]; [|exact Ht|lia].
      rewrite Hh. cbn [holding slot_pending]. f_equal; lia.
    + pose proof (settle_trace maxCount (emit pending st) u out) as Htr.
      destruct (settle maxCount (emit pending st) u out) as [st1 r]. cbn [fst] in Htr.
      specialize (IH st1). destruct (drain maxCount st1 slots) as [st2 rs]. cbn [fst].
      apply IH. split; cbn [fst snd]; [|exact Ht|lia].
      rewrite Htr. cbn [emit trace]. rewrite held_app, Hh. cbn [mbind option_bind].
      cbn [slot_pending] in Hs.
      destruct pending as [|[] [|[] [|[] [|]]]]; try discriminate;
        cbn [holding slot_pending held].
      * f_equal; lia.
      * destruct (Nat.leb_spec (S (b + (0 + hs))) limit) as [_|Hgt];
          [f_equal; lia | exfalso; lia].
      * replace (b + (1 + hs)) with (S (b + hs)) by lia. reflexivity.
      * replace (b + (1 + hs)) with (S (b + hs)) by lia. reflexivity.
Qed.

Lemma run_chunk_held (scripts : nat -> WorkerScript) (schedule : list tick)
    (st : Shared) (i : nat) (us : list string) :
  held limit 0 (trace st) = Some b -> b + length us <= limit ->
  held limit 0 (trace (run_chunk maxCount scripts schedule st i us).1) = Some b.
Proof.
  intros Hh Hroom. unfold run_chunk.
  assert (Hacc : held_inv limit b (dispatch_all maxCount scripts (st, []) i us)).
  { apply dispatch_all_held; [|cbn; lia].
    split; cbn; [rewrite Hh; f_equal; lia | constructor | lia]. }
  apply (turns_held schedule) in Hacc.
  destruct (foldl (turn maxCount) _ schedule) as [st' slots].
  now apply drain_held.
Qed.

Lemma batch_loop_held (scripts : nat -> WorkerScript) (schedules : nat -> list tick)
    (fuel : nat) :
  forall (i : nat) (rest : list string) (st : Shared) (allResults : list ScrapeResult),
    held limit 0 (trace st) = Some b -> b + BATCH_CONCURRENCY <= limit ->
    held limit 0 (trace (batch_loop fuel maxCount scripts schedules i rest st allResults).1)
    = Some b.
Proof.
  induction fuel as [|fuel IH]; intros i rest st allResults Hh Hroom; [easy|].
  destruct rest as [|u rest]; [easy|]. cbn [batch_loop].
  destruct (limit_reached maxCount st); [easy|].
  pose proof (run_chunk_held scripts (schedules (i / BATCH_CONCURRENCY)) st i
                (take BATCH_CONCURRENCY (u :: rest)) Hh) as Hc.
  destruct (run_chunk maxCount scripts _ st i _) as [st' rs]. cbn [fst] in Hc.
  apply IH; [|exact Hroom]. apply Hc. rewrite length_take. lia.
Qed.

End WithRuntime.

Section WithRuntime.
Context `{JsRuntime}.

Lemma scrapeListingsBatch_held (limit b : nat) (urls : list string)
    (scripts : nat -> WorkerScript) (schedules : nat -> list tick) (w : Shared)
    (currentCount maxCount : nat) :
  held limit 0 (trace w) = Some b -> b + BATCH_CONCURRENCY <= limit ->
  held limit 0 (trace (scrapeListingsBatch urls scripts schedules w currentCount maxCount).1)
  = Some b.
Proof.
  intros Hh Hroom. unfold scrapeListingsBatch. now apply batch_loop_held.
Qed.

Lemma goToNextPage_free (sid : nat) (targetUrl : string) (nav : NavScript) :
  forallb session_free (goToNextPage sid targetUrl nav).2 = true.
Proof.
  unfold goToNextPage.
  destruct (nav_goto nav); cbn [negb]; [|reflexivity].
  destruct (nav_first nav) as [doc|]; [|reflexivity].
  destruct (0 <? length (extractListingUrls doc))%nat; [reflexivity|].
  destruct (nav_title nav); cbn [negb]; [|reflexivity].
  destruct (nav_reload nav); cbn [negb]; [|reflexivity].
  destruct (nav_retry nav) as [doc'|]; [|reflexivity].
  now destruct (0 <? length (extractListingUrls doc'))%nat.
Qed.

Lemma held_release (limit : nat) (w : Shared) (main : nat) :
  held limit 0 (trace w) = Some 1 ->
  held limit 0 (trace (emit (SteelClient.releaseSteelSession main) w)) = Some 0.
Proof.
  intros Hh. cbn [emit trace]. now rewrite held_app, Hh.
Qed.

Lemma finish_held (limit : nat) (st : JobStatus) (main : nat) (j : Job) :
  held limit 0 (trace (world j)) = Some 1 ->
  held limit 0 (trace (world (finish st (Some main) j).2)) = Some 0.
Proof. intros Hh. cbn [finish snd with_world world]. now apply held_release. Qed.

Lemma paginate_held (searchUrl : string) (pages : list PageScript)
    (pageNum main : nat) (j : Job) :
  held (BATCH_CONCURRENCY + 1) 0 (trace (world j)) = Some 1 ->
  let out := paginate searchUrl pages pageNum main j in
  held (BATCH_CONCURRENCY + 1) 0 (trace (world out.2))
  = Some (match out.1 with running => 1 | _ => 0 end).
Proof.
  revert pageNum main j. induction pages as [|p later IH]; intros pageNum main j Hh out;
    subst out; cbn [paginate].
  - destruct (MAX_LISTINGS <=? globalCount j)%nat; [|exact Hh].
    rewrite (proj1 (JobFacts.finish_status _ _ _)). now apply finish_held.
  - destruct (MAX_LISTINGS <=? globalCount j)%nat;
      [rewrite (proj1 (JobFacts.finish_status _ _ _)); now apply finish_held|].
    set (j1 := if ps_abort p then with_world signal_abort j else j).
    assert (Hj1 : held (BATCH_CONCURRENCY + 1) 0 (trace (world j1)) = Some 1)
      by (subst j1; now destruct (ps_abort p)).
    destruct (aborted (world j1));
      [rewrite (proj1 (JobFacts.finish_status _ _ _)); now apply finish_held|].
    set (j2 := if ps_abort_discovery p then _ else _).
    assert (Hj2 : held (BATCH_CONCURRENCY + 1) 0 (trace (world j2)) = Some 1)
      by (subst j2; destruct (ps_abort_discovery p); cbn [with_world world signal_abort trace];
          now apply held_emit_free).
    clearbody j2. clear Hj1 j1. rename j2 into j1.
    destruct (ps_listing p) as [doc|];
      [|rewrite (proj1 (JobFacts.finish_status _ _ _)); now apply finish_held].
    destruct (length (extractListingUrls doc) =? 0)%nat;
      [rewrite (proj1 (JobFacts.finish_status _ _ _)); now apply finish_held|].
    cbn [with_world globalCount world] in *.
    pose proof (scrapeListingsBatch_held (BATCH_CONCURRENCY + 1) 1
                  (take (MAX_LISTINGS - globalCount j1) (extractListingUrls doc))
                  (ps_workers p) (ps_schedules p)
                  (world j1) (globalCount j1) MAX_LISTINGS
                  Hj2 ltac:(lia)) as Hb.
    destruct (scrapeListingsBatch _ _ _ _ _ _) as [w results]. cbn [fst] in Hb.
    match goal with |- context [consume results ?j0] => set (j2 := j0) end.
    assert (Hj3 : held (BATCH_CONCURRENCY + 1) 0 (trace (world (consume results j2))) = Some 1).
    { rewrite (consume_world results j2). exact Hb. }
    destruct (MAX_LISTINGS <=? globalCount (consume results j2))%nat;
      [rewrite (proj1 (JobFacts.finish_status _ _ _)); now apply finish_held|].
    unfold SteelClient.createSteelSession.
    pose proof (held_release _ _ main Hj3) as Hrel.
    destruct (ps_acquire p).
    2:{ cbn [finish fst snd with_world world]. exact Hrel. }
    pose proof (goToNextPage_free (next_sid (world (with_world
                  (emit (SteelClient.releaseSteelSession main)) (consume results j2))))
                  (buildNextPageUrl searchUrl (pageNum + 1)) (ps_nav p)) as Hfree.
    destruct (goToNextPage _ _ _) as [hasNext evs]. cbn [snd] in Hfree.
    match goal with
    | |- context [with_world (emit evs) ?j0] =>
        assert (Hj4 : held (BATCH_CONCURRENCY + 1) 0
                        (trace (world (with_world (emit evs) j0))) = Some 1)
    end.
    { cbn [with_world world]. apply held_emit_free; [exact Hfree|].
      cbn [emit take_sid trace with_world world] in *.
      rewrite held_app, Hrel. reflexivity. }
    destruct hasNext; cbn [negb].
    + now apply IH.
    + rewrite (proj1 (JobFacts.finish_status _ _ _)). now apply finish_held.
Qed.

(** X21.  During a job never more than [BATCH_CONCURRENCY] + 1
    sessions are held at the same moment, the session of the
    navigation and one per worker of the chunk in flight, and no
    session is released while none is held; when the job has settled
    none is held any more.  The bound is reached: there is a run in
    which [BATCH_CONCURRENCY] + 1 sessions are held at once. *)
Theorem sessions_held_at_once :
  (forall (searchUrl : string) (js : JobScript),
     let out := orchestrate searchUrl js in
     held (BATCH_CONCURRENCY + 1) 0 (trace (world out.2))
     = Some (match out.1 with running => 1 | _ => 0 end))
  /\ exists (searchUrl : string) (js : JobScript),
       held BATCH_CONCURRENCY 0 (trace (world (orchestrate searchUrl js).2)) = None.
Proof.
  split.
  - intros searchUrl js out. subst out. unfold orchestrate, SteelClient.createSteelSession.
    destruct (js_acquire js); [|reflexivity].
    destruct (js_goto js); cbn [negb]; [|reflexivity].
    now apply paginate_held.
  - exists "https://z/search/", five_at_once. vm_compute. reflexivity.
Qed.

End WithRuntime.

End HeldFacts.

(** ** The second tier: the price read off the text *)

Module DomPriceFacts.

Import Spec Terms.
Import Str DomPrice StrFacts.

#[local] Arguments String.append !_ _ / : simpl nomatch.

Lemma match_groups_form (n : nat) :
  forall s g rest : string,
    String.length s <= n -> match_groups s = Some (g, rest) ->
    exists pre d1 d2 d3,
      g = pre +:+ String "," (String d1 (String d2 (String d3 "")))
      /\ every cls_amount pre = true
      /\ is_digit d1 = true /\ is_digit d2 = true /\ is_digit d3 = true
      /\ s = g +:+ rest.
Proof.
  induction n as [|n IH]; intros s g rest Hn.
  - destruct s; [discriminate | cbn in Hn; lia].
  - destruct s as [|c0 [|d1 [|d2 [|d3 s]]]]; try discriminate.
    cbn [match_groups].
    destruct (Ascii.eqb_spec c0 ",") as [->|]; [|discriminate]. cbn [andb].
    destruct (is_digit d1) eqn:H1; [|discriminate].
    destruct (is_digit d2) eqn:H2; [|discriminate].
    destruct (is_digit d3) eqn:H3; [|discriminate]. cbn [andb].
    destruct (match_groups s) as [[m r]|] eqn:Hm.
    + intros [= <- <-].
      destruct (IH s m r) as (pre & e1 & e2 & e3 & -> & Hpre & He1 & He2 & He3 & ->);
        [cbn in Hn; lia | exact Hm|].
      exists (String "," (String d1 (String d2 (String d3 pre)))), e1, e2, e3.
      split; [reflexivity|]. split; [|now repeat split].
      cbn [every]. unfold cls_amount at 1 2 3 4. now rewrite H1, H2, H3.
    + intros [= <- <-]. exists "", d1, d2, d3. now repeat split.
Qed.

Lemma match_amount_form (s m rest : string) :
  match_amount s = Some (m, rest) ->
  exists body d1 d2 d3,
    m = body +:+ String "," (String d1 (String d2 (String d3 "")))
    /\ body <> "" /\ every cls_amount body = true
    /\ is_digit d1 = true /\ is_digit d2 = true /\ is_digit d3 = true
    /\ s = m +:+ rest.
Proof.
  revert m rest. induction s as [|c s IH]; intros m rest; cbn [match_amount]; [discriminate|].
  destruct (cls_amount c) eqn:Hc; [|discriminate].
  destruct (match_amount s) as [[m' rest']|].
  - intros [= <- <-].
    destruct (IH _ _ eq_refl) as (body & d1 & d2 & d3 & -> & _ & Hb & H1 & H2 & H3 & ->).
    exists (String c body), d1, d2, d3. split; [reflexivity|]. split; [discriminate|].
    split; [cbn; now rewrite Hc | now repeat split].
  - destruct (match_groups s) as [[g rest']|] eqn:Hg; [|discriminate].
    intros [= <- <-].
    destruct (match_groups_form _ s g rest' (le_n _) Hg)
      as (pre & d1 & d2 & d3 & -> & Hpre & H1 & H2 & H3 & ->).
    exists (String c pre), d1, d2, d3. split; [reflexivity|]. split; [discriminate|].
    split; [cbn; now rewrite Hc | now repeat split].
Qed.

Lemma match_groups_comma (s : string) :
  includes "," s = false -> match_groups s = None.
Proof.
  destruct s as [|c0 [|d1 [|d2 [|d3 s]]]]; try reflexivity.
  cbn [includes strip_prefix match_groups].
  destruct (Ascii.eqb_spec "," c0) as [<-|Hne]; [discriminate|].
  intros _. destruct (Ascii.eqb_spec c0 ","); [congruence | reflexivity].
Qed.

Lemma includes_tail (needle : string) (c : ascii) (s : string) :
  includes needle (String c s) = false -> includes needle s = false.
Proof.
  cbn [includes]. now destruct (strip_prefix needle (String c s)).
Qed.

Lemma match_amount_comma (s : string) :
  includes "," s = false -> match_amount s = None.
Proof.
  induction s as [|c s IH]; [reflexivity|]. intros Hs. cbn [match_amount].
  pose proof (includes_tail _ _ _ Hs) as Hs'.
  rewrite (IH Hs'), (match_groups_comma s Hs'). now destruct (cls_amount c).
Qed.

Lemma length_append (a b : string) :
  String.length (a +:+ b) = String.length a + String.length b.
Proof. induction a as [|c a IH]; [reflexivity|]. cbn. now rewrite IH. Qed.

Lemma match_groups_head (d1 d2 d3 : ascii) (rest : string) :
  is_digit d1 = true -> is_digit d2 = true -> is_digit d3 = true ->
  exists g r,
    match_groups (String "," (String d1 (String d2 (String d3 rest)))) = Some (g, r)
    /\ 4 <= String.length g.
Proof.
  intros H1 H2 H3. cbn [match_groups]. rewrite H1, H2, H3. cbn [Ascii.eqb Bool.eqb andb].
  destruct (match_groups rest) as [[m r]|]; eexists _, _; (split; [reflexivity|]); cbn; lia.
Qed.

(** The anchored match succeeds wherever a run with a group at its
    end stands, and takes at least that much. *)
Lemma match_amount_longest (body : string) (d1 d2 d3 : ascii) (rest : string) :
  body <> "" -> every cls_amount body = true ->
  is_digit d1 = true -> is_digit d2 = true -> is_digit d3 = true ->
  exists m r,
    match_amount (body +:+ String "," (String d1 (String d2 (String d3 rest)))) = Some (m, r)
    /\ String.length body + 4 <= String.length m.
Proof.
  intros Hne Hb H1 H2 H3. induction body as [|c body IH]; [congruence|].
  cbn [every] in Hb. apply andb_prop in Hb as [Hc Hb].
  change (String c body +:+ ?z) with (String c (body +:+ z)).
  cbn [match_amount]. rewrite Hc. destruct body as [|c' body].
  - change ("" +:+ ?z) with z.
    destruct (match_amount _) as [[m r]|] eqn:Hm.
    + destruct (match_amount_form _ _ _ Hm) as (b & e1 & e2 & e3 & -> & Hb' & _).
      eexists _, _. split; [reflexivity|]. cbn [String.length].
      rewrite length_append. destruct b; [congruence|]. cbn. lia.
    + destruct (match_groups_head d1 d2 d3 rest H1 H2 H3) as (g & r & -> & Hg).
      eexists _, _. split; [reflexivity|]. cbn. lia.
  - destruct (IH ltac:(discriminate) Hb) as (m & r & -> & Hm).
    eexists _, _. split; [reflexivity|]. cbn [String.length] in *. lia.
Qed.

Lemma price_text_head (m rest : string) (c : ascii) (s : string) :
  price_text m -> String c s = m +:+ rest ->
  c = "$"%char
  /\ exists m0 r, match_amount s = Some (m0, r) /\ String.length m <= S (String.length m0).
Proof.
  intros (body & d1 & d2 & d3 & -> & Hne & Hb & H1 & H2 & H3).
  change (String "$" ?a +:+ rest) with (String "$" (a +:+ rest)).
  intros [= -> ->]. split; [reflexivity|]. rewrite append_assoc.
  change (String "," (String d1 (String d2 (String d3 ""))) +:+ rest)
    with (String "," (String d1 (String d2 (String d3 rest)))).
  destruct (match_amount_longest body d1 d2 d3 rest Hne Hb H1 H2 H3) as (m0 & r & Hm & Hl).
  exists m0, r. split; [exact Hm|]. cbn [String.length]. rewrite length_append. cbn. lia.
Qed.

(** What the search returns is the leftmost text that the pattern
    takes and, of the texts it takes there, the longest. *)
Lemma search_price_form (bodyText m : string) :
  search_price bodyText = Some m ->
  price_text m
  /\ exists pre rest,
       bodyText = pre +:+ m +:+ rest
       /\ forall pre' m' rest',
            bodyText = pre' +:+ m' +:+ rest' -> price_text m' ->
            String.length pre <= String.length pre'
            /\ (String.length pre' = String.length pre ->
                String.length m' <= String.length m).
Proof.
  revert m. induction bodyText as [|c s IH]; intros m; [discriminate|].
  cbn [search_price].
  destruct (if Ascii.eqb c "$" then match_amount s else None) as [[m0 r]|] eqn:Hhere.
  - intros [= <-]. destruct (Ascii.eqb_spec c "$") as [->|]; [|discriminate].
    destruct (match_amount_form _ _ _ Hhere)
      as (body & d1 & d2 & d3 & -> & Hne & Hb & H1 & H2 & H3 & ->).
    split; [now exists body, d1, d2, d3|].
    exists "", r. split; [reflexivity|].
    intros pre' m' rest' E Hm'. split; [cbn; lia|].
    destruct pre' as [|? ?]; [|discriminate]. intros _.
    change ("" +:+ ?z) with z in E.
    destruct (price_text_head _ _ _ _ Hm' E) as (_ & m1 & r1 & Hm1 & Hl).
    rewrite Hhere in Hm1. injection Hm1 as <- <-. cbn [String.length]. lia.
  - intros Hs. destruct (IH _ Hs) as (Hm & pre & rest & -> & Hleft).
    split; [exact Hm|]. exists (String c pre), rest. split; [reflexivity|].
    intros pre' m' rest' E Hm'. destruct pre' as [|c' pre'].
    + exfalso. change ("" +:+ ?z) with z in E.
      destruct (price_text_head _ _ _ _ Hm' E) as (-> & m1 & r1 & Hm1 & _).
      cbn in Hhere. congruence.
    + change (String c' pre' +:+ ?z) with (String c' (pre' +:+ z)) in E.
      injection E as <- E. destruct (Hleft pre' m' rest' E Hm') as [Hle Hlong].
      cbn [String.length]. split; [lia|]. intros [= Hlen]. now apply Hlong.
Qed.

(** The search finds a price wherever the body has a text that the
    pattern takes. *)
Lemma search_price_finds (pre m rest : string) :
  price_text m -> search_price (pre +:+ m +:+ rest) <> None.
Proof.
  intros Hm. induction pre as [|c pre IH].
  - change ("" +:+ ?z) with z. destruct (m +:+ rest) as [|c s] eqn:E.
    + destruct Hm as (body & d1 & d2 & d3 & -> & _). discriminate.
    + symmetry in E. destruct (price_text_head _ _ _ _ Hm E) as (-> & m0 & r & Hm0 & _).
      cbn [search_price]. cbn [Ascii.eqb Bool.eqb]. now rewrite Hm0.
  - change (String c pre +:+ ?z) with (String c (pre +:+ z)). cbn [search_price].
    destruct (if Ascii.eqb c "$" then _ else _) as [[? ?]|]; [discriminate|].
    now destruct (search_price _).
Qed.

(** X22.  When the page of the second tier has no price element, the
    price is the leftmost text of the body that is a dollar sign, a
    run of digits and commas, and a comma with three digits at its
    end, and of the texts of that kind that start there the longest;
    it is [null] exactly when the body has no such text.  So an amount
    below 1,000, or written without a thousands separator, is not read
    as a price; in particular a body without any comma, or without
    any dollar sign, gives [null]. *)
Theorem price_from_text (bodyText : string) :
  (dom_price None bodyText = JNull
   <-> forall pre m rest, bodyText = pre +:+ m +:+ rest -> ~ price_text m)
  /\ (forall m : string,
        dom_price None bodyText = JStr m ->
        price_text m
        /\ exists pre rest,
             bodyText = pre +:+ m +:+ rest
             /\ forall pre' m' rest',
                  bodyText = pre' +:+ m' +:+ rest' -> price_text m' ->
                  String.length pre <= String.length pre'
                  /\ (String.length pre' = String.length pre ->
                      String.length m' <= String.length m))
  /\ (includes "," bodyText = false \/ includes "$" bodyText = false ->
      dom_price None bodyText = JNull).
Proof.
  unfold dom_price. split; [|split].
  - destruct (search_price bodyText) as [m|] eqn:Hs; split.
    + discriminate.
    + intros Hnone. destruct (search_price_form _ _ Hs) as (Hm & pre & rest & E & _).
      now destruct (Hnone pre m rest E).
    + intros _ pre m rest -> Hm. now apply (search_price_finds pre m rest Hm).
    + reflexivity.
  - intros m. destruct (search_price bodyText) as [m0|] eqn:Hs; [|discriminate].
    intros [= <-]. now apply search_price_form.
  - intros Hno. assert (Hs : search_price bodyText = None); [|now rewrite Hs].
    induction bodyText as [|c s IH]; [reflexivity|]. cbn [search_price].
    destruct Hno as [Hcomma|Hdollar].
    + pose proof (includes_tail _ _ _ Hcomma) as Hs'.
      rewrite (match_amount_comma s Hs'). destruct (Ascii.eqb c "$"); apply IH; now left.
    + pose proof (includes_tail _ _ _ Hdollar) as Hs'.
      cbn [includes strip_prefix] in Hdollar.
      destruct (Ascii.eqb_spec "$" c) as [<-|Hne]; [discriminate|].
      destruct (Ascii.eqb_spec c "$") as [->|_]; [congruence|]. apply IH. now right.
Qed.

Lemma price_from_text_witness :
  dom_price None "Rent: $950 per month. Deposit $1200." = JNull
  /\ dom_price None "Listed at $1,250,000 (was $1,300,000)" = JStr "$1,250,000"
  /\ price_text "$1,250,000".
Proof.
  split; [|split; [reflexivity|]].
  - apply (proj2 (proj2 (price_from_text "Rent: $950 per month. Deposit $1200."))).
    left. reflexivity.
  - apply (proj1 (proj2 (price_from_text "Listed at $1,250,000 (was $1,300,000)"))).
    reflexivity.
Defined.

End DomPriceFacts.

(** ** A job cancelled while a results page is read *)

Module CancelFacts.

Import Spec Scenarios Terms Cases.
Import PageController ListingWorker Orchestrator LoopFacts.


Section WithRuntime.
Context `{JsRuntime}.





End WithRuntime.


End CancelFacts.
